(** * DeepClaude gateway: connection pool, instance cache, configuration store,
    model resolution, request validation and response assembly.

  A shallow embedding of the Python sources under [app/utils], [app/manager]
  and [app/singlemodel], followed by the properties established about them.
  The first part of the file holds the definitions, one module per source
  file; the second part holds the lemmas and theorems. *)

From Stdlib Require Import ZArith Lia Ascii String DecimalString DecimalZ SpecFloat.
From Stdlib Require HexadecimalString.
From stdpp Require Import base option list sorting gmap strings.

(* ===================================================================== *)
(** * Part I: definitions                                                  *)
(* ===================================================================== *)

(** ** [app/utils/db_pool.py]: class [SQLiteConnectionPool] *)

Module DbPool.

(** A [sqlite3.Connection] object is represented by its identity: the
    comparison the pool makes is [pool_conn is conn]. *)
Definition conn := nat.

(** The attributes of [SQLiteConnectionPool] that the pool operations read
    and write.  [pool] is a Python list, [available] a list of slot
    indices, the other three are dictionaries keyed by slot index.  Times
    are the readings of [time.time()], supplied by the caller of each
    operation. *)
Record pool_state := PoolState {
  max_connections : nat;
  pool : list conn;
  available : list nat;
  in_use : gmap nat bool;
  created_time : gmap nat Z;
  last_used : gmap nat Z
}.

Definition empty_pool (n : nat) : pool_state :=
  PoolState n [] [] ∅ ∅ ∅.

(** One iteration of the loop of [_initialize_pool]: [opened] tells whether
    [sqlite3.connect] and the [PRAGMA] succeeded; the connection created in
    iteration [i] is a fresh object, identified by [i]. *)
Definition init_slot (opened : nat → bool) (now : Z) (st : pool_state) (i : nat)
  : pool_state :=
  if opened i then
    PoolState (max_connections st)
              (pool st ++ [i])
              (available st ++ [i])
              (<[i := false]> (in_use st))
              (<[i := now]> (created_time st))
              (<[i := now]> (last_used st))
  else st.

(** [for i in range(self.max_connections): ...] *)
Definition _initialize_pool (opened : nat → bool) (now : Z) (n : nat) : pool_state :=
  foldl (init_slot opened now) (empty_pool n) (seq 0 n).

(** What the critical section of one iteration of the [while] loop of
    [get_connection] does. *)
Inductive poll_result :=
| Got (c : conn)          (* [return self.pool[index]] *)
| NoneAvailable           (* [self.available] is empty: sleep and retry *)
| IndexError.             (* [self.pool[index]] out of range *)

(** The body of [with self.lock: if self.available: ...] in
    [get_connection]. *)
Definition poll (now : Z) (st : pool_state) : poll_result * pool_state :=
  match available st with
  | [] => (NoneAvailable, st)
  | index :: rest =>
      let st' := PoolState (max_connections st) (pool st) rest
                           (<[index := true]> (in_use st))
                           (created_time st)
                           (<[index := now]> (last_used st)) in
      match pool st !! index with
      | Some c => (Got c, st')
      | None => (IndexError, st')
      end
  end.

(** [get_connection] when no other thread runs between its iterations:
    [attempts] is the number of times the guard [wait_time < max_wait]
    holds.  [None] is the timeout result. *)
Fixpoint get_connection (attempts : nat) (now : Z) (st : pool_state)
  : poll_result * pool_state :=
  match attempts with
  | O => (NoneAvailable, st)
  | S k =>
      match poll now st with
      | (NoneAvailable, st') => get_connection k now st'
      | r => r
      end
  end.

(** [for i, pool_conn in enumerate(self.pool): if pool_conn is conn] : the
    first index holding the object. *)
Fixpoint index_of (c : conn) (l : list conn) : option nat :=
  match l with
  | [] => None
  | x :: r => if bool_decide (x = c) then Some O else S <$> index_of c r
  end.

Definition release_connection (c : conn) (now : Z) (st : pool_state) : pool_state :=
  match index_of c (pool st) with
  | Some i =>
      PoolState (max_connections st) (pool st)
                (if bool_decide (i ∈ available st) then available st
                 else available st ++ [i])
                (<[i := false]> (in_use st))
                (created_time st)
                (<[i := now]> (last_used st))
  | None => st   (* warning logged, nothing changes *)
  end.

(** An interleaving of calls is a sequence of lock-protected critical
    sections: a polling iteration of the [get_connection] call of some
    caller, or a [release_connection] call of some caller. *)
Definition caller := nat.

Inductive event :=
| EvPoll (who : caller) (now : Z)
| EvRelease (who : caller) (c : conn) (now : Z).

(** The state of the pool together with the connections that callers
    currently hold (returned to them by [get_connection], not yet
    released by them). *)
Definition step (ev : event) (sh : pool_state * list (caller * conn))
  : pool_state * list (caller * conn) :=
  let (st, held) := sh in
  match ev with
  | EvPoll who now =>
      match poll now st with
      | (Got c, st') => (st', (who, c) :: held)
      | (_, st') => (st', held)
      end
  | EvRelease who c now =>
      (release_connection c now st, filter (λ x, x ≠ (who, c)) held)
  end.

Definition run (tr : list event) (sh : pool_state * list (caller * conn))
  : pool_state * list (caller * conn) :=
  foldl (λ sh ev, step ev sh) sh tr.

(** Every [release_connection] in the trace is made by a caller that holds
    the connection at that moment: each connection returned by
    [get_connection] is released once, by the caller that got it. *)
Fixpoint disciplined (tr : list event) (sh : pool_state * list (caller * conn)) : Prop :=
  match tr with
  | [] => True
  | ev :: tr' =>
      match ev with
      | EvPoll _ _ => True
      | EvRelease who c _ => (who, c) ∈ sh.2
      end ∧ disciplined tr' (step ev sh)
  end.

Definition slot_available (st : pool_state) (i : nat) : Prop := i ∈ available st.
Definition slot_in_use (st : pool_state) (i : nat) : Prop := in_use st !! i = Some true.

(** The slots of a pool of size [n]: the indices whose connection opened
    at initialisation. *)
Definition slot (n : nat) (opened : nat → bool) (i : nat) : Prop :=
  i < n ∧ opened i = true.

Definition opened_slots (n : nat) (opened : nat → bool) : list nat :=
  filter (λ i, opened i = true) (seq 0 n).

(** The pool after [_initialize_pool]: the connections that opened, in
    order, each of them listed as available and flagged not in use. *)
Definition initialised (n : nat) (opened : nat → bool) (st : pool_state) : Prop :=
  pool st = opened_slots n opened ∧ available st = opened_slots n opened ∧
  ∀ i, in_use st !! i =
       if decide (i < n ∧ opened i = true) then Some false else None.

(** The invariant of the pool: the available list has no repetition and
    names slots only, and every slot is either in the available list and
    flagged free, or absent from it and flagged in use. *)
Definition pool_inv (n : nat) (opened : nat → bool) (st : pool_state) : Prop :=
  pool st = opened_slots n opened ∧ NoDup (available st) ∧
  (∀ i, i ∈ available st → slot n opened i) ∧
  (∀ i, slot n opened i →
     (i ∈ available st ∧ in_use st !! i = Some false) ∨
     ((i ∉ available st) ∧ in_use st !! i = Some true)).

(** The connections that callers hold are exactly those stored in the slots
    flagged in use, each held by one caller. *)
Definition held_inv (n : nat) (opened : nat → bool) (st : pool_state)
    (held : list (caller * conn)) : Prop :=
  NoDup (held.*2) ∧
  ∀ c, c ∈ held.*2 ↔
       ∃ i, slot n opened i ∧ pool st !! i = Some c ∧ in_use st !! i = Some true.

(** Several calls of [get_connection] one after the other, none of the
    connections being released in between: their results, in order. *)
Fixpoint acquire_many (calls attempts : nat) (now : Z) (st : pool_state)
  : list poll_result * pool_state :=
  match calls with
  | O => ([], st)
  | S k =>
      let (r, st1) := get_connection attempts now st in
      let (rs, st2) := acquire_many k attempts now st1 in
      (r :: rs, st2)
  end.

(** What [get_connection] returns for the slot index it pops. *)
Definition handed_out (st : pool_state) (index : nat) : poll_result :=
  match pool st !! index with
  | Some c => Got c
  | None => IndexError
  end.

(** The health checker.  The probe and the reconnection are taken as given:
    [healthy c] tells whether [SELECT 1] succeeds on the connection [c], and
    [reopen i] is the connection made for slot [i], [None] when
    [sqlite3.connect] or the [PRAGMA] raises.  One iteration of the loop of
    [_check_connections]: a slot in use is skipped; a connection that passes
    the probe is left alone; otherwise the slot gets the new connection and
    the current time, and is listed as available if it was not. *)
Definition check_slot (healthy : conn → bool) (reopen : nat → option conn) (now : Z)
    (st : pool_state) (i : nat) : pool_state :=
  match pool st !! i with
  | None => st
  | Some c =>
      if default false (in_use st !! i) then st
      else if healthy c then st
      else match reopen i with
           | None => st
           | Some new_conn =>
               PoolState (max_connections st)
                         (<[i := new_conn]> (pool st))
                         (if bool_decide (i ∈ available st) then available st
                          else available st ++ [i])
                         (if bool_decide (i ∈ available st) then in_use st
                          else <[i := false]> (in_use st))
                         (<[i := now]> (created_time st))
                         (<[i := now]> (last_used st))
           end
  end.

(** [for i, conn in enumerate(self.pool): ...] *)
Definition _check_connections (healthy : conn → bool) (reopen : nat → option conn)
    (now : Z) (st : pool_state) : pool_state :=
  foldl (check_slot healthy reopen now) st (seq 0 (length (pool st))).

(** Two states of the pool that agree on slot [i]: the same connection,
    the same flag, and listed as available in both or in neither. *)
Definition agree (st1 st2 : pool_state) (i : nat) : Prop :=
  pool st1 !! i = pool st2 !! i ∧ in_use st1 !! i = in_use st2 !! i ∧
  (i ∈ available st1 ↔ i ∈ available st2).

(** Every slot of the pool is listed as available or flagged in use. *)
Definition accounted (st : pool_state) : Prop :=
  ∀ i, i < length (pool st) →
       i ∈ available st ∨ in_use st !! i = Some true.

(** [close_all]: every connection is closed, an error of [close] being
    logged, and the five containers are cleared. *)
Definition close_all (st : pool_state) : pool_state :=
  PoolState (max_connections st) [] [] ∅ ∅ ∅.

(** The module-level [DB_POOL] is [None] or the pool.  [get_db_pool] makes the
    pool on the first call; [opened] and [now] are what [_initialize_pool]
    meets when it does. *)
Definition get_db_pool (opened : nat → bool) (now : Z) (max_connections : nat)
    (DB_POOL : option pool_state) : pool_state * option pool_state :=
  match DB_POOL with
  | None =>
      let made := _initialize_pool opened now max_connections in (made, Some made)
  | Some p => (p, Some p)
  end.

(** [close_db_pool]: the pool, if there is one, is closed and forgotten;
    the result is the closed pool, as those who still hold it see it, and
    the new value of [DB_POOL]. *)
Definition close_db_pool (DB_POOL : option pool_state)
  : option pool_state * option pool_state :=
  match DB_POOL with
  | Some p => (Some (close_all p), None)
  | None => (None, None)
  end.

End DbPool.

(** ** [app/utils/model_cache.py]: class [ModelInstanceCache] *)

Module ModelCache.

Section Cache.

(** The type of the cached model instances. *)
Context {V : Type}.

(** [self.instances] is an [OrderedDict]: the entries in insertion order,
    oldest first.  [max_size] is a count of instances. *)
Record cache := Cache {
  max_size : nat;
  instances : list (string * V)
}.

(** [ModelInstanceCache(max_size)] *)
Definition new_cache (n : nat) : cache := Cache n [].

(** [list(self.instances.keys())] *)
Definition get_all_keys (c : cache) : list string := (instances c).*1.

(** [model_key in self.instances] *)
Definition contains (k : string) (l : list (string * V)) : bool :=
  bool_decide (k ∈ l.*1).

(** [self.instances[model_key]] for a key that may be absent. *)
Fixpoint lookup_key (k : string) (l : list (string * V)) : option V :=
  match l with
  | [] => None
  | (k', v) :: r => if decide (k' = k) then Some v else lookup_key k r
  end.

(** What is left of the dictionary after [self.instances.pop(model_key)]. *)
Definition pop (k : string) (l : list (string * V)) : list (string * V) :=
  filter (λ kv, kv.1 ≠ k) l.

(** [get]: a hit moves the entry to the end and returns the instance; a
    miss returns [None] and changes nothing. *)
Definition get (k : string) (c : cache) : option V * cache :=
  match lookup_key k (instances c) with
  | Some instance =>
      (Some instance, Cache (max_size c) (pop k (instances c) ++ [(k, instance)]))
  | None => (None, c)
  end.

(** How a call of [put] ends. *)
Inductive put_result :=
| Stored                       (* added, nothing removed *)
| Evicted (oldest_key : string) (* [popitem(last=False)] removed this key first *)
| KeyError.                    (* [popitem] on an empty dictionary raised *)

(** [put]: remove the key if present; if the size has reached [max_size],
    remove the first entry; append the new entry. *)
Definition put (k : string) (instance : V) (c : cache) : put_result * cache :=
  let l1 := if contains k (instances c) then pop k (instances c) else instances c in
  if bool_decide (max_size c ≤ length l1) then
    match l1 with
    | [] => (KeyError, Cache (max_size c) l1)
    | (oldest_key, _) :: rest =>
        (Evicted oldest_key, Cache (max_size c) (rest ++ [(k, instance)]))
    end
  else (Stored, Cache (max_size c) (l1 ++ [(k, instance)])).

(** [remove] *)
Definition remove (k : string) (c : cache) : bool * cache :=
  if contains k (instances c) then (true, Cache (max_size c) (pop k (instances c)))
  else (false, c).

(** [clear] *)
Definition clear (c : cache) : cache := Cache (max_size c) [].

(** [__len__] *)
Definition len (c : cache) : nat := length (instances c).

(** A sequence of calls on one cache. *)
Inductive op :=
| OpGet (k : string)
| OpPut (k : string) (instance : V).

Definition op_key (o : op) : string :=
  match o with OpGet k => k | OpPut k _ => k end.

Definition run_op (c : cache) (o : op) : cache :=
  match o with
  | OpGet k => (get k c).2
  | OpPut k v => (put k v c).2
  end.

Definition run (h : list op) (c : cache) : cache := foldl run_op c h.

(** The time of the last access to a key in a history of calls: the
    position, counted from 1, of the last call that names the key, and 0
    when no call names it.  The pair carries the number of calls seen and
    the last position found. *)
Definition tick (k : string) (acc : nat * nat) (o : op) : nat * nat :=
  (S acc.1, if decide (op_key o = k) then S acc.1 else acc.2).

Definition last_access (h : list op) (k : string) : nat :=
  (foldl (tick k) (0, 0) h).2.

(** The entries are ordered by the time of their last access, oldest
    first. *)
Definition lru_ordered (h : list op) (c : cache) : Prop :=
  StronglySorted lt (last_access h <$> get_all_keys c).

(** A sequence of calls of any of the methods that change the cache. *)
Inductive call :=
| CallGet (k : string)
| CallPut (k : string) (instance : V)
| CallRemove (k : string)
| CallClear.

Definition run_call (c : cache) (o : call) : cache :=
  match o with
  | CallGet k => (get k c).2
  | CallPut k v => (put k v c).2
  | CallRemove k => (remove k c).2
  | CallClear => clear c
  end.

Definition run_calls (h : list call) (c : cache) : cache := foldl run_call c h.

(** What every call keeps: distinct keys, as in a dictionary, and at most
    [max_size] entries. *)
Definition well_formed (c : cache) : Prop :=
  NoDup (get_all_keys c) ∧ (len c ≤ max_size c)%nat.

End Cache.

Arguments cache : clear implicits.
Arguments op : clear implicits.
Arguments call : clear implicits.

End ModelCache.

(** ** Python values, exceptions and the monad of the embedded methods *)

Module Py.

#[local] Set Warnings "-register-all".

(** The values that cross the boundaries of the embedded methods: [None],
    booleans, integers, floats, strings, lists and dictionaries with string
    keys (in insertion order). *)
Inductive pyval :=
| PNone
| PBool (b : bool)
| PInt (z : Z)
| PFloat (x : spec_float)
| PStr (s : string)
| PList (l : list pyval)
| PDict (d : list (string * pyval)).

(** The exceptions the embedded code can raise; all of them are subclasses of
    [Exception].  [SqliteError] stands for [sqlite3.Error] and its
    subclasses. *)
Inductive exn :=
| SqliteError (msg : string)
| IndexError (msg : string)
| KeyError (key : string)
| TypeError (msg : string)
| ValueError (msg : string)
| AttributeError (msg : string)
| OverflowError (msg : string)
| UnboundLocalError (name : string)
| OtherError (msg : string).

(** [str(e)]: the message; for a [KeyError], the key between quotes. *)
Definition exn_str (e : exn) : string :=
  match e with
  | SqliteError msg | IndexError msg | TypeError msg | ValueError msg
  | AttributeError msg | OverflowError msg | OtherError msg => msg
  | KeyError key => "'" +:+ key +:+ "'"
  | UnboundLocalError name =>
      "cannot access local variable '" +:+ name +:+
      "' where it is not associated with a value"
  end.

(** The truth value of an object: [bool(x)], [if x], [not x]. *)
Definition truthy (v : pyval) : bool :=
  match v with
  | PNone => false
  | PBool b => b
  | PInt z => negb (z =? 0)%Z
  | PFloat x => negb (SFeqb x (S754_zero false))
  | PStr s => negb (String.eqb s "")
  | PList l => match l with [] => false | _ => true end
  | PDict d => match d with [] => false | _ => true end
  end.

(** Association lists keyed by strings: dictionaries and database rows. *)
Fixpoint assoc {A : Type} (k : string) (l : list (string * A)) : option A :=
  match l with
  | [] => None
  | (k', v) :: r => if String.eqb k' k then Some v else assoc k r
  end.

(** [d[k] = v] on a dictionary: replace in place, or append. *)
Fixpoint assoc_set {A : Type} (k : string) (v : A) (l : list (string * A))
  : list (string * A) :=
  match l with
  | [] => [(k, v)]
  | (k', v') :: r =>
      if String.eqb k' k then (k', v) :: r else (k', v') :: assoc_set k v r
  end.

(** Lookups in a value, for stating its shape: [v[k]] in a dictionary and
    [v[i]] in a list. *)
Definition item (k : string) (v : pyval) : option pyval :=
  match v with PDict d => assoc k d | _ => None end.

Definition index (i : nat) (v : pyval) : option pyval :=
  match v with PList l => l !! i | _ => None end.

(** [isinstance(value, int)]: [bool] is a subclass of [int]. *)
Definition isinstance_int (v : pyval) : bool :=
  match v with PInt _ | PBool _ => true | _ => false end.

Definition isinstance_float (v : pyval) : bool :=
  match v with PFloat _ => true | _ => false end.

Definition isinstance_bool (v : pyval) : bool :=
  match v with PBool _ => true | _ => false end.

(** [isinstance(value, (dict, list))] *)
Definition isinstance_dict_or_list (v : pyval) : bool :=
  match v with PDict _ | PList _ => true | _ => false end.

(** [str(z)] for an integer: decimal digits, with a minus sign when
    negative. *)
Definition str_of_Z (z : Z) : string := DecimalString.NilZero.string_of_int (Z.to_int z).

(** [int(s)] for a string: the decimal numerals with an optional minus
    sign; [None] stands for [ValueError].  (Python also accepts surrounding
    blanks, a plus sign and underscores between digits.) *)
Definition int_of_str (s : string) : option Z :=
  match s with
  | EmptyString => None
  | _ => Z.of_int <$> DecimalString.NilZero.int_of_string s
  end.

(** [s.lower()] on ASCII letters. *)
Definition lower_ascii (a : ascii) : ascii :=
  let n := nat_of_ascii a in
  if (65 <=? n)%nat && (n <=? 90)%nat then ascii_of_nat (n + 32) else a.

Fixpoint lower (s : string) : string :=
  match s with
  | EmptyString => EmptyString
  | String a r => String (lower_ascii a) (lower r)
  end.

(** [x in (a, b, c)] for strings. *)
Definition str_in (s : string) (l : list string) : bool :=
  existsb (String.eqb s) l.

(** The library functions on floats and JSON text that the code calls; they
    are taken as given.  [None] stands for the exception the function
    raises. *)
Record builtins := Builtins {
  float_str : spec_float → string;            (* [str(x)] *)
  float_of_str : string → option spec_float;  (* [float(s)], [ValueError] *)
  float_of_int : Z → option spec_float;       (* [float(n)], [OverflowError] *)
  int_of_float : spec_float → option Z;       (* [int(x)], [ValueError] *)
  str_container : pyval → string;        (* [str(v)] of a list or dictionary *)
  json_dumps : pyval → option string;    (* [json.dumps(v, ensure_ascii=False)] *)
  json_loads : string → option pyval     (* [json.loads(s)] *)
}.

(** [str(v)] *)
Definition py_str (B : builtins) (v : pyval) : string :=
  match v with
  | PNone => "None"
  | PBool true => "True"
  | PBool false => "False"
  | PInt z => str_of_Z z
  | PFloat x => float_str B x
  | PStr s => s
  | PList _ | PDict _ => str_container B v
  end.

(** The result of running a method: it returns or it raises. *)
Inductive outcome (A : Type) :=
| Ret (a : A)
| Raise (e : exn).
Arguments Ret {A} a.
Arguments Raise {A} e.

Definition is_raise {A} (r : outcome A) : bool :=
  match r with Ret _ => false | Raise _ => true end.

Section Monad.
(** The mutable state a method runs in. *)
Context {S : Type}.

Definition M (A : Type) : Type := S → outcome A * S.

Definition ret {A} (a : A) : M A := λ s, (Ret a, s).
Definition raise {A} (e : exn) : M A := λ s, (Raise e, s).

Definition bind {A B} (m : M A) (k : A → M B) : M B := λ s,
  match m s with
  | (Ret a, s') => k a s'
  | (Raise e, s') => (Raise e, s')
  end.

(** [try: body except Exception as e: handler] *)
Definition try_except {A} (body : M A) (handler : exn → M A) : M A := λ s,
  match body s with
  | (Ret a, s') => (Ret a, s')
  | (Raise e, s') => handler e s'
  end.

(** [for x in xs: acc = body(acc, x)] *)
Fixpoint for_each {A B} (xs : list A) (acc : B) (body : B → A → M B) : M B :=
  match xs with
  | [] => ret acc
  | x :: r => bind (body acc x) (λ acc', for_each r acc' body)
  end.

(** [d.get(k, default)]; on an object without [get] the attribute lookup
    fails. *)
Definition dict_get (d : pyval) (k : string) (default : pyval) : M pyval :=
  match d with
  | PDict l => ret (match assoc k l with Some v => v | None => default end)
  | _ => raise (AttributeError "object has no attribute 'get'")
  end.

(** [d[k]] *)
Definition subscript (d : pyval) (k : string) : M pyval :=
  match d with
  | PDict l =>
      match assoc k l with Some v => ret v | None => raise (KeyError k) end
  | _ => raise (TypeError "object is not subscriptable")
  end.

(** [int(v)] *)
Definition py_int (B : builtins) (v : pyval) : M pyval :=
  match v with
  | PStr s =>
      match int_of_str s with
      | Some z => ret (PInt z)
      | None => raise (ValueError "invalid literal for int()")
      end
  | PInt z => ret (PInt z)
  | PBool b => ret (PInt (if b then 1 else 0))
  | PFloat x =>
      match int_of_float B x with
      | Some z => ret (PInt z)
      | None => raise (ValueError "cannot convert float to integer")
      end
  | _ => raise (TypeError "int() argument must be a string or a number")
  end.

(** [float(v)] *)
Definition py_float (B : builtins) (v : pyval) : M pyval :=
  match v with
  | PStr s =>
      match float_of_str B s with
      | Some x => ret (PFloat x)
      | None => raise (ValueError "could not convert string to float")
      end
  | PFloat x => ret (PFloat x)
  | PInt z =>
      match float_of_int B z with
      | Some x => ret (PFloat x)
      | None => raise (OverflowError "int too large to convert to float")
      end
  | PBool b =>
      match float_of_int B (if b then 1 else 0) with
      | Some x => ret (PFloat x)
      | None => raise (OverflowError "int too large to convert to float")
      end
  | _ => raise (TypeError "float() argument must be a string or a number")
  end.

(** [v.lower()] *)
Definition py_lower (v : pyval) : M string :=
  match v with
  | PStr s => ret (lower s)
  | _ => raise (AttributeError "object has no attribute 'lower'")
  end.

(** [json.loads(v)] *)
Definition py_json_loads (B : builtins) (v : pyval) : M pyval :=
  match v with
  | PStr s =>
      match json_loads B s with
      | Some j => ret j
      | None => raise (ValueError "JSONDecodeError")
      end
  | _ => raise (TypeError "the JSON object must be str, bytes or bytearray")
  end.

(** [json.dumps(v, ensure_ascii=False)] *)
Definition py_json_dumps (B : builtins) (v : pyval) : M string :=
  match json_dumps B v with
  | Some s => ret s
  | None => raise (TypeError "Object is not JSON serializable")
  end.

(** [v > 0] *)
Definition gt_zero (v : pyval) : M bool :=
  match v with
  | PInt z => ret (0 <? z)%Z
  | PBool b => ret b
  | PFloat x => ret (SFltb (S754_zero false) x)
  | _ => raise (TypeError "'>' not supported")
  end.

(** [d[k] = v] where [k] is an object read from a text column: the key is
    identified with its text. *)
Definition dict_setitem (B : builtins) (d : pyval) (k : pyval) (v : pyval) : M pyval :=
  match d, k with
  | PDict l, (PList _ | PDict _) => raise (TypeError "unhashable type")
  | PDict l, _ => ret (PDict (assoc_set (py_str B k) v l))
  | _, _ => raise (TypeError "object does not support item assignment")
  end.

(** [d.values()] and [d.items()] *)
Definition dict_items (d : pyval) : M (list (string * pyval)) :=
  match d with
  | PDict l => ret l
  | _ => raise (AttributeError "object has no attribute 'items'")
  end.

End Monad.

Arguments M : clear implicits.

End Py.

Declare Scope py_scope.
Delimit Scope py_scope with py.
Notation "x <- m ;; k" := (Py.bind m (λ x, k))
  (at level 100, m at next level, right associativity) : py_scope.
Notation "m ;; k" := (Py.bind m (λ _, k))
  (at level 100, right associativity) : py_scope.

(** ** The embedded relational datastore (the [sqlite3] module) *)

Module Sqlite.
Import Py.

(** A value stored in a column. *)
Inductive sqlval :=
| SNull
| SInt (z : Z)
| SReal (x : spec_float)
| SText (s : string).

(** A row, stored or returned by a query ([sqlite3.Row]): column names with
    their values, in column order. *)
Definition row := list (string * sqlval).

(** The four tables of the persisted schema. *)
Inductive tname := providers | models | composite_models | system_settings.

(** The rows of a table and the largest [id] handed out so far
    ([AUTOINCREMENT]). *)
Record table := Table {
  rows : list row;
  last_id : Z
}.

(** The contents of the datastore; a table is [None] until it is created. *)
Record database := Database {
  t_providers : option table;
  t_models : option table;
  t_composite_models : option table;
  t_system_settings : option table
}.

Definition tname_eqb (a b : tname) : bool :=
  match a, b with
  | providers, providers | models, models
  | composite_models, composite_models | system_settings, system_settings => true
  | _, _ => false
  end.

Definition empty_database : database := Database None None None None.

Definition get_table (t : tname) (d : database) : option table :=
  match t with
  | providers => t_providers d
  | models => t_models d
  | composite_models => t_composite_models d
  | system_settings => t_system_settings d
  end.

Definition set_table (t : tname) (x : table) (d : database) : database :=
  match t with
  | providers =>
      Database (Some x) (t_models d) (t_composite_models d) (t_system_settings d)
  | models =>
      Database (t_providers d) (Some x) (t_composite_models d) (t_system_settings d)
  | composite_models =>
      Database (t_providers d) (t_models d) (Some x) (t_system_settings d)
  | system_settings =>
      Database (t_providers d) (t_models d) (t_composite_models d) (Some x)
  end.

(** A column of the schema: its name, [NOT NULL], [UNIQUE] or
    [PRIMARY KEY], and the table whose [id] a [FOREIGN KEY] refers to. *)
Record column := Column {
  cname : string;
  not_null : bool;
  is_unique : bool;
  references : option tname
}.

(** The [CREATE TABLE] statements of [_init_db]. *)
Definition schema (t : tname) : list column :=
  match t with
  | providers =>
      [ Column "id" false true None;
        Column "provider_name" true true None;
        Column "api_key" true false None;
        Column "api_base_url" true false None;
        Column "api_request_address" true false None;
        Column "provider_format" true false None;
        Column "is_valid" true false None ]
  | models =>
      [ Column "id" false true None;
        Column "provider_id" true false (Some providers);
        Column "model_type" true false None;
        Column "model_id" true false None;
        Column "model_name" true true None;
        Column "model_format" true false None;
        Column "is_valid" true false None;
        Column "is_origin_reasoning" false false None ]
  | composite_models =>
      [ Column "id" false true None;
        Column "model_name" true true None;
        Column "reasoner_model_id" true false (Some models);
        Column "general_model_id" true false (Some models);
        Column "is_valid" true false None ]
  | system_settings =>
      [ Column "setting_key" false true None;
        Column "setting_value" true false None;
        Column "setting_type" true false None ]
  end.

(** [id INTEGER PRIMARY KEY AUTOINCREMENT] *)
Definition autoincrement (t : tname) : bool :=
  match t with system_settings => false | _ => true end.

Definition column_names (t : tname) : list string := cname <$> schema t.

Definition has_column (t : tname) (c : string) : bool :=
  existsb (String.eqb c) (column_names t).

(** The statements the configuration store executes, with the Python
    objects bound to their [?] placeholders.  A [WHERE] clause is a
    conjunction of [column = ?] tests ([[]] when there is none). *)
Inductive stmt :=
| CreateTable (t : tname)
| Select (cols : list string) (t : tname) (w : list (string * pyval))
| SelectCount (alias : string) (t : tname)
| SelectOne (t : tname) (w : list (string * pyval))
| Insert (or_ignore : bool) (t : tname) (cols : list string) (params : list pyval)
| Update (t : tname) (sets : list (string * pyval)) (w : list (string * pyval))
| Delete (t : tname) (w : list (string * pyval)).

(** Binding a Python object to a placeholder; lists and dictionaries are
    not supported and integers must fit 64 bits. *)
Definition bind_param (v : pyval) : option sqlval :=
  match v with
  | PNone => Some SNull
  | PBool b => Some (SInt (if b then 1 else 0))
  | PInt z =>
      if ((- 2 ^ 63 <=? z) && (z <? 2 ^ 63))%Z then Some (SInt z) else None
  | PFloat x => Some (SReal x)
  | PStr s => Some (SText s)
  | PList _ | PDict _ => None
  end.

Fixpoint bind_all (l : list pyval) : option (list sqlval) :=
  match l with
  | [] => Some []
  | v :: r =>
      match bind_param v, bind_all r with
      | Some x, Some xs => Some (x :: xs)
      | _, _ => None
      end
  end.

Fixpoint bind_named (l : list (string * pyval)) : option (list (string * sqlval)) :=
  match l with
  | [] => Some []
  | (c, v) :: r =>
      match bind_param v, bind_named r with
      | Some x, Some xs => Some ((c, x) :: xs)
      | _, _ => None
      end
  end.

(** The Python object a column value is read as. *)
Definition to_py (v : sqlval) : pyval :=
  match v with
  | SNull => PNone
  | SInt z => PInt z
  | SReal x => PFloat x
  | SText s => PStr s
  end.

(** [a = b] in a [WHERE] clause: never true on [NULL]; values of different
    storage classes are different. *)
Definition sql_eq (a b : sqlval) : bool :=
  match a, b with
  | SInt x, SInt y => (x =? y)%Z
  | SReal x, SReal y => SFeqb x y
  | SText x, SText y => String.eqb x y
  | _, _ => false
  end.

Definition field (c : string) (r : row) : sqlval :=
  match assoc c r with Some v => v | None => SNull end.

Definition matches (w : list (string * sqlval)) (r : row) : bool :=
  forallb (λ cv, sql_eq (field cv.1 r) cv.2) w.

(** The columns of a [SELECT] list, in the order written. *)
Definition project (cols : list string) (r : row) : row :=
  (λ c, (c, field c r)) <$> cols.

Definition all_columns (t : tname) (cs : list string) : bool :=
  forallb (has_column t) cs.

(** Queries: the rows of the result set, or an error message. *)
Definition run_select (cols : list string) (t : tname) (w : list (string * sqlval))
    (d : database) : string + list row :=
  match get_table t d with
  | None => inl "no such table"
  | Some x =>
      if all_columns t cols && all_columns t (w.*1) then
        inr (project cols <$> filter (λ r, matches w r = true) (rows x))
      else inl "no such column"
  end.

Definition run_count (alias : string) (t : tname) (d : database) : string + list row :=
  match get_table t d with
  | None => inl "no such table"
  | Some x => inr [[(alias, SInt (Z.of_nat (length (rows x))))]]
  end.

Definition run_select_one (t : tname) (w : list (string * sqlval)) (d : database)
  : string + list row :=
  match get_table t d with
  | None => inl "no such table"
  | Some x =>
      if all_columns t (w.*1) then
        inr ((λ _, [("1", SInt 1)]) <$> filter (λ r, matches w r = true) (rows x))
      else inl "no such column"
  end.

(** Constraints. *)
Definition is_null (v : sqlval) : bool :=
  match v with SNull => true | _ => false end.

Definition not_null_ok (t : tname) (r : row) : bool :=
  forallb (λ c, negb (not_null c && is_null (field (cname c) r))) (schema t).

(** No row of [others] has the value of [r] in a unique column. *)
Definition unique_ok (t : tname) (others : list row) (r : row) : bool :=
  forallb (λ c,
    negb (is_unique c) ||
    negb (existsb (λ r', sql_eq (field (cname c) r') (field (cname c) r)) others))
    (schema t).

Definition id_exists (t : tname) (v : sqlval) (d : database) : bool :=
  match get_table t d with
  | None => false
  | Some x => existsb (λ r, sql_eq (field "id" r) v) (rows x)
  end.

(** Every foreign key of [r] is [NULL] or names an existing parent row
    ([PRAGMA foreign_keys = ON]). *)
Definition parents_ok (t : tname) (r : row) (d : database) : bool :=
  forallb (λ c,
    match references c with
    | None => true
    | Some p => is_null (field (cname c) r) || id_exists p (field (cname c) r) d
    end) (schema t).

(** No row of any table refers to the row [r] of table [t]. *)
Definition unreferenced (t : tname) (r : row) (d : database) : bool :=
  forallb (λ child : tname,
    match get_table child d with
    | None => true
    | Some x =>
        forallb (λ c,
          match references c with
          | Some p =>
              negb (tname_eqb p t) ||
              negb (existsb (λ r', sql_eq (field (cname c) r') (field "id" r)) (rows x))
          | None => true
          end) (schema child)
    end) [providers; models; composite_models; system_settings].

Definition max_id (l : list row) : Z :=
  foldr (λ r m, match field "id" r with SInt z => Z.max z m | _ => m end) 0%Z l.

(** The row an [INSERT] builds: the listed columns take the bound values, an
    unlisted [id] of an [AUTOINCREMENT] table the next identifier, any other
    unlisted column [NULL]. *)
Definition new_row (t : tname) (given : list (string * sqlval)) (next : Z) : row :=
  (λ c,
     match assoc (cname c) given with
     | Some v =>
         if String.eqb (cname c) "id" && autoincrement t && is_null v
         then (cname c, SInt next) else (cname c, v)
     | None =>
         if String.eqb (cname c) "id" && autoincrement t
         then (cname c, SInt next) else (cname c, SNull)
     end) <$> schema t.

Definition run_insert (or_ignore : bool) (t : tname) (cols : list string)
    (vals : list sqlval) (d : database) : string + database :=
  match get_table t d with
  | None => inl "no such table"
  | Some x =>
      if negb (all_columns t cols) then inl "table has no column of that name"
      else if negb (length cols =? length vals)%nat then inl "values for columns"
      else
        let next := (Z.max (last_id x) (max_id (rows x)) + 1)%Z in
        let r := new_row t (zip cols vals) next in
        if negb (not_null_ok t r && unique_ok t (rows x) r) then
          if or_ignore then inr d else inl "constraint failed"
        else if negb (parents_ok t r d) then inl "FOREIGN KEY constraint failed"
        else inr (set_table t (Table (rows x ++ [r])
                                     (if autoincrement t then next else last_id x)) d)
  end.

(** [UPDATE]: the assignments replace the values of the named columns. *)
Definition assign (sets : list (string * sqlval)) (r : row) : row :=
  (λ cv, (cv.1, match assoc cv.1 sets with Some v => v | None => cv.2 end)) <$> r.

Fixpoint update_rows (t : tname) (sets w : list (string * sqlval))
    (done todo : list row) (d : database) : option (list row) :=
  match todo with
  | [] => Some done
  | r :: rest =>
      if matches w r then
        let r' := assign sets r in
        if not_null_ok t r' && unique_ok t (done ++ rest) r' && parents_ok t r' d
        then update_rows t sets w (done ++ [r']) rest d
        else None
      else update_rows t sets w (done ++ [r]) rest d
  end.

Definition run_update (t : tname) (sets w : list (string * sqlval)) (d : database)
  : string + database :=
  match get_table t d with
  | None => inl "no such table"
  | Some x =>
      if negb (all_columns t (sets.*1) && all_columns t (w.*1))
      then inl "no such column"
      else match update_rows t sets w [] (rows x) d with
           | None => inl "constraint failed"
           | Some l => inr (set_table t (Table l (last_id x)) d)
           end
  end.

Definition run_delete (t : tname) (w : list (string * sqlval)) (d : database)
  : string + database :=
  match get_table t d with
  | None => inl "no such table"
  | Some x =>
      if negb (all_columns t (w.*1)) then inl "no such column"
      else
        let gone := filter (λ r, matches w r = true) (rows x) in
        let kept := filter (λ r, matches w r = false) (rows x) in
        let d' := set_table t (Table kept (last_id x)) d in
        if forallb (λ r, unreferenced t r d') gone then inr d'
        else inl "FOREIGN KEY constraint failed"
  end.

(** [CREATE TABLE IF NOT EXISTS] *)
Definition run_create (t : tname) (d : database) : database :=
  match get_table t d with
  | Some _ => d
  | None => set_table t (Table [] 0%Z) d
  end.

End Sqlite.

(** ** [app/utils/db_pool.py]: class [DBConnection], the scoped acquisition *)

Module DbConn.
Import Py Sqlite.

(** The [DBConnection] object bound by [with get_db_connection() as db]:
    whether [self.cursor] is set (it is not when [get_connection] timed
    out), whether the connection has an open transaction with uncommitted
    changes, the contents as that transaction sees them, and the result set
    of the last query. *)
Record handle := Handle {
  cursor : bool;
  dirty : bool;
  work : database;
  results : list row
}.

(** The world a method of the store runs in: the committed contents of the
    datastore; whether some connection holds the write lock (it has
    uncommitted changes); the faults still to come, one flag per attempt to
    acquire a connection, execute a statement or commit a transaction
    ([true]: that attempt fails); the number of [sqlite3.Error]s raised so
    far to the code of the store by [execute] and the fetch methods; the
    number of commits that failed; and the connection wrapper of the
    innermost [with] block. *)
Record state := State {
  store : database;
  locked : bool;
  faults : list bool;
  errors : nat;
  commit_failures : nat;
  db : handle
}.

Definition no_handle : handle := Handle false false empty_database [].

(** A world with the given contents, no fault to come and no [with] block
    entered. *)
Definition quiet (d : database) : state := State d false [] 0 0 no_handle.

Definition with_faults (fs : list bool) (s : state) : state :=
  State (store s) (locked s) fs (errors s) (commit_failures s) (db s).

Definition next_fault (s : state) : bool * state :=
  match faults s with
  | [] => (false, s)
  | f :: fs => (f, State (store s) (locked s) fs (errors s) (commit_failures s) (db s))
  end.

Definition set_db (h : handle) (s : state) : state :=
  State (store s) (locked s) (faults s) (errors s) (commit_failures s) h.

(** Raising [sqlite3.Error]. *)
Definition sql_raise {A} (msg : string) : M state A := λ s,
  (Raise (SqliteError msg),
   State (store s) (locked s) (faults s) (S (errors s)) (commit_failures s) (db s)).

(** What the connection sees: its own uncommitted changes, or the committed
    contents. *)
Definition view (s : state) : database :=
  if dirty (db s) then work (db s) else store s.

(** A query: the result set replaces that of the cursor. *)
Definition query (r : string + list row) : M state unit := λ s,
  match r with
  | inl msg => sql_raise msg s
  | inr rs =>
      (Ret tt, set_db (Handle (cursor (db s)) (dirty (db s)) (work (db s)) rs) s)
  end.

(** A data change: [sqlite3] opens a transaction before it; the write lock
    must be free or held by this connection; the change goes to the
    contents the transaction sees. *)
Definition change (r : database → string + database) : M state unit := λ s,
  if locked s && negb (dirty (db s)) then sql_raise "database is locked" s
  else match r (view s) with
       | inl msg => sql_raise msg s
       | inr d' =>
           (Ret tt, State (store s) true (faults s) (errors s) (commit_failures s)
                          (Handle (cursor (db s)) true d' []))
       end.

(** [CREATE TABLE] outside a transaction is committed at once. *)
Definition create (t : tname) : M state unit := λ s,
  if dirty (db s) then change (λ d, inr (run_create t d)) s
  else if locked s then sql_raise "database is locked" s
  else (Ret tt, State (run_create t (store s)) (locked s) (faults s) (errors s)
                      (commit_failures s)
                      (Handle (cursor (db s)) false (work (db s)) [])).

Definition run_stmt (q : stmt) : M state unit :=
  match q with
  | CreateTable t => create t
  | Select cols t w =>
      match bind_named w with
      | Some w' => λ s, query (run_select cols t w' (view s)) s
      | None => sql_raise "type is not supported"
      end
  | SelectCount alias t => λ s, query (run_count alias t (view s)) s
  | SelectOne t w =>
      match bind_named w with
      | Some w' => λ s, query (run_select_one t w' (view s)) s
      | None => sql_raise "type is not supported"
      end
  | Insert or_ignore t cols params =>
      match bind_all params with
      | Some vals =>
          if all_columns t cols then change (run_insert or_ignore t cols vals)
          else sql_raise "table has no column of that name"
      | None => sql_raise "type is not supported"
      end
  | Update t sets w =>
      match bind_named sets, bind_named w with
      | Some sets', Some w' =>
          if all_columns t (sets.*1) && all_columns t (w.*1)
          then change (run_update t sets' w')
          else sql_raise "no such column"
      | _, _ => sql_raise "type is not supported"
      end
  | Delete t w =>
      match bind_named w with
      | Some w' =>
          if all_columns t (w.*1) then change (run_delete t w')
          else sql_raise "no such column"
      | None => sql_raise "type is not supported"
      end
  end.

(** [DBConnection.execute]: fails when the wrapper has no cursor; otherwise
    the statement runs, unless the datastore faults. *)
Definition execute (q : stmt) : M state unit := λ s,
  if negb (cursor (db s)) then sql_raise "connection not initialised" s
  else
    let (f, s1) := next_fault s in
    if f then sql_raise "datastore fault" s1 else run_stmt q s1.

(** [DBConnection.fetchone] *)
Definition fetchone : M state (option row) := λ s,
  if negb (cursor (db s)) then sql_raise "connection not initialised" s
  else match results (db s) with
       | [] => (Ret None, s)
       | r :: rest =>
           (Ret (Some r),
            set_db (Handle (cursor (db s)) (dirty (db s)) (work (db s)) rest) s)
       end.

(** [DBConnection.fetchall] *)
Definition fetchall : M state (list row) := λ s,
  if negb (cursor (db s)) then sql_raise "connection not initialised" s
  else (Ret (results (db s)),
        set_db (Handle (cursor (db s)) (dirty (db s)) (work (db s)) []) s).

(** [row[c]] on a [sqlite3.Row]: only the selected columns are there. *)
Definition row_get (r : row) (c : string) : M state pyval :=
  match assoc c r with
  | Some v => ret (to_py v)
  | None => raise (IndexError "No item with that key")
  end.

(** [DBConnection.__enter__]: [get_connection] returns a connection, or
    [None] after the timeout; the cursor is created only in the first
    case. *)
Definition __enter__ (s : state) : state :=
  let (f, s1) := next_fault s in
  set_db (Handle (negb f) false (store s1) []) s1.

(** [DBConnection.__exit__]: with a connection, roll back when the block
    raised and commit otherwise, ignoring [sqlite3.Error] from either; then
    release the connection.  A commit that fails is followed by no
    rollback: the committed contents are as they were and the connection
    goes back to the pool with its transaction open, so the write lock
    stays held. *)
Definition __exit__ (raised : bool) (s : state) : state :=
  if negb (cursor (db s)) then s
  else if negb (dirty (db s)) then s
  else if raised then
    State (store s) false (faults s) (errors s) (commit_failures s) (db s)
  else
    let (f, s1) := next_fault s in
    if f then
      State (store s1) true (faults s1) (errors s1) (S (commit_failures s1)) (db s1)
    else
      State (work (db s1)) false (faults s1) (errors s1) (commit_failures s1) (db s1).

(** [with get_db_connection() as db: body]; the wrapper of the enclosing
    block, if any, is in scope again afterwards. *)
Definition with_db {A} (body : M state A) : M state A := λ s,
  let outer := db s in
  match body (__enter__ s) with
  | (r, s') => (r, set_db outer (__exit__ (is_raise r) s'))
  end.

End DbConn.

(** ** [app/utils/db_pool.py]: class [DBConnection], on the pool *)

Module DbScope.
Import Py.

(** What [__exit__] asks of the connection before it releases it. *)
Inductive finish :=
| Committed (c : DbPool.conn)     (* [self.conn.commit()] *)
| RolledBack (c : DbPool.conn)    (* [self.conn.rollback()] *)
| NoConnection.                   (* [self.conn] is [None] *)

(** [__enter__]: [self.conn = self.pool.get_connection()]; [attempts] is the
    number of polls that the default [max_wait] and [retry_interval] allow.
    The wrapper holds a connection, or [None] after a timeout. *)
Definition __enter__ (attempts : nat) (now : Z) (st : DbPool.pool_state)
  : outcome (option DbPool.conn) * DbPool.pool_state :=
  match DbPool.get_connection attempts now st with
  | (DbPool.Got c, st1) => (Ret (Some c), st1)
  | (DbPool.NoneAvailable, st1) => (Ret None, st1)
  | (DbPool.IndexError, st1) => (Raise (IndexError "list index out of range"), st1)
  end.

(** [__exit__]: with a connection, roll back when the block raised and
    commit otherwise, ignoring [sqlite3.Error] from either, then release the
    connection; without one, nothing. *)
Definition __exit__ (raised : bool) (conn : option DbPool.conn) (now : Z)
    (st : DbPool.pool_state) : finish * DbPool.pool_state :=
  match conn with
  | Some c =>
      (if raised then RolledBack c else Committed c,
       DbPool.release_connection c now st)
  | None => (NoConnection, st)
  end.

(** [with DBConnection(pool) as db: body].  The body is given the
    connection of the wrapper and does not call the pool itself.  The result
    is the outcome of the body, what [__exit__] did ([None] when [__enter__]
    raised and the block was not entered), and the pool afterwards. *)
Definition scoped {A} (attempts : nat) (t_in t_out : Z)
    (body : option DbPool.conn → outcome A) (st : DbPool.pool_state)
  : outcome A * option finish * DbPool.pool_state :=
  match __enter__ attempts t_in st with
  | (Raise e, st1) => (Raise e, None, st1)
  | (Ret conn, st1) =>
      let r := body conn in
      let (f, st2) := __exit__ (is_raise r) conn t_out st1 in
      (r, Some f, st2)
  end.

(** The connection the wrapper obtains from a pool whose slots match the
    positions of [pool]. *)
Definition next_connection (st : DbPool.pool_state) : option DbPool.conn :=
  match DbPool.available st with
  | [] => None
  | index :: _ => DbPool.pool st !! index
  end.

(** What [__exit__] does, by the connection held and the outcome of the
    block. *)
Definition expected_finish {A} (conn : option DbPool.conn) (r : outcome A) : finish :=
  match conn with
  | Some c => if is_raise r then RolledBack c else Committed c
  | None => NoConnection
  end.

End DbScope.

(** ** [app/utils/db_manager_pool.py]: class [DBManagerPool] *)

Module DBManagerPool.
Import Py Sqlite DbConn.
Local Open Scope py_scope.

Section Store.
Variable B : builtins.

(** The text [["*"]]. *)
Definition double_quote : string := String (ascii_of_nat 34) EmptyString.

Definition any_origin : string :=
  "[" +:+ double_quote +:+ "*" +:+ double_quote +:+ "]".

(** The default settings seeded on first run. *)
Definition default_settings : list (string * string * string) :=
  [ ("log_level", "INFO", "str");
    ("allow_origins", any_origin, "json");
    ("api_key", "123456", "str");
    ("proxy_open", "false", "bool");
    ("proxy_address", "127.0.0.1:7890", "str");
    ("model_cache_size", "5", "int");
    ("save_deepseek_tokens", "false", "bool");
    ("save_deepseek_tokens_max_tokens", "5", "int") ].

Definition insert_default_settings : M state unit :=
  for_each default_settings tt (λ _ kvt,
    execute (Insert true system_settings
               ["setting_key"; "setting_value"; "setting_type"]
               [PStr kvt.1.1; PStr kvt.1.2; PStr kvt.2])).

(** [_init_system_settings(db)], called inside the [with] block of
    [_init_db]. *)
Definition _init_system_settings : M state unit :=
  try_except
    (execute (SelectCount "count" system_settings) ;;
     row <- fetchone ;;
     match row with
     | Some r =>
         count <- row_get r "count" ;;
         positive <- gt_zero count ;;
         if positive then ret tt else insert_default_settings
     | None => insert_default_settings
     end)
    (λ e, ret tt).

Definition _init_db : M state unit :=
  try_except
    (with_db
       (execute (CreateTable providers) ;;
        execute (CreateTable models) ;;
        execute (CreateTable composite_models) ;;
        execute (CreateTable system_settings) ;;
        _init_system_settings))
    (λ e, raise e).

(** [DBManagerPool(db_path)] *)
Definition __init__ : M state unit := _init_db.

(** *** Providers *)

Definition provider_columns : list string :=
  ["id"; "provider_name"; "api_key"; "api_base_url"; "api_request_address";
   "provider_format"; "is_valid"].

(** The dictionary built from a row of [providers]. *)
Definition provider_config (row : row) : M state pyval :=
  id <- row_get row "id" ;;
  provider_name <- row_get row "provider_name" ;;
  api_key <- row_get row "api_key" ;;
  api_base_url <- row_get row "api_base_url" ;;
  api_request_address <- row_get row "api_request_address" ;;
  provider_format <- row_get row "provider_format" ;;
  is_valid <- row_get row "is_valid" ;;
  ret (PDict [ ("id", id); ("provider_name", provider_name); ("api_key", api_key);
               ("api_base_url", api_base_url);
               ("api_request_address", api_request_address);
               ("provider_format", provider_format);
               ("is_valid", PBool (truthy is_valid)) ]).

(** The [try] block of [get_all_providers]. *)
Definition get_all_providers_try : M state pyval :=
  with_db
    (execute (Select ["id"; "provider_name"; "api_base_url"; "api_request_address";
                      "provider_format"; "is_valid"] providers []) ;;
     rows <- fetchall ;;
     for_each rows (PDict []) (λ result row,
       config <- provider_config row ;;
       name <- row_get row "provider_name" ;;
       dict_setitem B result name config)).

Definition get_all_providers : M state pyval :=
  try_except get_all_providers_try (λ e, ret (PDict [])).

Definition get_provider_for_name (provider_name : string) : M state pyval :=
  try_except
    (with_db
       (execute (Select provider_columns providers
                   [("provider_name", PStr provider_name)]) ;;
        row <- fetchone ;;
        match row with
        | Some r => provider_config r
        | None => ret PNone
        end))
    (λ e, ret PNone).

Definition get_provider_for_id (provider_id : pyval) : M state pyval :=
  try_except
    (with_db
       (execute (Select provider_columns providers [("id", provider_id)]) ;;
        row <- fetchone ;;
        match row with
        | Some r => provider_config r
        | None => ret PNone
        end))
    (λ e, ret PNone).

Definition save_provider (config : pyval) : M state pyval :=
  try_except
    (provider_id <- dict_get config "id" PNone ;;
     provider_name <- dict_get config "provider_name" (PStr "") ;;
     api_key <- dict_get config "api_key" (PStr "") ;;
     api_base_url <- dict_get config "api_base_url" (PStr "") ;;
     api_request_address <- dict_get config "api_request_address" (PStr "") ;;
     provider_format <- dict_get config "provider_format" (PStr "") ;;
     valid <- dict_get config "is_valid" (PBool true) ;;
     let is_valid := PInt (if truthy valid then 1 else 0) in
     with_db
       ((if truthy provider_id then
           execute (Update providers
                      [("provider_name", provider_name); ("api_key", api_key);
                       ("api_base_url", api_base_url);
                       ("api_request_address", api_request_address);
                       ("provider_format", provider_format); ("is_valid", is_valid)]
                      [("id", provider_id)])
         else
           execute (Insert false providers
                      ["provider_name"; "api_key"; "api_base_url";
                       "api_request_address"; "provider_format"; "is_valid"]
                      [provider_name; api_key; api_base_url; api_request_address;
                       provider_format; is_valid])) ;;
        ret (PBool true)))
    (λ e, ret (PBool false)).

Definition delete_provider (provider_id : pyval) : M state pyval :=
  try_except
    (with_db (execute (Delete providers [("id", provider_id)]) ;; ret (PBool true)))
    (λ e, ret (PBool false)).

(** *** Models *)

(** The dictionary built from a row of [models]. *)
Definition model_config (row : row) : M state pyval :=
  id <- row_get row "id" ;;
  model_id <- row_get row "model_id" ;;
  model_name <- row_get row "model_name" ;;
  model_type <- row_get row "model_type" ;;
  model_format <- row_get row "model_format" ;;
  provider_id <- row_get row "provider_id" ;;
  is_valid <- row_get row "is_valid" ;;
  is_origin_reasoning <- row_get row "is_origin_reasoning" ;;
  ret (PDict [ ("id", id); ("model_id", model_id); ("model_name", model_name);
               ("model_type", model_type); ("model_format", model_format);
               ("provider_id", provider_id);
               ("is_valid", PBool (truthy is_valid));
               ("is_origin_reasoning", PBool (truthy is_origin_reasoning)) ]).

(** The same dictionary with the last two keys in the order used by the
    lookups of one model. *)
Definition model_config_one (row : row) : M state pyval :=
  id <- row_get row "id" ;;
  model_id <- row_get row "model_id" ;;
  model_name <- row_get row "model_name" ;;
  model_type <- row_get row "model_type" ;;
  model_format <- row_get row "model_format" ;;
  provider_id <- row_get row "provider_id" ;;
  is_origin_reasoning <- row_get row "is_origin_reasoning" ;;
  is_valid <- row_get row "is_valid" ;;
  ret (PDict [ ("id", id); ("model_id", model_id); ("model_name", model_name);
               ("model_type", model_type); ("model_format", model_format);
               ("provider_id", provider_id);
               ("is_origin_reasoning", PBool (truthy is_origin_reasoning));
               ("is_valid", PBool (truthy is_valid)) ]).

Definition get_all_models (model_type : pyval) : M state pyval :=
  try_except
    (with_db
       (execute (Select ["id"; "model_id"; "model_name"; "provider_id";
                         "is_origin_reasoning"; "is_valid"; "model_type";
                         "model_format"] models
                   (if truthy model_type then [("model_type", model_type)] else [])) ;;
        rows <- fetchall ;;
        for_each rows (PDict []) (λ result row,
          config <- model_config row ;;
          name <- row_get row "model_name" ;;
          dict_setitem B result name config)))
    (λ e, ret (PDict [])).

Definition get_model_for_name (model_name : string) : M state pyval :=
  try_except
    (with_db
       (execute (Select ["id"; "model_id"; "model_name"; "provider_id";
                         "is_origin_reasoning"; "is_valid"; "model_type";
                         "model_format"] models
                   [("is_valid", PInt 1); ("model_name", PStr model_name)]) ;;
        row <- fetchone ;;
        match row with
        | Some r => model_config_one r
        | None => ret PNone
        end))
    (λ e, ret PNone).

Definition get_model_for_id (models_id : pyval) : M state pyval :=
  try_except
    (with_db
       (execute (Select ["id"; "model_id"; "model_name"; "model_format";
                         "provider_id"; "is_origin_reasoning"; "is_valid";
                         "model_type"] models
                   [("is_valid", PInt 1); ("id", models_id)]) ;;
        row <- fetchone ;;
        match row with
        | Some r => model_config_one r
        | None => ret PNone
        end))
    (λ e, ret PNone).

Definition save_model (config : pyval) : M state pyval :=
  try_except
    (models_id <- dict_get config "id" PNone ;;
     model_name <- dict_get config "model_name" (PStr "") ;;
     model_id <- dict_get config "model_id" (PStr "") ;;
     api_key <- dict_get config "api_key" (PStr "") ;;
     provider_id <- dict_get config "provider_id" PNone ;;
     origin <- dict_get config "is_origin_reasoning" (PBool false) ;;
     let is_origin_reasoning := PInt (if truthy origin then 1 else 0) in
     valid <- dict_get config "is_valid" (PBool false) ;;
     let is_valid := PInt (if truthy valid then 1 else 0) in
     model_type <- dict_get config "model_type" (PStr "") ;;
     model_format <- dict_get config "model_format" (PStr "") ;;
     with_db
       ((if truthy models_id then
           execute (Update models
                      [("model_id", model_id); ("api_key", api_key);
                       ("provider_id", provider_id);
                       ("is_origin_reasoning", is_origin_reasoning);
                       ("is_valid", is_valid); ("model_type", model_type);
                       ("model_format", model_format)]
                      [("id", models_id)])
         else
           execute (Insert false models
                      ["model_name"; "model_id"; "api_key"; "provider_id";
                       "is_origin_reasoning"; "is_valid"; "model_type";
                       "model_format"]
                      [model_name; model_id; api_key; provider_id;
                       is_origin_reasoning; is_valid; model_type; model_format])) ;;
        ret (PBool true)))
    (λ e, ret (PBool false)).

Definition delete_model (models_id : pyval) : M state pyval :=
  try_except
    (with_db (execute (Delete models [("id", models_id)]) ;; ret (PBool true)))
    (λ e, ret (PBool false)).

(** *** Composite models *)

Definition composite_config (row : row) : M state pyval :=
  id <- row_get row "id" ;;
  model_name <- row_get row "model_name" ;;
  reasoner_model_id <- row_get row "reasoner_model_id" ;;
  general_model_id <- row_get row "general_model_id" ;;
  is_valid <- row_get row "is_valid" ;;
  ret (PDict [ ("id", id); ("model_name", model_name);
               ("reasoner_model_id", reasoner_model_id);
               ("general_model_id", general_model_id);
               ("is_valid", PBool (truthy is_valid)) ]).

Definition composite_columns : list string :=
  ["id"; "model_name"; "is_valid"; "reasoner_model_id"; "general_model_id"].

Definition get_all_composite_models : M state pyval :=
  try_except
    (with_db
       (execute (Select composite_columns composite_models []) ;;
        rows <- fetchall ;;
        for_each rows (PDict []) (λ result row,
          config <- composite_config row ;;
          name <- row_get row "model_name" ;;
          dict_setitem B result name config)))
    (λ e, ret (PDict [])).

Definition get_composite_model (model_name : string) : M state pyval :=
  try_except
    (with_db
       (execute (Select composite_columns composite_models
                   [("model_name", PStr model_name); ("is_valid", PInt 1)]) ;;
        row <- fetchone ;;
        match row with
        | Some r => composite_config r
        | None => ret PNone
        end))
    (λ e, ret PNone).

Definition save_composite_model (config : pyval) : M state pyval :=
  try_except
    (composite_id <- dict_get config "id" PNone ;;
     model_name <- dict_get config "model_name" (PStr "") ;;
     reasoner_model_id <- dict_get config "reasoner_model_id" PNone ;;
     general_model_id <- dict_get config "general_model_id" PNone ;;
     valid <- dict_get config "is_valid" (PBool false) ;;
     let is_valid := PInt (if truthy valid then 1 else 0) in
     with_db
       ((if truthy composite_id then
           execute (Update composite_models
                      [("reasoner_model_id", reasoner_model_id);
                       ("general_model_id", general_model_id);
                       ("is_valid", is_valid)]
                      [("id", composite_id)])
         else
           execute (Insert false composite_models
                      ["model_name"; "reasoner_model_id"; "general_model_id";
                       "is_valid"]
                      [model_name; reasoner_model_id; general_model_id; is_valid])) ;;
        ret (PBool true)))
    (λ e, ret (PBool false)).

Definition delete_composite_model (composite_id : pyval) : M state pyval :=
  try_except
    (with_db
       (execute (Delete composite_models [("id", composite_id)]) ;; ret (PBool true)))
    (λ e, ret (PBool false)).

(** *** System settings *)

(** The conversion of a stored value according to its type tag. *)
Definition convert_setting (value type_name : pyval) : M state pyval :=
  match type_name with
  | PStr "int" => py_int B value
  | PStr "float" => py_float B value
  | PStr "bool" =>
      low <- py_lower value ;;
      ret (PBool (str_in low ["true"; "1"; "yes"]))
  | PStr "json" => py_json_loads B value
  | _ => ret value
  end.

Definition get_setting (key : string) : M state pyval :=
  try_except
    (with_db
       (execute (Select ["setting_value"; "setting_type"] system_settings
                   [("setting_key", PStr key)]) ;;
        row <- fetchone ;;
        match row with
        | Some r =>
            value <- row_get r "setting_value" ;;
            type_name <- row_get r "setting_type" ;;
            convert_setting value type_name
        | None => ret PNone
        end))
    (λ e, ret PNone).

Definition get_all_settings : M state pyval :=
  try_except
    (with_db
       (execute (Select ["setting_key"; "setting_value"; "setting_type"]
                   system_settings []) ;;
        rows <- fetchall ;;
        for_each rows (PDict []) (λ result row,
          key <- row_get row "setting_key" ;;
          value <- row_get row "setting_value" ;;
          type_name <- row_get row "setting_type" ;;
          converted <- convert_setting value type_name ;;
          dict_setitem B result key converted)))
    (λ e, ret (PDict [])).

(** The type tag and the text under which [save_setting] stores a value:
    the chain of [isinstance] tests, in the order written. *)
Definition classify_setting (value : pyval) : M state (string * string) :=
  if isinstance_int value then ret ("int", py_str B value)
  else if isinstance_float value then ret ("float", py_str B value)
  else if isinstance_bool value then
    ret ("bool", if truthy value then "true" else "false")
  else if isinstance_dict_or_list value then
    str_value <- py_json_dumps B value ;; ret ("json", str_value)
  else ret ("str", py_str B value).

Definition save_setting (key : string) (value : pyval) : M state pyval :=
  try_except
    (tv <- classify_setting value ;;
     let type_name := tv.1 in
     let str_value := tv.2 in
     with_db
       (execute (SelectOne system_settings [("setting_key", PStr key)]) ;;
        row <- fetchone ;;
        (match row with
         | Some _ =>
             execute (Update system_settings
                        [("setting_value", PStr str_value);
                         ("setting_type", PStr type_name)]
                        [("setting_key", PStr key)])
         | None =>
             execute (Insert false system_settings
                        ["setting_key"; "setting_value"; "setting_type"]
                        [PStr key; PStr str_value; PStr type_name])
         end) ;;
        ret (PBool true)))
    (λ e, ret (PBool false)).

Definition delete_setting (key : string) : M state pyval :=
  try_except
    (with_db
       (execute (Delete system_settings [("setting_key", PStr key)]) ;;
        ret (PBool true)))
    (λ e, ret (PBool false)).

(** *** Export and import *)

Definition export_config : M state pyval :=
  try_except
    (all_providers <- get_all_providers ;;
     all_models <- get_all_models PNone ;;
     all_composite_models <- get_all_composite_models ;;
     all_settings <- get_all_settings ;;
     ret (PDict [ ("providers", all_providers); ("models", all_models);
                  ("composite_models", all_composite_models);
                  ("system", all_settings) ]))
    (λ e, ret (PDict [])).

(** [for x in config.get(section, {}).values(): save(x)]; the result of
    [save] is not looked at. *)
Definition import_section (config : pyval) (section : string)
    (save : string → pyval → M state pyval) : M state unit :=
  d <- dict_get config section (PDict []) ;;
  items <- dict_items d ;;
  for_each items tt (λ _ kv, save kv.1 kv.2 ;; ret tt).

Definition import_config (config : pyval) : M state pyval :=
  try_except
    (with_db
       (execute (Delete providers []) ;;
        execute (Delete models []) ;;
        execute (Delete composite_models []) ;;
        execute (Delete system_settings []) ;;
        import_section config "providers" (λ _ c, save_provider c) ;;
        import_section config "models" (λ _ c, save_model c) ;;
        import_section config "composite_models" (λ _ c, save_composite_model c) ;;
        import_section config "system" save_setting ;;
        ret (PBool true)))
    (λ e, ret (PBool false)).

(** The read and write operations of the store, with their arguments. *)
Inductive operation :=
| GetAllProviders
| GetProviderForName (provider_name : string)
| GetProviderForId (provider_id : pyval)
| SaveProvider (config : pyval)
| DeleteProvider (provider_id : pyval)
| GetAllModels (model_type : pyval)
| GetModelForName (model_name : string)
| GetModelForId (models_id : pyval)
| SaveModel (config : pyval)
| DeleteModel (models_id : pyval)
| GetAllCompositeModels
| GetCompositeModel (model_name : string)
| SaveCompositeModel (config : pyval)
| DeleteCompositeModel (composite_id : pyval)
| GetSetting (key : string)
| GetAllSettings
| SaveSetting (key : string) (value : pyval)
| DeleteSetting (key : string)
| ExportConfig
| ImportConfig (config : pyval).

Definition perform (op : operation) : M state pyval :=
  match op with
  | GetAllProviders => get_all_providers
  | GetProviderForName n => get_provider_for_name n
  | GetProviderForId i => get_provider_for_id i
  | SaveProvider c => save_provider c
  | DeleteProvider i => delete_provider i
  | GetAllModels t => get_all_models t
  | GetModelForName n => get_model_for_name n
  | GetModelForId i => get_model_for_id i
  | SaveModel c => save_model c
  | DeleteModel i => delete_model i
  | GetAllCompositeModels => get_all_composite_models
  | GetCompositeModel n => get_composite_model n
  | SaveCompositeModel c => save_composite_model c
  | DeleteCompositeModel i => delete_composite_model i
  | GetSetting k => get_setting k
  | GetAllSettings => get_all_settings
  | SaveSetting k v => save_setting k v
  | DeleteSetting k => delete_setting k
  | ExportConfig => export_config
  | ImportConfig c => import_config c
  end.

(** What the [except] clause of an operation returns: an empty dictionary
    or [None] for a read, [False] for a write. *)
Definition on_failure (op : operation) : pyval :=
  match op with
  | GetAllProviders | GetAllModels _ | GetAllCompositeModels | GetAllSettings
  | ExportConfig => PDict []
  | GetProviderForName _ | GetProviderForId _ | GetModelForName _
  | GetModelForId _ | GetCompositeModel _ | GetSetting _ => PNone
  | SaveProvider _ | DeleteProvider _ | SaveModel _ | DeleteModel _
  | SaveCompositeModel _ | DeleteCompositeModel _ | SaveSetting _ _
  | DeleteSetting _ | ImportConfig _ => PBool false
  end.

Definition is_write (op : operation) : bool :=
  match on_failure op with PBool _ => true | _ => false end.

(** The operations made of calls of other operations. *)
Definition is_bulk (op : operation) : bool :=
  match op with ExportConfig | ImportConfig _ => true | _ => false end.

End Store.

(** The columns the query of [get_all_providers] selects. *)
Definition selected : list string :=
  ["id"; "provider_name"; "api_base_url"; "api_request_address"; "provider_format";
   "is_valid"].

(** A computation that returns has raised no [sqlite3.Error] on the way:
    the count of errors is what it was. *)
Definition silent {A} (m : M state A) : Prop :=
  ∀ s a s', m s = (Ret a, s') → errors s' = errors s.

(** [CREATE TABLE], which is committed at once. *)
Definition is_create (q : stmt) : bool :=
  match q with CreateTable _ => true | _ => false end.

(** The three forms of [SELECT]. *)
Definition is_select (q : stmt) : bool :=
  match q with
  | Select _ _ _ | SelectCount _ _ | SelectOne _ _ => true
  | _ => false
  end.

(** A computation that reads only: the committed contents are what they
    were, and the connection wrapper in scope has the cursor and the
    uncommitted changes it had. *)
Definition reads {A} (m : M state A) : Prop :=
  ∀ s r s', m s = (r, s') →
    store s' = store s ∧ dirty (db s') = dirty (db s) ∧
    cursor (db s') = cursor (db s).

(** A computation that leaves the committed contents as they were; the
    statements other than [CREATE TABLE] are such, their changes being
    held by the transaction until the commit. *)
Definition keeps_store {A} (m : M state A) : Prop :=
  ∀ s r s', m s = (r, s') → store s' = store s.

(** A computation whose only result, when it returns, is [True]. *)
Definition returns_true (m : M state pyval) : Prop :=
  ∀ s r s', m s = (r, s') → r = Ret (PBool true) ∨ is_raise r = true.

(** A computation that returns [True], or raises with the committed contents
    as they were. *)
Definition all_or_nothing (m : M state pyval) : Prop :=
  ∀ s r s', m s = (r, s') →
    r = Ret (PBool true) ∨ (is_raise r = true ∧ store s' = store s).

(** The dictionaries the lookups build from a stored row. *)
Definition provider_dict (r : row) : pyval :=
  PDict [ ("id", to_py (field "id" r));
          ("provider_name", to_py (field "provider_name" r));
          ("api_key", to_py (field "api_key" r));
          ("api_base_url", to_py (field "api_base_url" r));
          ("api_request_address", to_py (field "api_request_address" r));
          ("provider_format", to_py (field "provider_format" r));
          ("is_valid", PBool (truthy (to_py (field "is_valid" r)))) ].

Definition model_dict (r : row) : pyval :=
  PDict [ ("id", to_py (field "id" r));
          ("model_id", to_py (field "model_id" r));
          ("model_name", to_py (field "model_name" r));
          ("model_type", to_py (field "model_type" r));
          ("model_format", to_py (field "model_format" r));
          ("provider_id", to_py (field "provider_id" r));
          ("is_origin_reasoning",
           PBool (truthy (to_py (field "is_origin_reasoning" r))));
          ("is_valid", PBool (truthy (to_py (field "is_valid" r)))) ].

Definition composite_dict (r : row) : pyval :=
  PDict [ ("id", to_py (field "id" r));
          ("model_name", to_py (field "model_name" r));
          ("reasoner_model_id", to_py (field "reasoner_model_id" r));
          ("general_model_id", to_py (field "general_model_id" r));
          ("is_valid", PBool (truthy (to_py (field "is_valid" r)))) ].

(** The dictionary that [get_all_models] builds from a stored row. *)
Definition listed_model_dict (r : row) : pyval :=
  PDict [ ("id", to_py (field "id" r));
          ("model_id", to_py (field "model_id" r));
          ("model_name", to_py (field "model_name" r));
          ("model_type", to_py (field "model_type" r));
          ("model_format", to_py (field "model_format" r));
          ("provider_id", to_py (field "provider_id" r));
          ("is_valid", PBool (truthy (to_py (field "is_valid" r))));
          ("is_origin_reasoning",
           PBool (truthy (to_py (field "is_origin_reasoning" r)))) ].

(** The rows that [_init_system_settings] inserts into an empty table. *)
Definition seeded_settings : list row :=
  (λ kvt : string * string * string,
     [ ("setting_key", SText kvt.1.1); ("setting_value", SText kvt.1.2);
       ("setting_type", SText kvt.2) ]) <$> default_settings.

(** The rows of a table in the committed contents ([[]] before the table
    is created). *)
Definition stored (t : tname) (s : state) : list row :=
  match get_table t (store s) with
  | Some x => rows x
  | None => []
  end.

(** The rows of a table in given contents. *)
Definition rows_of (t : tname) (d : database) : list row :=
  match get_table t d with
  | Some x => rows x
  | None => []
  end.

(** Contents in which every table holds what it holds in [d0], or nothing. *)
Definition kept_or_emptied (d0 d : database) : Prop :=
  ∀ t, rows_of t d = rows_of t d0 ∨ rows_of t d = [].

(** A computation run on a connection without changes of its own while
    another connection holds the write lock: the committed contents and the
    lock are as they were and the connection still has no change; no fault
    appears that was not to come. *)
Definition waits {A} (m : M state A) : Prop :=
  ∀ s r s', locked s = true → dirty (db s) = false → m s = (r, s') →
    store s' = store s ∧ locked s' = true ∧ dirty (db s') = false ∧
    (faults s = [] → faults s' = []).

(** A computation that, run while a connection holds the write lock, leaves
    the committed contents, the lock and the connection wrapper in scope as
    they were. *)
Definition untouched {A} (m : M state A) : Prop :=
  ∀ s r s', locked s = true → m s = (r, s') →
    store s' = store s ∧ locked s' = true ∧ db s' = db s ∧
    (faults s = [] → faults s' = []).

End DBManagerPool.

(** ** [app/manager/model_manager.py]: class [ModelManager] *)

Module ModelManager.
Import Py Sqlite DbConn DBManagerPool.
Local Open Scope py_scope.

(** The network clients of [app.clients] and the composite pipelines built
    from two of them.  An object carries its identity, given when it is
    constructed. *)
Inductive client_class := OpenAICompatibleClient | ClaudeClient | DeepSeekClient.

Record instance := Instance {
  object_id : nat;
  class_of : client_class;
  api_key : pyval;
  api_url : pyval;
  proxy : pyval
}.

Inductive composite_class := DeepClaude | OpenAICompatibleComposite.

Record composite := Composite {
  composite_of : composite_class;
  reasoner_instance : instance;
  general_instance : instance;
  is_origin_reasoning : pyval
}.

(** The attributes of a [ModelManager]: the world of its [db_manager], the
    settings read at construction, the instance cache, and the number of
    client objects constructed so far. *)
Record manager := Manager {
  db_manager : state;
  config : pyval;
  model_cache : ModelCache.cache instance;
  constructed : nat
}.

(** A call of a method of [self.db_manager]. *)
Definition call_db {A} (m : M state A) : M manager A := λ mm,
  match m (db_manager mm) with
  | (r, s') => (r, Manager s' (config mm) (model_cache mm) (constructed mm))
  end.

Section Manager.
Variable B : builtins.

(** [ModelManager(db_manager)]: the cache holds at most 5 instances. *)
Definition __init__ (s : state) : manager :=
  match get_all_settings B s with
  | (Ret settings, s') => Manager s' settings (ModelCache.new_cache 5) 0
  | (Raise _, s') => Manager s' PNone (ModelCache.new_cache 5) 0
  end.

(** [get_model_details(model_name, model_type)]: the record and its type. *)
Definition get_model_details (model_name model_type : string)
  : M state (pyval * pyval) :=
  if str_in model_type ["reasoner"; "general"] then
    model <- get_model_for_name model_name ;;
    if negb (truthy model) then raise (ValueError "model does not exist")
    else t <- dict_get model "model_type" PNone ;; ret (model, t)
  else if String.eqb model_type "composite" then
    model <- get_composite_model model_name ;;
    if negb (truthy model) then raise (ValueError "composite model does not exist")
    else ret (model, PStr "composite")
  else
    model <- get_model_for_name model_name ;;
    if negb (truthy model) then
      model <- get_composite_model model_name ;;
      if negb (truthy model) then raise (ValueError "model does not exist")
      else ret (model, PStr "composite")
    else t <- dict_get model "model_type" PNone ;; ret (model, t).

(** [str(provider_id) + "-" + model_format] *)
Definition instance_key (provider_id model_format : pyval) : M manager string :=
  match model_format with
  | PStr f => ret (py_str B provider_id +:+ "-" +:+ f)
  | _ => raise (TypeError "can only concatenate str to str")
  end.

(** [x.bool()]: none of the objects a setting can be has such a method. *)
Definition call_bool (x : pyval) : M manager pyval :=
  raise (AttributeError "object has no attribute 'bool'").

(** [self.config.get("proxy_address") if self.config.get("proxy_open").bool()
    else None] *)
Definition proxy_setting : M manager pyval := λ mm,
  (proxy_open <- dict_get (config mm) "proxy_open" PNone ;;
   enabled <- call_bool proxy_open ;;
   if truthy enabled then dict_get (config mm) "proxy_address" PNone
   else ret PNone) mm.

(** The construction of a client object. *)
Definition construct (c : client_class) (key url prox : pyval) : M manager instance :=
  λ mm,
  (Ret (Instance (constructed mm) c key url prox),
   Manager (db_manager mm) (config mm) (model_cache mm) (S (constructed mm))).

(** [self.model_cache.put(instance_id, instance)] *)
Definition cache_put (k : string) (i : instance) : M manager unit := λ mm,
  match ModelCache.put k i (model_cache mm) with
  | (ModelCache.KeyError, c') =>
      (Raise (KeyError "dictionary is empty"),
       Manager (db_manager mm) (config mm) c' (constructed mm))
  | (_, c') => (Ret tt, Manager (db_manager mm) (config mm) c' (constructed mm))
  end.

(** [self.model_cache.get(instance_id)] *)
Definition cache_get (k : string) : M manager (option instance) := λ mm,
  match ModelCache.get k (model_cache mm) with
  | (r, c') => (Ret r, Manager (db_manager mm) (config mm) c' (constructed mm))
  end.

(** The three branches of [create_instance] differ in the class only: the
    keyword arguments are evaluated in the order written, then the object is
    constructed, put in the cache and returned. *)
Definition create_client (c : client_class) (instance_id : string) (provider : pyval)
  : M manager instance :=
  key <- subscript provider "api_key" ;;
  url <- subscript provider "api_url" ;;
  prox <- proxy_setting ;;
  i <- construct c key url prox ;;
  cache_put instance_id i ;;
  ret i.

Definition create_instance (provider_id model_format : pyval) : M manager instance :=
  instance_id <- instance_key provider_id model_format ;;
  provider <- call_db (get_provider_for_id provider_id) ;;
  match model_format with
  | PStr "openai" => create_client OpenAICompatibleClient instance_id provider
  | PStr "anthropic" => create_client ClaudeClient instance_id provider
  | PStr "reasoner" => create_client DeepSeekClient instance_id provider
  | _ => raise (ValueError "unsupported provider format")
  end.

(** The resolution of one instance in [composite_model]: the key, the cache
    lookup, and [create_instance] on a miss. *)
Definition resolve_instance (model : pyval) : M manager instance :=
  provider_id <- dict_get model "provider_id" PNone ;;
  model_format <- dict_get model "model_format" PNone ;;
  instance_id <- instance_key provider_id model_format ;;
  cached <- cache_get instance_id ;;
  match cached with
  | Some i => ret i
  | None => create_instance provider_id model_format
  end.

Definition is_str (v : pyval) (s : string) : bool :=
  match v with PStr x => String.eqb x s | _ => false end.

Definition composite_model (model_details : pyval) : M manager composite :=
  reasoner_model_id <- dict_get model_details "reasoner_model_id" PNone ;;
  general_model_id <- dict_get model_details "general_model_id" PNone ;;
  reasoner_model <- call_db (get_model_for_id reasoner_model_id) ;;
  general_model <- call_db (get_model_for_id general_model_id) ;;
  reasoner <- resolve_instance reasoner_model ;;
  general <- resolve_instance general_model ;;
  reasoner_model_format <- dict_get reasoner_model "model_format" PNone ;;
  general_model_format <- dict_get general_model "model_format" PNone ;;
  if is_str reasoner_model_format "reasoner" && is_str general_model_format "anthropic"
  then
    origin <- dict_get reasoner_model "is_origin_reasoning" (PBool true) ;;
    ret (Composite DeepClaude reasoner general origin)
  else if is_str reasoner_model_format "reasoner" && is_str general_model_format "openai"
  then
    origin <- dict_get reasoner_model "is_origin_reasoning" (PBool true) ;;
    ret (Composite OpenAICompatibleComposite reasoner general origin)
  else raise (ValueError "unsupported composite model format").

End Manager.

(** *** Request parameters *)

(** [sub in s] for two strings: [sub] occurs in [s]. *)
Fixpoint str_contains (sub s : string) : bool :=
  String.prefix sub s ||
  match s with
  | EmptyString => false
  | String _ r => str_contains sub r
  end.

(** ["sonnet" in model]: a substring of a string, an element of a list, a
    key of a dictionary; any other object is not iterable. *)
Definition sonnet_in (model : pyval) : M manager bool :=
  match model with
  | PStr s => ret (str_contains "sonnet" s)
  | PList l => ret (existsb (λ v, is_str v "sonnet") l)
  | PDict d => ret (existsb (String.eqb "sonnet") d.*1)
  | _ => raise (TypeError "argument is not iterable")
  end.

(** The float [1.0]. *)
Definition float_one : spec_float := S754_finite false 4503599627370496 (-52).

(** [t < 0.0] and [t > 1.0] for an integer, a boolean or a float; an integer
    is compared by its exact value, [True] and [False] are 1 and 0. *)
Definition below_zero (t : pyval) : bool :=
  match t with
  | PInt z => (z <? 0)%Z
  | PFloat x => SFltb x (S754_zero false)
  | _ => false
  end.

Definition above_one (t : pyval) : bool :=
  match t with
  | PInt z => (1 <? z)%Z
  | PFloat x => SFltb float_one x
  | _ => false
  end.

(** [validate_and_prepare_params(body)]: the messages, the model, the
    declared type, the model arguments and the stream flag. *)
Definition validate_and_prepare_params (body : pyval)
  : M manager (pyval * pyval * pyval * pyval * pyval) :=
  messages <- dict_get body "messages" PNone ;;
  model <- dict_get body "model" PNone ;;
  if negb (truthy model) then raise (ValueError "必须指定模型名称")
  else if negb (truthy messages) then raise (ValueError "消息列表不能为空")
  else
    temperature <- dict_get body "temperature" PNone ;;
    top_p <- dict_get body "top_p" PNone ;;
    presence_penalty <- dict_get body "presence_penalty" PNone ;;
    frequency_penalty <- dict_get body "frequency_penalty" PNone ;;
    let model_args :=
      PDict [ ("temperature", temperature); ("top_p", top_p);
              ("presence_penalty", presence_penalty);
              ("frequency_penalty", frequency_penalty) ] in
    stream <- dict_get body "stream" (PBool false) ;;
    model_type <- dict_get body "model_type" (PStr "") ;;
    sonnet <- sonnet_in model ;;
    if sonnet &&
       (negb (isinstance_float temperature || isinstance_int temperature)
        || below_zero temperature || above_one temperature)
    then raise (ValueError "Sonnet 设定 temperature 必须在 0 到 1 之间")
    else ret (messages, model, model_type, model_args, stream).

(** *** The model list *)

(** The entry of [get_model_list] for one model. *)
Definition model_entry (model_id : string) : pyval :=
  PDict
    [ ("id", PStr model_id);
      ("object", PStr "model");
      ("created", PInt 1740268800);
      ("owned_by", PStr "deepclaude");
      ("permission", PDict
         [ ("id", PStr ("modelperm-" +:+ model_id));
           ("object", PStr "model_permission");
           ("created", PInt 1740268800);
           ("allow_create_engine", PBool false);
           ("allow_sampling", PBool true);
           ("allow_logprobs", PBool true);
           ("allow_search_indices", PBool false);
           ("allow_view", PBool true);
           ("allow_fine_tuning", PBool false);
           ("organization", PStr "*");
           ("group", PNone);
           ("is_blocking", PBool false) ]);
      ("root", PStr "deepclaude");
      ("parent", PNone) ].

(** The body of the loop of [get_model_list]: [model_id, config] is the
    item [kv]. *)
Definition list_model (models : list pyval) (kv : string * pyval)
  : M manager (list pyval) :=
  valid <- dict_get kv.2 "is_valid" (PBool false) ;;
  if truthy valid then ret (models ++ [model_entry kv.1]) else ret models.

(** [get_model_list()]: the entries of [self.config["composite_models"]]
    whose [is_valid] is true. *)
Definition get_model_list : M manager (list pyval) := λ mm,
  (composite_models <- dict_get (config mm) "composite_models" (PDict []) ;;
   items <- dict_items composite_models ;;
   for_each items [] list_model) mm.

(** *** Reloading and replacing the configuration *)

(** The attributes of a [ModelManager] object: the three that [__init__]
    assigns and the methods of the class. *)
Definition attributes : list string :=
  [ "db_manager"; "config"; "model_cache"; "__init__"; "get_system_config";
    "get_model_details"; "validate_and_prepare_params"; "get_model_list";
    "composite_model"; "create_instance"; "process_request"; "get_config";
    "update_config" ].

(** [self.name] *)
Definition getattr (name : string) : M manager unit :=
  if str_in name attributes then ret tt
  else raise (AttributeError ("'ModelManager' object has no attribute '" +:+ name +:+ "'")).

(** [self.config = config] *)
Definition set_config (c : pyval) : M manager unit := λ mm,
  (Ret tt, Manager (db_manager mm) c (model_cache mm) (constructed mm)).

(** [self.model_cache.clear()] *)
Definition cache_clear : M manager unit := λ mm,
  (Ret tt, Manager (db_manager mm) (config mm) (ModelCache.clear (model_cache mm))
                   (constructed mm)).

Definition isinstance_dict (v : pyval) : bool :=
  match v with PDict _ => true | _ => false end.

Section ConfigFile.
(** The file operations are taken as given: the call of the loader found
    under [self._load_config], and the writing of a configuration as JSON to
    the file opened at a path. *)
Variable load_config : M manager pyval.
Variable write_json : pyval → M manager unit.

(** [get_config()] *)
Definition get_config : M manager pyval :=
  getattr "_load_config" ;;
  c <- load_config ;;
  set_config c ;;
  λ mm, (Ret (config mm), mm).

(** [update_config(config)] *)
Definition update_config (c : pyval) : M manager unit :=
  if negb (isinstance_dict c) then raise (ValueError "配置必须是字典")
  else
    set_config c ;;
    cache_clear ;;
    getattr "config_path" ;;
    write_json c.

End ConfigFile.

End ModelManager.

(** ** [app/singlemodel/single_model.py]: class [SingleModel] *)

Module SingleModel.
Import Py.
Local Open Scope py_scope.

(** The vendor clients. *)
Inductive client_class := OpenAICompatibleClient | ClaudeClient | DeepSeekClient.

(** The attributes of a [SingleModel]. *)
Record single_model := Single {
  api_key : pyval;
  api_url : pyval;
  model_type : string;
  proxy : pyval;
  client : client_class
}.

(** [SingleModel(api_key, api_url, model_type, proxy)] *)
Definition __init__ (key url : pyval) (type : string) (prox : pyval)
  : outcome single_model :=
  if String.eqb type "openai" then Ret (Single key url type prox OpenAICompatibleClient)
  else if String.eqb type "anthropic" then Ret (Single key url type prox ClaudeClient)
  else if String.eqb type "deepseek" then Ret (Single key url type prox DeepSeekClient)
  else Raise (ValueError "unsupported model type").

(** The collaborators of the response assembler, taken as given: the
    tokenizer ([tiktoken]) and the [chat_completion] call of the vendor
    client, with its keyword arguments.  Each of them returns or raises. *)
Record collaborators := Collaborators {
  encoding_for_model : string → outcome unit;
  encode : pyval → outcome (list nat);
  chat_completion :
    client_class → pyval → pyval → list (string * pyval) → outcome pyval
}.

(** [a, b, c, d = model_arg]: a sequence of four objects, the four keys of a
    dictionary, or the four characters of a string. *)
Definition unpack4 (v : pyval) : outcome (pyval * pyval * pyval * pyval) :=
  match v with
  | PList [a; b; c; d] => Ret (a, b, c, d)
  | PDict [(a, _); (b, _); (c, _); (d, _)] => Ret (PStr a, PStr b, PStr c, PStr d)
  | PStr (String a (String b (String c (String d EmptyString)))) =>
      Ret (PStr (String a EmptyString), PStr (String b EmptyString),
           PStr (String c EmptyString), PStr (String d EmptyString))
  | PList _ | PDict _ | PStr _ => Raise (ValueError "wrong number of values to unpack")
  | _ => Raise (TypeError "cannot unpack non-iterable object")
  end.

(** The elements [for message in messages] goes through. *)
Definition iterate (v : pyval) : outcome (list pyval) :=
  match v with
  | PList l => Ret l
  | PDict d => Ret (PStr <$> d.*1)
  | PStr s => Ret ((λ a, PStr (String a EmptyString)) <$> list_ascii_of_string s)
  | _ => Raise (TypeError "object is not iterable")
  end.

Definition newline : string := String (ascii_of_nat 10) EmptyString.

(** [sep.join(parts)]: every part must be a string. *)
Fixpoint join (sep : string) (parts : list pyval) : outcome string :=
  match parts with
  | [] => Ret EmptyString
  | p :: rest =>
      match p with
      | PStr s =>
          match rest with
          | [] => Ret s
          | _ :: _ =>
              match join sep rest with
              | Ret t => Ret (s +:+ sep +:+ t)
              | Raise e => Raise e
              end
          end
      | _ => Raise (TypeError "sequence item: expected str instance")
      end
  end.

(** [hex(n)[2:]] *)
Definition hex_digits (n : N) : string :=
  HexadecimalString.NilZero.string_of_uint (N.to_hex_uint n).

(** The fields of a response the properties speak of:
    [choices[0].finish_reason], [choices[0].message.content] and the three
    counts of [usage]. *)
Definition finish_reason (r : pyval) : option pyval :=
  (item "choices" r ≫= index 0) ≫= item "finish_reason".

Definition message_content (r : pyval) : option pyval :=
  ((item "choices" r ≫= index 0) ≫= item "message") ≫= item "content".

Definition usage (field : string) (r : pyval) : option pyval :=
  item "usage" r ≫= item field.

Section Assembler.
Variable C : collaborators.

Definition lift {A} (r : outcome A) : M unit A := λ s, (r, s).

(** The call of the vendor client, by model type; for another type no
    branch assigns [response_content]. *)
Definition call_client (self : single_model) (messages model : pyval)
    (temperature top_p presence_penalty frequency_penalty : pyval)
  : M unit (option pyval) :=
  if String.eqb (model_type self) "openai" then
    r <- lift (chat_completion C (client self) messages model
                 [("temperature", temperature); ("top_p", top_p);
                  ("presence_penalty", presence_penalty);
                  ("frequency_penalty", frequency_penalty)]) ;;
    ret (Some r)
  else if String.eqb (model_type self) "anthropic" then
    r <- lift (chat_completion C (client self) messages model
                 [("temperature", temperature); ("top_p", top_p)]) ;;
    ret (Some r)
  else if String.eqb (model_type self) "deepseek" then
    r <- lift (chat_completion C (client self) messages model []) ;;
    ret (Some r)
  else ret None.

(** The text whose tokens are counted as the prompt. *)
Definition token_content (messages : pyval) : M unit string :=
  msgs <- lift (iterate messages) ;;
  contents <- for_each msgs [] (λ acc message,
                c <- dict_get message "content" (PStr "") ;; ret (acc ++ [c])) ;;
  lift (join newline contents).

(** The [response] of the [try] block. *)
Definition response (chat_id : string) (created_time : N) (model : pyval)
    (input_tokens output_tokens : list nat) (response_content : pyval) : pyval :=
  PDict
    [ ("id", PStr chat_id);
      ("object", PStr "chat.completion");
      ("created", PInt (Z.of_N created_time));
      ("model", model);
      ("usage", PDict
         [ ("prompt_tokens", PInt (Z.of_nat (length input_tokens)));
           ("completion_tokens", PInt (Z.of_nat (length output_tokens)));
           ("total_tokens",
            PInt (Z.of_nat (length input_tokens) + Z.of_nat (length output_tokens))) ]);
      ("choices", PList
         [ PDict [ ("message", PDict [ ("role", PStr "assistant");
                                        ("content", response_content) ]);
                   ("index", PInt 0);
                   ("finish_reason", PStr "stop") ] ]) ].

(** The body of the [try] block. *)
Definition assemble (self : single_model) (messages model : pyval)
    (temperature top_p presence_penalty frequency_penalty : pyval)
    (chat_id : string) (created_time : N) : M unit pyval :=
  text <- token_content messages ;;
  lift (encoding_for_model C "gpt-4o") ;;
  input_tokens <- lift (encode C (PStr text)) ;;
  content <- call_client self messages model temperature top_p presence_penalty
                         frequency_penalty ;;
  response_content <-
    match content with
    | Some r => ret r
    | None => raise (UnboundLocalError "response_content")
    end ;;
  output_tokens <- lift (encode C response_content) ;;
  ret (response chat_id created_time model input_tokens output_tokens
                response_content).

(** The response returned by the [except] clause. *)
Definition error_response (e : exn) (model : pyval) (chat_id : string)
    (created_time : N) : pyval :=
  PDict
    [ ("id", PStr chat_id);
      ("object", PStr "chat.completion");
      ("created", PInt (Z.of_N created_time));
      ("model", model);
      ("error", PStr (exn_str e));
      ("choices", PList
         [ PDict [ ("message",
                    PDict [ ("role", PStr "assistant");
                            ("content", PStr ("处理请求时发生错误: " +:+ exn_str e)) ]);
                   ("index", PInt 0);
                   ("finish_reason", PStr "error") ] ]) ].

(** [chat_completions_without_stream(messages, model_arg, model)];
    [now_ms] and [now_s] are the readings [int(time.time() * 1000)] and
    [int(time.time())]. *)
Definition chat_completions_without_stream (self : single_model)
    (messages model_arg model : pyval) (now_ms now_s : N) : outcome pyval :=
  let chat_id := "chatcmpl-" +:+ hex_digits now_ms in
  let created_time := now_s in
  match unpack4 model_arg with
  | Raise e => Raise e
  | Ret (temperature, top_p, presence_penalty, frequency_penalty) =>
      (try_except
         (assemble self messages model temperature top_p presence_penalty
                   frequency_penalty chat_id created_time)
         (λ e, ret (error_response e model chat_id created_time)) tt).1
  end.

End Assembler.

(** *** The streaming generator *)

(** The collaborators of the streaming generator, taken as given:
    [stream_chat] of the vendor client with its further arguments (a
    positional argument is listed under the empty name), as the items the
    asynchronous iteration yields and the exception that ends it, if any;
    and [json.dumps] with its default arguments, whose text is ASCII. *)
Record stream_collaborators := StreamCollaborators {
  stream_chat :
    client_class → pyval → pyval → list (string * pyval) → list pyval * option exn;
  dumps : pyval → outcome string
}.

(** [output_queue]: the items put and not yet taken, oldest first; [None] is
    the end mark. *)
Definition queue := list (option string).

(** What iterating the generator to its end gives: the items yielded when it
    finishes; the items yielded before it waits for ever on the queue; the
    exception it raises. *)
Inductive generated :=
| Finished (out : list string)
| Blocked (out : list string)
| Failed (e : exn).

(** [content_type, content = item] *)
Definition unpack2 (v : pyval) : outcome (pyval * pyval) :=
  match v with
  | PList [a; b] => Ret (a, b)
  | PDict [(a, _); (b, _)] => Ret (PStr a, PStr b)
  | PStr (String a (String b EmptyString)) =>
      Ret (PStr (String a EmptyString), PStr (String b EmptyString))
  | PList _ | PDict _ | PStr _ => Raise (ValueError "wrong number of values to unpack")
  | _ => Raise (TypeError "cannot unpack non-iterable object")
  end.

(** The response built for one piece of content. *)
Definition chunk (chat_id : string) (created_time : N) (model content : pyval) : pyval :=
  PDict
    [ ("id", PStr chat_id);
      ("object", PStr "chat.completion.chunk");
      ("created", PInt (Z.of_N created_time));
      ("model", model);
      ("choices", PList
         [ PDict [ ("index", PInt 0);
                   ("delta", PDict [ ("role", PStr "assistant");
                                     ("content", content) ]) ] ]) ].

(** The bytes of [f"data: {text}\n\n"]. *)
Definition frame (text : string) : string :=
  "data: " +:+ text +:+ newline +:+ newline.

Definition done_mark : string := "data: [DONE]" +:+ newline +:+ newline.

(** [await output_queue.put(item)] *)
Definition put (item : option string) : M queue unit := λ q, (Ret tt, q ++ [item]).

(** The consumer: [while True: item = await output_queue.get()], leaving the
    loop at the end mark.  The flag tells whether the end mark was found;
    without it the consumer waits for ever. *)
Fixpoint drain (q : queue) : list string * bool :=
  match q with
  | [] => ([], false)
  | None :: _ => ([], true)
  | Some item :: rest => let (out, ended) := drain rest in (item :: out, ended)
  end.

Section Streamer.
Variable C : stream_collaborators.

(** [await output_queue.put(f"data: {json.dumps(response)}\n\n".encode("utf-8"))] *)
Definition emit (chat_id : string) (created_time : N) (model content : pyval)
  : M queue unit :=
  text <- (λ q, (dumps C (chunk chat_id created_time model content), q)) ;;
  put (Some (frame text)).

(** [async for x in stream: body(x)] *)
Definition async_for (stream : list pyval * option exn) (body : pyval → M queue unit)
  : M queue unit :=
  for_each stream.1 tt (λ _ x, body x) ;;
  match stream.2 with
  | Some e => raise e
  | None => ret tt
  end.

Definition is_content (content_type : pyval) : bool :=
  match content_type with PStr s => String.eqb s "content" | _ => false end.

(** The content relayed for one item of a DeepSeek stream: the second
    component of a pair whose first component is ["content"]. *)
Definition content_of (item : pyval) : option pyval :=
  match unpack2 item with
  | Ret (content_type, content) => if is_content content_type then Some content else None
  | Raise _ => None
  end.

(** The [try] block of [process_stream]. *)
Definition relay (self : single_model) (messages model : pyval)
    (temperature top_p presence_penalty frequency_penalty : pyval)
    (chat_id : string) (created_time : N) : M queue unit :=
  if String.eqb (model_type self) "openai" then
    async_for (stream_chat C (client self) messages model
                 [("temperature", temperature); ("top_p", top_p);
                  ("presence_penalty", presence_penalty);
                  ("frequency_penalty", frequency_penalty)])
              (emit chat_id created_time model)
  else if String.eqb (model_type self) "anthropic" then
    async_for (stream_chat C (client self) messages model
                 [("temperature", temperature); ("top_p", top_p)])
              (emit chat_id created_time model)
  else if String.eqb (model_type self) "deepseek" then
    async_for (stream_chat C (client self) messages model [("", PBool false)])
              (λ item,
                 pair <- (λ q, (unpack2 item, q)) ;;
                 if is_content pair.1 then emit chat_id created_time model pair.2
                 else ret tt)
  else ret tt.

(** [process_stream()]: the [try] block, whose exceptions are logged, then
    the end mark. *)
Definition process_stream (self : single_model) (messages model : pyval)
    (temperature top_p presence_penalty frequency_penalty : pyval)
    (chat_id : string) (created_time : N) : M queue unit :=
  try_except
    (relay self messages model temperature top_p presence_penalty frequency_penalty
           chat_id created_time)
    (λ e, ret tt) ;;
  put None.

(** [chat_completions_with_stream(messages, model_arg, model)], iterated to
    its end: the task fills the queue, the generator yields what it takes
    from it up to the end mark, then the closing item. *)
Definition chat_completions_with_stream (self : single_model)
    (messages model_arg model : pyval) (now_ms now_s : N) : generated :=
  let chat_id := "chatcmpl-" +:+ hex_digits now_ms in
  let created_time := now_s in
  match unpack4 model_arg with
  | Raise e => Failed e
  | Ret (temperature, top_p, presence_penalty, frequency_penalty) =>
      let q := (process_stream self messages model temperature top_p
                               presence_penalty frequency_penalty
                               chat_id created_time []).2 in
      let (out, ended) := drain q in
      if ended then Finished (out ++ [done_mark]) else Blocked out
  end.

End Streamer.

End SingleModel.

(** ** [app/utils/auth.py]: [verify_api_key] *)

Module Auth.

(** A Python string is handled here as the list of the bytes of its UTF-8
    encoding: two strings are equal when their bytes are, and an ASCII
    substring occurs in a string where its bytes occur. *)
Definition bytes := list ascii.

Definition utf8 (codes : list nat) : bytes := ascii_of_nat <$> codes.

(** [l.startswith(w)] *)
Fixpoint starts_with (w l : bytes) : bool :=
  match w, l with
  | [], _ => true
  | _ :: _, [] => false
  | a :: w', b :: l' => if Ascii.eqb a b then starts_with w' l' else false
  end.

(** [s.replace(old, "")] for a non-empty [old]: the occurrences are found
    from the left and do not overlap.  [skip] counts the characters of the
    occurrence just found that are still to be dropped. *)
Fixpoint remove_from (old : bytes) (skip : nat) (s : bytes) : bytes :=
  match s with
  | [] => []
  | a :: r =>
      match skip with
      | S k => remove_from old k r
      | O =>
          if starts_with old s then remove_from old (length old - 1) r
          else a :: remove_from old 0 r
      end
  end.

(** The characters that [str.strip()] removes: those whose bidirectional
    class is WS, B or S or whose category is Zs, in UTF-8: U+0009 to
    U+000D, U+001C to U+001F, U+0020, U+0085, U+00A0, U+1680, U+2000 to
    U+200A, U+2028, U+2029, U+202F, U+205F and U+3000. *)
Definition whitespace : list bytes :=
  utf8 <$>
  [ [9]; [10]; [11]; [12]; [13]; [28]; [29]; [30]; [31]; [32];
    [194; 133]; [194; 160]; [225; 154; 128];
    [226; 128; 128]; [226; 128; 129]; [226; 128; 130]; [226; 128; 131];
    [226; 128; 132]; [226; 128; 133]; [226; 128; 134]; [226; 128; 135];
    [226; 128; 136]; [226; 128; 137]; [226; 128; 138];
    [226; 128; 168]; [226; 128; 169]; [226; 128; 175];
    [226; 129; 159]; [227; 128; 128] ].

(** What follows the first character of [s] when it is one of [ws]. *)
Fixpoint after_one (ws : list bytes) (s : bytes) : option bytes :=
  match ws with
  | [] => None
  | w :: rest => if starts_with w s then Some (drop (length w) s) else after_one rest s
  end.

(** The characters of [ws] removed from the front, at most [n] of them. *)
Fixpoint strip_front (ws : list bytes) (n : nat) (s : bytes) : bytes :=
  match n with
  | O => s
  | S k =>
      match after_one ws s with
      | Some r => strip_front ws k r
      | None => s
      end
  end.

Definition lstrip (s : bytes) : bytes := strip_front whitespace (length s) s.

(** From the end: the same on the reversed string, with the encodings
    reversed. *)
Definition rstrip (s : bytes) : bytes :=
  reverse (strip_front (reverse <$> whitespace) (length s) (reverse s)).

(** [s.strip()] *)
Definition strip (s : bytes) : bytes := rstrip (lstrip s).

(** Whether the string begins, or ends, with a whitespace character. *)
Definition space_before (s : bytes) : bool :=
  match after_one whitespace s with Some _ => true | None => false end.

Definition space_after (s : bytes) : bool :=
  match after_one (reverse <$> whitespace) (reverse s) with
  | Some _ => true
  | None => false
  end.

Definition bearer : bytes := list_ascii_of_string "Bearer ".

(** How the check ends: it returns, or it raises [HTTPException] with the
    status 401 and the given detail. *)
Inductive verdict :=
| Accepted
| Unauthorized (detail : string).

(** [verify_api_key(current_api_key, authorization)] *)
Definition verify_api_key (current_api_key : string) (authorization : option string)
  : verdict :=
  match authorization with
  | None => Unauthorized "Missing Authorization header"
  | Some header =>
      let api_key := strip (remove_from bearer 0 (list_ascii_of_string header)) in
      if bool_decide (api_key ≠ list_ascii_of_string current_api_key)
      then Unauthorized "Invalid API key"
      else Accepted
  end.

End Auth.

(** ** Inputs used in the examples *)

Module Examples.
Import Py Sqlite DbConn DBManagerPool.

(** Library functions for runs in which no float and no JSON text occurs:
    every conversion fails. *)
Definition plain : builtins :=
  Builtins (λ _, "nan") (λ _, None) (λ _, None) (λ _, None) (λ _, "[]")
           (λ _, None) (λ _, None).

(** The world after the first start on an empty datastore: the four tables
    created, the default settings seeded. *)
Definition fresh : state := (_init_db (quiet empty_database)).2.

Definition provider_p1 : pyval :=
  PDict [ ("provider_name", PStr "p1"); ("api_key", PStr "sk-1");
          ("api_base_url", PStr "https://api.example.com");
          ("api_request_address", PStr "/v1/chat/completions");
          ("provider_format", PStr "openai") ].

(** The world after [save_provider(provider_p1)]. *)
Definition with_p1 : state := (save_provider provider_p1 fresh).2.

Definition model_m1 : pyval :=
  PDict [ ("model_name", PStr "m1"); ("model_id", PStr "gpt-4o");
          ("provider_id", PInt 1); ("is_valid", PBool true);
          ("model_type", PStr "general"); ("model_format", PStr "openai") ].

(** Stored rows. *)
Definition provider_row (id : Z) (name : string) (valid : Z) : row :=
  [ ("id", SInt id); ("provider_name", SText name); ("api_key", SText "sk-1");
    ("api_base_url", SText "https://api.example.com");
    ("api_request_address", SText "/v1/chat/completions");
    ("provider_format", SText "openai"); ("is_valid", SInt valid) ].

Definition model_row (id : Z) (name : string) (valid : Z) : row :=
  [ ("id", SInt id); ("provider_id", SInt 1); ("model_type", SText "general");
    ("model_id", SText "gpt-4o"); ("model_name", SText name);
    ("model_format", SText "openai"); ("is_valid", SInt valid);
    ("is_origin_reasoning", SInt 0) ].

Definition composite_row (id : Z) (name : string) (valid : Z) : row :=
  [ ("id", SInt id); ("model_name", SText name); ("reasoner_model_id", SInt 1);
    ("general_model_id", SInt 2); ("is_valid", SInt valid) ].

(** A world with the given rows in the three tables and no setting. *)
Definition world (ps ms cs : list row) : state :=
  quiet (Database (Some (Table ps 10)) (Some (Table ms 10)) (Some (Table cs 10))
                  (Some (Table [] 0))).

(** A vendor client whose call fails, with a tokenizer that counts one token
    per character. *)
Definition failing_client : SingleModel.collaborators :=
  SingleModel.Collaborators
    (λ _, Ret tt)
    (λ v, match v with
          | PStr s => Ret (nat_of_ascii <$> list_ascii_of_string s)
          | _ => Raise (TypeError "expected string")
          end)
    (λ _ _ _ _, Raise (OtherError "upstream timeout")).

(** A vendor client that answers, with the same tokenizer. *)
Definition healthy_client : SingleModel.collaborators :=
  SingleModel.Collaborators
    (λ _, Ret tt)
    (λ v, match v with
          | PStr s => Ret (nat_of_ascii <$> list_ascii_of_string s)
          | _ => Raise (TypeError "expected string")
          end)
    (λ _ _ _ _, Ret (PStr "Hi!")).

Definition openai_model : SingleModel.single_model :=
  SingleModel.Single (PStr "sk-1") (PStr "https://api.example.com") "openai" PNone
                     SingleModel.OpenAICompatibleClient.

Definition hello : pyval :=
  PList [PDict [("role", PStr "user"); ("content", PStr "hello")]].

(** A manager constructed on the world after the first start. *)
Definition manager0 : ModelManager.manager := ModelManager.__init__ plain fresh.

(** A request for a model of the Sonnet family, with further keys. *)
Definition sonnet_request (more : list (string * pyval)) : pyval :=
  PDict ([ ("model", PStr "claude-3-5-sonnet"); ("messages", hello) ] ++ more).

(** A vendor stream that yields two pieces of text and then breaks, with a
    serializer that gives the content of a chunk when it is a string. *)
Definition breaking_stream : SingleModel.stream_collaborators :=
  SingleModel.StreamCollaborators
    (λ _ _ _ _, ([PStr "Hel"; PStr "lo"], Some (OtherError "connection reset")))
    (λ v, match ((((item "choices" v ≫= index 0) ≫= item "delta")) ≫= item "content") with
          | Some (PStr s) => Ret s
          | _ => Raise (TypeError "Object is not JSON serializable")
          end).

(** A DeepSeek stream of two pieces of reasoning and one of content. *)
Definition reasoning_stream : SingleModel.stream_collaborators :=
  SingleModel.StreamCollaborators
    (λ _ _ _ _, ([ PList [PStr "reasoning"; PStr "hmm"];
                   PList [PStr "reasoning"; PStr "so"];
                   PList [PStr "content"; PStr "42"] ], None))
    (λ v, match ((((item "choices" v ≫= index 0) ≫= item "delta")) ≫= item "content") with
          | Some (PStr s) => Ret s
          | _ => Raise (TypeError "Object is not JSON serializable")
          end).

Definition deepseek_model : SingleModel.single_model :=
  SingleModel.Single (PStr "sk-1") (PStr "https://api.example.com") "deepseek" PNone
                     SingleModel.DeepSeekClient.

(** A configuration with the identifier of no stored provider. *)
Definition provider_ghost : pyval :=
  PDict [ ("id", PInt 5); ("provider_name", PStr "ghost"); ("api_key", PStr "sk-5");
          ("api_base_url", PStr "https://ghost.example.com");
          ("api_request_address", PStr "/v1"); ("provider_format", PStr "openai") ].

End Examples.

(* ===================================================================== *)
(** * Part II: properties                                                  *)
(* ===================================================================== *)


Module DbPoolSpec.
Import DbPool.

Example init_3 :
  let st := _initialize_pool (λ _, true) 0%Z 3 in
  pool st = [0; 1; 2] ∧ available st = [0; 1; 2].
Proof. split; reflexivity. Qed.

(** When a connection fails to open, the slots of the later connections
    are numbered past the end of [pool], and [get_connection] fails on
    them. *)
Example init_first_fails :
  let st := _initialize_pool (λ i, negb (i =? 0)%nat) 0%Z 2 in
  pool st = [1] ∧ available st = [1] ∧ (poll 0%Z st).1 = IndexError.
Proof. repeat split; reflexivity. Qed.

(** [get_connection] returns at its first poll when a slot is available,
    and times out, leaving the pool as it is, when none is. *)
Lemma get_connection_poll attempts now st :
  get_connection (S attempts) now st =
  match available st with
  | [] => (NoneAvailable, st)
  | _ :: _ => poll now st
  end.
Proof.
  revert st. induction attempts as [|k IH]; intros st.
  - simpl. unfold poll. destruct (available st); [done|]. by destruct (pool st !! _).
  - change (get_connection (S (S k)) now st)
      with (match poll now st with
            | (NoneAvailable, st') => get_connection (S k) now st'
            | r => r
            end).
    unfold poll at 1. destruct (available st) as [|i rest] eqn:Ha.
    + rewrite IH, Ha. done.
    + unfold poll. rewrite Ha. by destruct (pool st !! i).
Qed.

Lemma opened_slots_S n opened :
  opened_slots (S n) opened =
  opened_slots n opened ++ (if opened n then [n] else []).
Proof.
  unfold opened_slots. rewrite seq_S, filter_app. f_equal. simpl.
  rewrite filter_cons, filter_nil. by destruct (opened n).
Qed.

Lemma init_slots opened now m k :
  initialised k opened (foldl (init_slot opened now) (empty_pool m) (seq 0 k)).
Proof.
  induction k as [|k IH].
  - split; [done|]. split; [done|]. intros i. simpl. by rewrite lookup_empty.
  - rewrite seq_S, foldl_app. simpl. destruct IH as (Hp & Ha & Hu).
    set (st := foldl (init_slot opened now) (empty_pool m) (seq 0 k)) in *.
    unfold initialised, init_slot. rewrite opened_slots_S.
    destruct (opened k) eqn:Hk; simpl.
    + rewrite Hp, Ha. split; [done|]. split; [done|].
      intros i. destruct (decide (i = k)) as [->|Hne].
      * rewrite lookup_insert_eq. rewrite decide_True; [done|]. split; [lia|done].
      * rewrite lookup_insert_ne by done. rewrite Hu.
        repeat case_decide; try done; exfalso;
          match goal with
          | H : ¬ _, H' : _ ∧ _ |- _ => destruct H'; apply H; split; [lia|done]
          end.
    + rewrite app_nil_r. split; [done|]. split; [done|].
      intros i. rewrite Hu. repeat case_decide; try done; exfalso;
        match goal with
        | H : ¬ _, H' : _ ∧ _ |- _ => destruct H' as [? Ho]; apply H
        end;
        (split; [|done]); destruct (decide (i = k)) as [->|]; first [congruence | lia].
Qed.

Lemma elem_of_opened_slots n opened i : i ∈ opened_slots n opened ↔ slot n opened i.
Proof.
  unfold opened_slots, slot. rewrite list_elem_of_filter, elem_of_seq. intuition lia.
Qed.

Lemma NoDup_opened_slots n opened : NoDup (opened_slots n opened).
Proof. apply NoDup_filter, NoDup_seq. Qed.

Lemma initialised_inv n opened st :
  initialised n opened st → pool_inv n opened st ∧ held_inv n opened st [].
Proof.
  intros (Hp & Ha & Hu). split.
  - split; [done|]. split; [rewrite Ha; apply NoDup_opened_slots|]. split.
    + intros i. by rewrite Ha, elem_of_opened_slots.
    + intros i Hi. left. rewrite Ha, elem_of_opened_slots, Hu.
      split; [done|]. by rewrite decide_True.
  - split; [constructor|]. intros c. simpl. split.
    + by intros ?%elem_of_nil.
    + intros (i & Hi & _ & Hin). rewrite Hu, decide_True in Hin; done.
Qed.

(** In a list without repetition, the search finds the position of an
    element. *)
Lemma index_of_lookup (l : list conn) i c :
  NoDup l → l !! i = Some c → index_of c l = Some i.
Proof.
  revert i. induction l as [|x l IH]; intros i Hnd Hl; [done|].
  apply NoDup_cons in Hnd as [Hx Hnd]. simpl. destruct i as [|i]; simpl in Hl.
  - injection Hl as ->. by rewrite bool_decide_eq_true_2.
  - rewrite bool_decide_eq_false_2.
    + by rewrite (IH i Hnd Hl).
    + intros ->. apply Hx. by eapply list_elem_of_lookup_2.
Qed.

Lemma poll_inv n opened now st held who :
  pool_inv n opened st → held_inv n opened st held →
  pool_inv n opened (step (EvPoll who now) (st, held)).1 ∧
  held_inv n opened (step (EvPoll who now) (st, held)).1
                    (step (EvPoll who now) (st, held)).2.
Proof.
  intros (Hp & Hnd & Hlt & Hex) (Hhnd & Hh).
  unfold step, poll. destruct (available st) as [|i rest] eqn:Ha; [simpl|].
  { split; [|done]. rewrite <- Ha in *. unfold pool_inv. tauto. }
  assert (Hi : slot n opened i) by (apply Hlt; left).
  apply NoDup_cons in Hnd as [Hni Hnd].
  destruct (Hex i Hi) as [[_ Hfree]|[Hno _]]; [|by destruct Hno; left].
  assert (Hpool : pool_inv n opened
            (PoolState (max_connections st) (pool st) rest
               (<[i:=true]> (in_use st)) (created_time st)
               (<[i:=now]> (last_used st)))).
  { split; [done|]. split; [done|]. split; [intros j Hj; apply Hlt; by right|].
    intros j Hj. cbn [available in_use]. destruct (decide (j = i)) as [->|Hne].
    + right. by rewrite lookup_insert_eq.
    + rewrite lookup_insert_ne by done.
      destruct (Hex j Hj) as [[Hin Hf]|[Hno Ht]].
      * left. split; [|done]. apply elem_of_cons in Hin as [?|?]; done.
      * right. split; [|done]. intros ?. apply Hno. by right. }
  assert (Hother : ∀ c,
            (∃ j, slot n opened j ∧ pool st !! j = Some c ∧ in_use st !! j = Some true) ↔
            (∃ j, j ≠ i ∧ slot n opened j ∧ pool st !! j = Some c ∧
                  <[i:=true]> (in_use st) !! j = Some true)).
  { intros c. split.
    - intros (j & Hj & Hl & Hu). exists j.
      assert (j ≠ i) by (intros ->; congruence).
      by rewrite lookup_insert_ne.
    - intros (j & Hne & Hj & Hl & Hu). exists j.
      by rewrite lookup_insert_ne in Hu. }
  destruct (pool st !! i) as [c|] eqn:Hl; simpl; (split; [done|]).
  - split.
    + simpl. apply NoDup_cons. split; [|done].
      intros (j & Hj & Hlj & Hu)%Hh.
      assert (j = i); [|subst; congruence].
      eapply NoDup_lookup; [|exact Hlj|exact Hl]. rewrite Hp. apply NoDup_opened_slots.
    + intros c'. simpl. rewrite elem_of_cons, Hh, Hother. split.
      * intros [->|(j & _ & ?)]; [|by exists j].
        exists i. by rewrite lookup_insert_eq.
      * intros (j & Hj & Hlj & Hu). cbn [pool in_use] in Hlj, Hu.
        destruct (decide (j = i)) as [->|Hne].
        -- left. congruence.
        -- right. by exists j.
  - split; [done|]. intros c'. rewrite Hh, Hother. split.
    + intros (j & _ & ?). by exists j.
    + intros (j & Hj & Hlj & Hu). cbn [pool in_use] in Hlj, Hu.
      destruct (decide (j = i)) as [->|Hne]; [congruence|]. by exists j.
Qed.

Lemma filter_held (held : list (caller * conn)) who c :
  NoDup (held.*2) → (who, c) ∈ held →
  NoDup ((filter (λ x, x ≠ (who, c)) held).*2) ∧
  ∀ c', c' ∈ (filter (λ x, x ≠ (who, c)) held).*2 ↔ c' ∈ held.*2 ∧ c' ≠ c.
Proof.
  induction held as [|[a d] held IH]; intros Hnd Hin.
  - by apply elem_of_nil in Hin.
  - simpl in Hnd. apply NoDup_cons in Hnd as [Hd Hnd].
    rewrite filter_cons. case_decide as Hx.
    + apply elem_of_cons in Hin as [Heq|Hin]; [congruence|].
      destruct (IH Hnd Hin) as [IH1 IH2]. simpl. split.
      * apply NoDup_cons. split; [|done]. intros Hd'%IH2. tauto.
      * intros c'. rewrite !elem_of_cons, IH2.
        assert (d ≠ c).
        { intros ->. apply Hd. apply list_elem_of_fmap. by exists (who, c). }
        split; [intros [->|[? ?]]; tauto | tauto].
    + injection Hx as -> ->.
      assert (Hid : filter (λ x, x ≠ (who, c)) held = held).
      { clear IH Hin Hnd. induction held as [|[a d] held IH]; [done|].
        rewrite filter_cons. simpl in Hd. apply not_elem_of_cons in Hd as [? ?].
        case_decide as Hy; [by rewrite IH|].
        congruence. }
      rewrite Hid. split; [done|]. intros c'. simpl. rewrite elem_of_cons.
      split; [intros Hc'; split; [by right|by intros ->] | tauto].
Qed.

Lemma release_inv n opened now st held who c :
  pool_inv n opened st → held_inv n opened st held → (who, c) ∈ held →
  pool_inv n opened (step (EvRelease who c now) (st, held)).1 ∧
  held_inv n opened (step (EvRelease who c now) (st, held)).1
                    (step (EvRelease who c now) (st, held)).2.
Proof.
  intros (Hp & Hnd & Hlt & Hex) (Hhnd & Hh) Hheld.
  assert (Hc : c ∈ held.*2) by (apply list_elem_of_fmap; by exists (who, c)).
  pose proof Hc as Hc'. apply Hh in Hc' as (i & Hi & Hl & Hu).
  assert (Hndp : NoDup (pool st)) by (rewrite Hp; apply NoDup_opened_slots).
  unfold step, release_connection. rewrite (index_of_lookup _ i c Hndp Hl).
  destruct (Hex i Hi) as [[_ Hf]|[Hno _]]; [congruence|].
  rewrite bool_decide_eq_false_2 by done. simpl.
  split.
  - split; [done|]. split.
    { apply NoDup_app. split; [done|]. split; [|apply NoDup_singleton].
      intros x Hx ->%list_elem_of_singleton. done. }
    split.
    { intros j [Hj| ->%list_elem_of_singleton]%elem_of_app; [by apply Hlt|done]. }
    intros j Hj. cbn [available in_use]. destruct (decide (j = i)) as [->|Hne].
    + left. rewrite lookup_insert_eq. split; [|done]. apply elem_of_app. right. by left.
    + rewrite lookup_insert_ne by done.
      destruct (Hex j Hj) as [[Hin Hf]|[Hno' Ht]].
      * left. split; [|done]. apply elem_of_app. by left.
      * right. split; [|done].
        intros [?|?%list_elem_of_singleton]%elem_of_app; done.
  - destruct (filter_held held who c Hhnd Hheld) as [Hf1 Hf2].
    split; [done|]. intros c'. rewrite Hf2, Hh. cbn [in_use pool]. split.
    + intros [(j & Hj & Hlj & Huj) Hne]. exists j.
      assert (j ≠ i) by (intros ->; congruence).
      by rewrite lookup_insert_ne.
    + intros (j & Hj & Hlj & Huj).
      assert (Hji : j ≠ i) by (intros ->; rewrite lookup_insert_eq in Huj; congruence).
      rewrite lookup_insert_ne in Huj by done. split; [by exists j|].
      intros ->. apply Hji. cbn [pool] in Hlj.
      exact (NoDup_lookup (pool st) j i c Hndp Hlj Hl).
Qed.

Lemma step_inv n opened ev st held :
  pool_inv n opened st → held_inv n opened st held →
  match ev with EvPoll _ _ => True | EvRelease who c _ => (who, c) ∈ held end →
  pool_inv n opened (step ev (st, held)).1 ∧
  held_inv n opened (step ev (st, held)).1 (step ev (st, held)).2.
Proof.
  destruct ev; intros; [by apply poll_inv | by apply release_inv].
Qed.

Lemma run_inv n opened tr st held :
  pool_inv n opened st → held_inv n opened st held → disciplined tr (st, held) →
  pool_inv n opened (run tr (st, held)).1 ∧
  held_inv n opened (run tr (st, held)).1 (run tr (st, held)).2.
Proof.
  revert st held. induction tr as [|ev tr IH]; intros st held Hp Hh Hd; [done|].
  destruct Hd as [Hev Hd].
  change (run (ev :: tr) (st, held)) with (run tr (step ev (st, held))).
  destruct (step_inv n opened ev st held Hp Hh Hev) as [Hp' Hh'].
  destruct (step ev (st, held)) as [st' held'] eqn:Hs. by apply IH.
Qed.

Lemma disciplined_prefix tr1 tr2 sh :
  disciplined (tr1 ++ tr2) sh → disciplined tr1 sh.
Proof.
  revert sh. induction tr1 as [|ev tr1 IH]; intros sh; [done|].
  simpl. intros [? ?]. split; [done|by apply IH].
Qed.

Lemma held_length n opened st held :
  pool_inv n opened st → held_inv n opened st held → length held ≤ n.
Proof.
  intros (Hp & _) [Hnd Hh]. rewrite <- (length_fmap snd held).
  transitivity (length (opened_slots n opened)).
  - apply submseteq_length, NoDup_submseteq; [done|].
    intros c (i & _ & Hl & _)%Hh. rewrite <- Hp. by eapply list_elem_of_lookup_2.
  - unfold opened_slots. etransitivity; [apply length_filter|]. by rewrite length_seq.
Qed.

(** C1. In a pool of size [n], whichever of its connections opened, along
    every interleaving of [get_connection] polls and [release_connection]
    calls in which callers release what they hold, at every moment each slot
    is either available (listed in [available], flag clear) or in use (not
    listed, flag set), never both and never neither; no connection is held
    by two callers; the held connections are exactly those stored in the
    in-use slots; and at most [n] are held. *)
Theorem pool_slots_exclusive (n : nat) (opened : nat → bool) (t0 : Z)
    (tr : list event) :
  disciplined tr (_initialize_pool opened t0 n, []) →
  ∀ tr1 tr2, tr = tr1 ++ tr2 →
    let st := (run tr1 (_initialize_pool opened t0 n, [])).1 in
    let held := (run tr1 (_initialize_pool opened t0 n, [])).2 in
    (∀ i, slot n opened i →
       (slot_available st i ∧ ¬ slot_in_use st i) ∨
       (¬ slot_available st i ∧ slot_in_use st i)) ∧
    NoDup (held.*2) ∧
    (∀ c, c ∈ held.*2 ↔
          ∃ i, slot n opened i ∧ pool st !! i = Some c ∧ slot_in_use st i) ∧
    length held ≤ n.
Proof.
  intros Hd tr1 tr2 ->. cbv zeta.
  apply disciplined_prefix in Hd.
  destruct (initialised_inv n opened _ (init_slots opened t0 n n)) as [Hp Hh].
  destruct (run_inv n opened tr1 _ _ Hp Hh Hd) as [Hp' Hh'].
  unfold _initialize_pool.
  destruct (run tr1 _) as [st held]. cbn [fst snd] in *.
  pose proof (held_length _ _ _ _ Hp' Hh') as Hlen.
  destruct Hp' as (Hpool & Hnd & Hlt & Hex). destruct Hh' as [Hhnd Hheld].
  split.
  { intros i Hi. unfold slot_available, slot_in_use.
    destruct (Hex i Hi) as [[? Hf]|[? ?]]; [left|right]; split; try done.
    rewrite Hf. congruence. }
  split; [done|]. split; [|done]. exact Hheld.
Qed.

Lemma pool_slots_exclusive_witness :
  let tr := [EvPoll 7 1%Z; EvPoll 8 2%Z; EvRelease 7 0 3%Z; EvPoll 9 4%Z] in
  let sh := run tr (_initialize_pool (λ _, true) 0%Z 2, []) in
  NoDup (sh.2.*2) ∧ length sh.2 ≤ 2.
Proof.
  intros tr sh.
  assert (Hd : disciplined tr (_initialize_pool (λ _, true) 0%Z 2, [])).
  { vm_compute. repeat split. right. left. }
  destruct (pool_slots_exclusive 2 (λ _, true) 0%Z tr Hd tr []
              (eq_sym (app_nil_r tr))) as (_ & H3 & _ & H5).
  exact (conj H3 H5).
Defined.

(** *** Exhaustion, failed openings and undisciplined callers *)

Lemma acquire_many_results a now (A : list nat) st :
  available st = A →
  (acquire_many (length A) (S a) now st).1 = handed_out st <$> A ∧
  available (acquire_many (length A) (S a) now st).2 = [] ∧
  pool (acquire_many (length A) (S a) now st).2 = pool st.
Proof.
  revert st. induction A as [|i rest IH]; intros st Ha; [done|].
  cbn [length acquire_many]. rewrite get_connection_poll, Ha.
  set (st1 := PoolState (max_connections st) (pool st) rest
                        (<[i := true]> (in_use st)) (created_time st)
                        (<[i := now]> (last_used st))).
  assert (Hp : poll now st = (handed_out st i, st1)).
  { unfold poll, handed_out. rewrite Ha. by destruct (pool st !! i). }
  rewrite Hp. destruct (IH st1 eq_refl) as (Hr & Hav & Hpool).
  destruct (acquire_many (length rest) (S a) now st1) as [rs st2].
  simpl in *. by rewrite Hr.
Qed.

Lemma acquire_many_empty k a now st :
  available st = [] → acquire_many k a now st = (replicate k NoneAvailable, st).
Proof.
  intros Ha. induction k as [|k IH]; [done|]. cbn [acquire_many].
  assert (Hg : get_connection a now st = (NoneAvailable, st)).
  { destruct a as [|a]; [done|]. by rewrite get_connection_poll, Ha. }
  by rewrite Hg, IH.
Qed.

Lemma acquire_many_add c1 c2 a now st :
  acquire_many (c1 + c2) a now st =
  ((acquire_many c1 a now st).1 ++
   (acquire_many c2 a now (acquire_many c1 a now st).2).1,
   (acquire_many c2 a now (acquire_many c1 a now st).2).2).
Proof.
  revert st. induction c1 as [|c1 IH]; intros st.
  - simpl. by destruct (acquire_many c2 a now st).
  - cbn [Nat.add acquire_many]. destruct (get_connection a now st) as [r st1].
    rewrite IH. destruct (acquire_many c1 a now st1) as [rs st2]. simpl.
    by destruct (acquire_many c2 a now st2).
Qed.

Lemma opened_slots_all n : opened_slots n (λ _, true) = seq 0 n.
Proof.
  unfold opened_slots. induction (seq 0 n) as [|x l IH]; [done|].
  rewrite filter_cons, decide_True by done. by rewrite IH.
Qed.

(** X5. In a pool of [n] connections that all opened, [n] calls of
    [get_connection] with no release in between return the [n] connections,
    in the order of their slots, and leave no slot available; every further
    call, whatever its number of polls, times out: it returns [None] and
    leaves the pool as it is. *)
Theorem pool_exhaustion_times_out (n a : nat) (t0 now : Z) :
  let r := acquire_many n (S a) now (_initialize_pool (λ _, true) t0 n) in
  r.1 = Got <$> seq 0 n ∧ available r.2 = [] ∧
  ∀ attempts now', get_connection attempts now' r.2 = (NoneAvailable, r.2).
Proof.
  intros r. destruct (init_slots (λ _, true) t0 n n) as (Hp & Ha & _).
  fold (_initialize_pool (λ _, true) t0 n) in Hp, Ha.
  rewrite opened_slots_all in Hp, Ha.
  destruct (acquire_many_results a now (seq 0 n) _ Ha) as (Hr & Hav & _).
  rewrite length_seq in Hr, Hav. fold r in Hr, Hav. split; [|split; [done|]].
  - rewrite Hr. apply list_fmap_ext. intros i x Hx.
    apply lookup_seq in Hx as [-> Hlt]. unfold handed_out. rewrite Hp.
    by rewrite lookup_seq_lt.
  - intros [|k] now'; [done|]. by rewrite get_connection_poll, Hav.
Qed.

(** Distinct indices below [m], [m] of them, are all the indices below
    [m]. *)
Lemma all_below (A : list nat) (x : nat) :
  NoDup A → (∀ y, y ∈ A → y < length A) → x < length A → x ∈ A.
Proof.
  intros Hnd Hlt Hx.
  assert (Hsub : A ⊆+ seq 0 (length A)).
  { apply NoDup_submseteq; [done|]. intros y Hy. apply elem_of_seq. split; [lia|].
    by apply Hlt. }
  apply submseteq_length_Permutation in Hsub; [|by rewrite length_seq].
  rewrite Hsub. apply elem_of_seq. lia.
Qed.

(** X6. When a connection fails to open at initialisation and a later one
    opens, the slot numbers no longer match the positions in [pool]: among
    [n] successive calls of [get_connection] on the pool as initialised, one
    raises [IndexError]. *)
Theorem failed_opening_breaks_get_connection (n a i j : nat) (opened : nat → bool)
    (t0 now : Z) :
  i < j → j < n → opened i = false → opened j = true →
  IndexError ∈ (acquire_many n (S a) now (_initialize_pool opened t0 n)).1.
Proof.
  intros Hij Hjn Hi Hj.
  destruct (init_slots opened t0 n n) as (Hp & Ha & _).
  fold (_initialize_pool opened t0 n) in Hp, Ha.
  set (st := _initialize_pool opened t0 n) in *.
  set (A := opened_slots n opened) in *.
  assert (Hlen : length A ≤ n).
  { unfold A, opened_slots. etransitivity; [apply length_filter|]. by rewrite length_seq. }
  replace n with (length A + (n - length A)) at 1 by lia.
  rewrite acquire_many_add. cbn [fst]. apply elem_of_app. left.
  destruct (acquire_many_results a now A st Ha) as (-> & _ & _).
  assert (Hex : ∃ x, x ∈ A ∧ length A ≤ x).
  { destruct (decide (length A ≤ j)) as [Hle|Hgt].
    - exists j. split; [|done]. apply elem_of_opened_slots. by split.
    - destruct (decide (Forall (λ y, y < length A) A)) as [Hall|Hnot].
      + exfalso. assert (Hin : i ∈ A).
        { apply all_below; [apply NoDup_opened_slots| |lia].
          by apply list.Forall_forall. }
        apply elem_of_opened_slots in Hin as [_ Hin]. congruence.
      + apply not_Forall_Exists in Hnot; [|apply _].
        apply list.Exists_exists in Hnot as (x & Hx & Hnlt). exists x.
        split; [done|]. simpl in Hnlt. lia. }
  destruct Hex as (x & Hx & Hge). apply list_elem_of_fmap. exists x. split; [|done].
  unfold handed_out. rewrite Hp. fold A. by rewrite lookup_ge_None_2.
Qed.

Lemma failed_opening_breaks_get_connection_witness :
  IndexError ∈
    (acquire_many 3 1 5%Z (_initialize_pool (λ i, negb (i =? 0)%nat) 0%Z 3)).1.
Proof.
  apply (failed_opening_breaks_get_connection 3 0 0 1 (λ i, negb (i =? 0)%nat) 0%Z 5%Z);
    [lia | lia | reflexivity | reflexivity].
Defined.

(** The position the search finds is a position of the list. *)
Lemma index_of_length (c : conn) (l : list conn) i :
  index_of c l = Some i → i < length l.
Proof.
  revert i. induction l as [|x l IH]; intros i Hi; [done|].
  simpl in Hi. case_bool_decide; [injection Hi as <-; simpl; lia|].
  destruct (index_of c l) as [k|]; [|done]. injection Hi as <-.
  specialize (IH k eq_refl). simpl. lia.
Qed.

(** The part of the invariant that needs no discipline of the callers. *)
Lemma step_available n ev (sh : pool_state * list (caller * conn)) :
  length (pool sh.1) ≤ n →
  NoDup (available sh.1) → (∀ i, i ∈ available sh.1 → i < n) →
  pool (step ev sh).1 = pool sh.1 ∧
  NoDup (available (step ev sh).1) ∧ (∀ i, i ∈ available (step ev sh).1 → i < n).
Proof.
  destruct sh as [st held]. cbn [fst]. intros Hlen Hnd Hlt.
  destruct ev as [who now|who c now].
  - unfold step, poll. destruct (available st) as [|i rest] eqn:Ha.
    + cbn [fst]. by rewrite Ha.
    + apply NoDup_cons in Hnd as [_ Hnd].
      destruct (pool st !! i); cbn [fst pool available];
        (split; [done|]); (split; [done|]); intros j Hj; apply Hlt; by right.
  - unfold step, release_connection. cbn [fst].
    destruct (index_of c (pool st)) as [i|] eqn:Hi; [|done]. cbn [pool available].
    split; [done|]. case_bool_decide as Hin; [done|]. split.
    + apply NoDup_app. split; [done|]. split; [|apply NoDup_singleton].
      intros x Hx ->%list_elem_of_singleton. done.
    + intros j [Hj| ->%list_elem_of_singleton]%elem_of_app; [by apply Hlt|].
      apply index_of_length in Hi. lia.
Qed.

Lemma run_available n tr (sh : pool_state * list (caller * conn)) :
  length (pool sh.1) ≤ n →
  NoDup (available sh.1) → (∀ i, i ∈ available sh.1 → i < n) →
  pool (run tr sh).1 = pool sh.1 ∧
  NoDup (available (run tr sh).1) ∧ (∀ i, i ∈ available (run tr sh).1 → i < n).
Proof.
  revert sh. induction tr as [|ev tr IH]; intros sh Hlen Hnd Hlt; [done|].
  change (run (ev :: tr) sh) with (run tr (step ev sh)).
  destruct (step_available n ev sh Hlen Hnd Hlt) as (Hp & Hnd' & Hlt').
  destruct (IH (step ev sh)) as (Hp2 & ? & ?); [by rewrite Hp|done|done|].
  by rewrite Hp2, Hp.
Qed.

(** The guard [if i not in self.available] of [release_connection]. *)
Lemma release_twice (c : conn) (t1 t2 : Z) (st : pool_state) :
  available (release_connection c t2 (release_connection c t1 st))
  = available (release_connection c t1 st) ∧
  in_use (release_connection c t2 (release_connection c t1 st))
  = in_use (release_connection c t1 st).
Proof.
  assert (H1 : release_connection c t1 st =
               match index_of c (pool st) with
               | Some i =>
                   PoolState (max_connections st) (pool st)
                     (if bool_decide (i ∈ available st) then available st
                      else available st ++ [i])
                     (<[i := false]> (in_use st)) (created_time st)
                     (<[i := t1]> (last_used st))
               | None => st
               end) by reflexivity.
  destruct (index_of c (pool st)) as [i|] eqn:Hi; rewrite H1.
  - unfold release_connection. cbn [pool]. rewrite Hi. cbn [available in_use].
    rewrite insert_insert_eq. split; [|done].
    rewrite bool_decide_eq_true_2; [done|].
    case_bool_decide; [done|]. apply elem_of_app. right. left.
  - unfold release_connection. by rewrite Hi.
Qed.

(** X7. Whatever the callers do -- release a connection twice, release
    one they do not hold, or one that is not of the pool -- no slot is ever
    listed twice as available, at most [n] slots are listed, and the
    connections of the pool stay the ones made at initialisation.  A second
    release of a connection changes nothing but the time of last use. *)
Theorem release_never_duplicates_a_slot (n : nat) (opened : nat → bool) (t0 : Z)
    (tr : list event) (c : conn) (t1 t2 : Z) :
  let st := (run tr (_initialize_pool opened t0 n, [])).1 in
  NoDup (available st) ∧ length (available st) ≤ n ∧
  pool st = pool (_initialize_pool opened t0 n) ∧
  available (release_connection c t2 (release_connection c t1 st))
  = available (release_connection c t1 st) ∧
  in_use (release_connection c t2 (release_connection c t1 st))
  = in_use (release_connection c t1 st).
Proof.
  intros st. destruct (init_slots opened t0 n n) as (Hp & Ha & _).
  fold (_initialize_pool opened t0 n) in Hp, Ha.
  destruct (run_available n tr (_initialize_pool opened t0 n, [])) as (Hpool & Hnd & Hlt).
  { cbn [fst]. rewrite Hp. unfold opened_slots.
    etransitivity; [apply length_filter|]. by rewrite length_seq. }
  { cbn [fst]. rewrite Ha. apply NoDup_opened_slots. }
  { cbn [fst]. intros i. rewrite Ha. by intros [? _]%elem_of_opened_slots. }
  fold st in Hpool, Hnd, Hlt. cbn [fst] in Hpool. split; [done|]. split.
  { transitivity (length (seq 0 n)); [|by rewrite length_seq].
    apply submseteq_length, NoDup_submseteq; [done|].
    intros i Hi. apply elem_of_seq. split; [lia|]. by apply Hlt. }
  split; [done|]. apply release_twice.
Qed.

(** *** The health checker *)

Section HealthCheck.
Variables (healthy : conn → bool) (reopen : nat → option conn) (now : Z).

Lemma check_slot_length st j :
  length (pool (check_slot healthy reopen now st j)) = length (pool st).
Proof.
  unfold check_slot. repeat case_match; try done; cbn [pool]; apply length_insert.
Qed.

(** An iteration touches its own slot only. *)
Lemma check_slot_frame st j i :
  i ≠ j → agree (check_slot healthy reopen now st j) st i.
Proof.
  intros Hne. unfold agree, check_slot. destruct (pool st !! j) as [c|]; [|done].
  destruct (default false (in_use st !! j)); [done|].
  destruct (healthy c); [done|]. destruct (reopen j) as [new_conn|]; [|done].
  cbn [pool in_use available]. split; [by apply list_lookup_insert_ne|]. split.
  - case_bool_decide; [done|]. by rewrite lookup_insert_ne.
  - case_bool_decide; [done|]. rewrite elem_of_app, list_elem_of_singleton. tauto.
Qed.

Lemma check_slots_length l st :
  length (pool (foldl (check_slot healthy reopen now) st l)) = length (pool st).
Proof.
  revert st. induction l as [|j l IH]; intros st; [done|].
  simpl. by rewrite IH, check_slot_length.
Qed.

Lemma check_slots_frame l st i :
  i ∉ l → agree (foldl (check_slot healthy reopen now) st l) st i.
Proof.
  revert st. induction l as [|j l IH]; intros st Hi; [done|].
  apply not_elem_of_cons in Hi as [Hne Hi]. simpl.
  destruct (IH (check_slot healthy reopen now st j) Hi) as (H1 & H2 & H3).
  destruct (check_slot_frame st j i Hne) as (H4 & H5 & H6).
  unfold agree. rewrite H1, H2, H3. done.
Qed.

(** The fate of slot [i] is decided by the iteration for [i], on a state
    that agrees with the initial one on that slot. *)
Lemma check_at st i :
  i < length (pool st) →
  ∃ st_i, length (pool st_i) = length (pool st) ∧ agree st_i st i ∧
          agree (_check_connections healthy reopen now st)
                (check_slot healthy reopen now st_i i) i.
Proof.
  intros Hi. unfold _check_connections.
  assert (Hs : seq 0 (length (pool st)) =
               seq 0 i ++ i :: seq (S i) (length (pool st) - S i)).
  { replace (length (pool st)) with (i + S (length (pool st) - S i)) at 1 by lia.
    by rewrite seq_app. }
  rewrite Hs, foldl_app. cbn [foldl].
  exists (foldl (check_slot healthy reopen now) st (seq 0 i)).
  split; [apply check_slots_length|]. split.
  - apply check_slots_frame. rewrite elem_of_seq. lia.
  - apply check_slots_frame. rewrite elem_of_seq. lia.
Qed.

Lemma check_outside st i :
  length (pool st) ≤ i → agree (_check_connections healthy reopen now st) st i.
Proof. intros Hi. apply check_slots_frame. rewrite elem_of_seq. lia. Qed.

Lemma check_slot_accounted st j :
  accounted st →
  available (check_slot healthy reopen now st j) = available st ∧
  in_use (check_slot healthy reopen now st j) = in_use st.
Proof.
  intros Hacc. unfold check_slot. destruct (pool st !! j) as [c|] eqn:Hl; [|done].
  destruct (Hacc j) as [Hin|Hin]; [by eapply lookup_lt_Some| |].
  - destruct (default false (in_use st !! j)); [done|].
    destruct (healthy c); [done|]. destruct (reopen j); [|done].
    cbn [available in_use]. by rewrite !bool_decide_eq_true_2.
  - by rewrite Hin.
Qed.

Lemma check_slots_accounted l st :
  accounted st →
  available (foldl (check_slot healthy reopen now) st l) = available st ∧
  in_use (foldl (check_slot healthy reopen now) st l) = in_use st.
Proof.
  revert st. induction l as [|j l IH]; intros st Hacc; [done|]. simpl.
  destruct (check_slot_accounted st j Hacc) as [Ha Hu].
  destruct (IH (check_slot healthy reopen now st j)) as [Ha' Hu'].
  - intros i Hi. rewrite check_slot_length in Hi. rewrite Ha, Hu. by apply Hacc.
  - by rewrite Ha', Hu'.
Qed.

(** X8. The health checker never touches a slot in use: its connection,
    its flag and its absence from the available list are as before.  A
    connection that passes the probe stays.  The connection of a slot not in
    use that fails the probe and is reopened is replaced at the same index,
    and the slot is available afterwards; when it cannot be reopened the old
    connection stays in the pool.  The number of connections does not change,
    and when every slot is either available or in use, the available list
    and the flags are exactly as before. *)
Theorem health_check_spares_slots_in_use (st : pool_state) :
  let st' := _check_connections healthy reopen now st in
  length (pool st') = length (pool st) ∧
  (∀ i, in_use st !! i = Some true →
        pool st' !! i = pool st !! i ∧ in_use st' !! i = Some true ∧
        (i ∈ available st' ↔ i ∈ available st)) ∧
  (∀ i c, pool st !! i = Some c → healthy c = true → pool st' !! i = Some c) ∧
  (∀ i c new_conn,
     pool st !! i = Some c → in_use st !! i ≠ Some true → healthy c = false →
     reopen i = Some new_conn → pool st' !! i = Some new_conn ∧ i ∈ available st') ∧
  (∀ i c, pool st !! i = Some c → reopen i = None → pool st' !! i = Some c) ∧
  (accounted st → available st' = available st ∧ in_use st' = in_use st).
Proof.
  intros st'. split; [apply check_slots_length|]. split; [|split; [|split; [|split]]].
  - intros i Hu. destruct (decide (i < length (pool st))) as [Hi|Hi].
    + destruct (check_at st i Hi) as (st_i & _ & (H1 & H2 & H3) & (H4 & H5 & H6)).
      fold st' in H4, H5, H6.
      assert (Hs : check_slot healthy reopen now st_i i = st_i).
      { unfold check_slot. destruct (pool st_i !! i); [|done]. by rewrite H2, Hu. }
      rewrite Hs in H4, H5, H6. rewrite H4, H5, H6, H1, H2, H3. done.
    + destruct (check_outside st i) as (H1 & H2 & H3); [lia|]. fold st' in H1, H2, H3.
      by rewrite H1, H2, H3.
  - intros i c Hl Hh. pose proof (lookup_lt_Some _ _ _ Hl) as Hi.
    destruct (check_at st i Hi) as (st_i & _ & (H1 & H2 & H3) & (H4 & _)).
    fold st' in H4. rewrite H4. unfold check_slot. rewrite H1, Hl, Hh.
    destruct (default false (in_use st_i !! i)); by rewrite H1.
  - intros i c new_conn Hl Hu Hh Hr. pose proof (lookup_lt_Some _ _ _ Hl) as Hi.
    destruct (check_at st i Hi) as (st_i & Hlen & (H1 & H2 & H3) & (H4 & _ & H6)).
    fold st' in H4, H6. rewrite H4, H6. unfold check_slot. rewrite H1, Hl, H2, Hh, Hr.
    assert (Hd : default false (in_use st !! i) = false).
    { destruct (in_use st !! i) as [[]|]; done. }
    rewrite Hd. cbn [pool available]. split.
    + apply list_lookup_insert_eq. lia.
    + case_bool_decide; [done|]. apply elem_of_app. right. left.
  - intros i c Hl Hr. pose proof (lookup_lt_Some _ _ _ Hl) as Hi.
    destruct (check_at st i Hi) as (st_i & _ & (H1 & H2 & H3) & (H4 & _)).
    fold st' in H4. rewrite H4. unfold check_slot. rewrite H1, Hl, Hr.
    repeat case_match; by rewrite ?H1.
  - apply check_slots_accounted.
Qed.

End HealthCheck.

(** *** The scoped acquisition *)

Lemma index_of_seq n i : i < n → index_of i (seq 0 n) = Some i.
Proof.
  intros Hi. apply index_of_lookup; [apply NoDup_seq|]. by apply lookup_seq_lt.
Qed.

(** X9. On a pool of [n] connections that all opened, in any state in which
    every slot is either available or in use, a [with] block on the
    connection wrapper gives its body the connection of the first available
    slot, or [None] when no slot is available; on leaving the block the
    wrapper commits when the body returned and rolls back when it raised;
    and in both cases, the connection is released: afterwards the same
    slots are available (the one used is now the last of the list), the
    flags and the connections are as before, and the invariant of the pool
    holds again. *)
Theorem scoped_acquisition_releases {A} (n a : nat) (t_in t_out : Z)
    (body : option conn → Py.outcome A) (st : pool_state) :
  pool_inv n (λ _, true) st →
  ∃ st', DbScope.scoped (S a) t_in t_out body st
         = (body (DbScope.next_connection st),
            Some (DbScope.expected_finish (DbScope.next_connection st)
                    (body (DbScope.next_connection st))),
            st') ∧
         available st' ≡ₚ available st ∧
         available st' = tail (available st) ++ take 1 (available st) ∧
         in_use st' = in_use st ∧ pool st' = pool st ∧
         pool_inv n (λ _, true) st'.
Proof.
  intros Hinv. pose proof Hinv as (Hp & Hnd & Hlt & Hex). rewrite opened_slots_all in Hp.
  unfold DbScope.scoped, DbScope.__enter__, DbScope.next_connection.
  rewrite get_connection_poll. destruct (available st) as [|i rest] eqn:Ha.
  - exists st. cbn [DbScope.__exit__ DbScope.expected_finish]. rewrite Ha.
    split; [done|]. split; [done|]. split; [done|]. split; [done|]. by split.
  - assert (Hi : i < n) by (apply (Hlt i); left).
    apply NoDup_cons in Hnd as [Hni Hnd].
    assert (Hfree : in_use st !! i = Some false).
    { destruct (Hex i) as [[_ ?]|[Hno _]]; [by split|done|]. destruct Hno. left. }
    unfold poll. rewrite Ha. destruct (pool st !! i) as [c|] eqn:Hl.
    2: { rewrite Hp in Hl. apply lookup_ge_None_1 in Hl. rewrite length_seq in Hl. lia. }
    assert (c = i) as ->.
    { rewrite Hp in Hl. by apply lookup_seq in Hl as [-> _]. }
    cbn [DbScope.__exit__ DbScope.expected_finish].
    unfold release_connection. cbn [pool available in_use]. rewrite Hp, index_of_seq by done.
    rewrite bool_decide_eq_false_2 by done.
    rewrite insert_insert_eq, (insert_id (in_use st) i false Hfree).
    eexists. split; [reflexivity|]. cbn [available in_use pool]. simpl.
    split; [symmetry; apply Permutation_cons_append|].
    split; [by rewrite take_0|]. split; [done|].
    split; [done|]. split; [by rewrite opened_slots_all|]. split.
    { apply NoDup_app. split; [done|]. split; [|apply NoDup_singleton].
      intros x Hx ->%list_elem_of_singleton. done. }
    split.
    { intros j [Hj| ->%list_elem_of_singleton]%elem_of_app; [apply Hlt; by right|].
      by split. }
    intros j Hj. cbn [available in_use].
    destruct (Hex j Hj) as [[Hin Hf]|[Hno Ht]].
    + left. split; [|done]. apply elem_of_app.
      apply elem_of_cons in Hin as [->|Hin]; [right; left|by left].
    + right. split; [|done].
      intros [Hin| ->%list_elem_of_singleton]%elem_of_app; apply Hno;
        [by right|left].
Qed.

Lemma scoped_acquisition_releases_witness :
  ∃ st', DbScope.scoped 1 1%Z 2%Z
           (λ conn, match conn with
                    | Some _ => Py.Raise (Py.SqliteError "constraint failed")
                    | None => Py.Ret tt
                    end)
           (_initialize_pool (λ _, true) 0%Z 2)
         = (Py.Raise (Py.SqliteError "constraint failed"),
            Some (DbScope.RolledBack 0), st') ∧
         available st' = [1; 0].
Proof.
  destruct (scoped_acquisition_releases 2 0 1%Z 2%Z
              (λ conn, match conn with
                       | Some _ => Py.Raise (Py.SqliteError "constraint failed")
                       | None => Py.Ret tt
                       end)
              (_initialize_pool (λ _, true) 0%Z 2)
              (proj1 (initialised_inv 2 (λ _, true) _ (init_slots (λ _, true) 0%Z 2 2))))
    as (st' & Hs & _ & Ha & _).
  exists st'. split; [exact Hs | exact Ha].
Defined.

(** *** Closing the pool *)

Lemma closed_step (st : pool_state) (ev : event) (held : list (caller * conn)) :
  (step ev (close_all st, held)).1 = close_all st.
Proof. by destruct ev. Qed.

(** X24. [close_all] is final.  On a pool that was closed, every
    [get_connection] times out, whatever its number of polls, every
    [release_connection] finds that the connection is not of the pool, and
    the health check has no slot to look at: after any interleaving of polls
    and releases, and after a health check, the pool is as [close_all] left
    it, with no connection.  Only [get_db_pool] after [close_db_pool] gives
    connections again, by making a new pool from the arguments of that call;
    until [close_db_pool], [get_db_pool] returns the pool of the first call
    and ignores its arguments. *)
Theorem closed_pool_stays_closed (st : pool_state) :
  (∀ tr held, (run tr (close_all st, held)).1 = close_all st) ∧
  (∀ attempts now,
     get_connection attempts now (close_all st) = (NoneAvailable, close_all st)) ∧
  (∀ c now, release_connection c now (close_all st) = close_all st) ∧
  (∀ healthy reopen now,
     _check_connections healthy reopen now (close_all st) = close_all st) ∧
  (∀ opened now n,
     close_db_pool (Some st) = (Some (close_all st), None) ∧
     get_db_pool opened now n (close_db_pool (Some st)).2
     = (_initialize_pool opened now n, Some (_initialize_pool opened now n)) ∧
     get_db_pool opened now n (Some st) = (st, Some st)).
Proof.
  split; [|split; [|split; [|split]]].
  - intros tr. induction tr as [|ev tr IH]; intros held; [done|].
    unfold run in *. cbn [foldl].
    destruct (step ev (close_all st, held)) as [st1 held1] eqn:Hs.
    pose proof (closed_step st ev held) as Hc. rewrite Hs in Hc. cbn [fst] in Hc.
    subst st1. apply IH.
  - intros attempts now. by induction attempts.
  - done.
  - done.
  - done.
Qed.

End DbPoolSpec.


Module ModelCacheSpec.
Import ModelCache.

(** The scenario of the specification: capacity 5, keys A to E put in that
    order, then [get A] and [put F]: B is evicted and the order is
    C, D, E, A, F. *)
Example lru_scenario :
  let c := run [OpPut "A" 1; OpPut "B" 2; OpPut "C" 3; OpPut "D" 4; OpPut "E" 5;
                OpGet "A"] (new_cache 5) in
  (put "F" 6 c).1 = Evicted "B" ∧
  get_all_keys (put "F" 6 c).2 = ["C"; "D"; "E"; "A"; "F"].
Proof. split; reflexivity. Qed.

Example put_capacity_0 : put "A" 1 (new_cache 0) = (KeyError, new_cache 0).
Proof. reflexivity. Qed.

Section CacheProofs.
Context {V : Type}.
Implicit Types (c : cache V) (h : list (op V)) (k : string).

Lemma ticks_count k h acc : (foldl (tick k) acc h).1 = (length h + acc.1)%nat.
Proof.
  revert acc. induction h as [|o h IH]; intros acc; [done|].
  simpl. rewrite IH. simpl. lia.
Qed.

Lemma last_access_snoc h o k :
  last_access (h ++ [o]) k =
  if decide (op_key o = k) then S (length h) else last_access h k.
Proof.
  unfold last_access. rewrite foldl_app. simpl.
  rewrite ticks_count. simpl. by rewrite Nat.add_0_r.
Qed.

Lemma last_access_bound_aux k h acc :
  (acc.2 ≤ acc.1)%nat → ((foldl (tick k) acc h).2 ≤ (foldl (tick k) acc h).1)%nat.
Proof.
  revert acc. induction h as [|o h IH]; intros acc Hacc; [done|].
  simpl. apply IH. simpl. case_decide; lia.
Qed.

Lemma last_access_bound h k : (last_access h k ≤ length h)%nat.
Proof.
  unfold last_access.
  pose proof (last_access_bound_aux k h (0, 0)%nat (le_n 0)) as Hb.
  rewrite ticks_count in Hb. simpl in Hb. lia.
Qed.

Lemma pop_keys k (l : list (string * V)) : (pop k l).*1 = filter (λ x, x ≠ k) (l.*1).
Proof.
  induction l as [|[k' v] l IH]; [done|].
  unfold pop in *. rewrite filter_cons. simpl. rewrite filter_cons.
  simpl. case_decide; simpl; [f_equal|]; exact IH.
Qed.

Lemma pop_length k (l : list (string * V)) : (length (pop k l) ≤ length l)%nat.
Proof. apply length_filter. Qed.

Lemma pop_length_lt k (l : list (string * V)) :
  k ∈ l.*1 → (length (pop k l) < length l)%nat.
Proof.
  induction l as [|[k' v] l IH]; [by intros ?%elem_of_nil|].
  intros Hin. unfold pop in *. rewrite filter_cons. simpl.
  pose proof (length_filter (λ kv : string * V, kv.1 ≠ k) l).
  case_decide as Hk; simpl in *.
  - apply elem_of_cons in Hin as [?|Hin]; [congruence|]. specialize (IH Hin). lia.
  - lia.
Qed.

Lemma lookup_key_Some k (l : list (string * V)) v : lookup_key k l = Some v → k ∈ l.*1.
Proof.
  induction l as [|[k' v'] l IH]; [done|]. simpl.
  case_decide; [subst; left | intros ?; right; by apply IH].
Qed.

Lemma lookup_key_None k (l : list (string * V)) : lookup_key k l = None → k ∉ l.*1.
Proof.
  induction l as [|[k' v'] l IH]; [intros _ ?%elem_of_nil; done|]. simpl.
  case_decide; [done|]. intros Hn [?|?]%elem_of_cons; [congruence|by apply IH].
Qed.

(** Sortedness by access time survives the removal of entries and the
    addition, at the end, of the key of the call just made. *)
Lemma sorted_filter (f : string → nat) (P : string → Prop) `{∀ x, Decision (P x)}
    (l : list string) :
  StronglySorted lt (f <$> l) → StronglySorted lt (f <$> filter P l).
Proof.
  induction l as [|x l IH]; [done|]. simpl. intros Hs.
  apply StronglySorted_inv in Hs as [Hs Hall]. rewrite filter_cons.
  case_decide; [|by apply IH]. simpl. constructor; [by apply IH|].
  rewrite !list.Forall_forall in *. intros y Hy. apply Hall.
  apply list_elem_of_fmap in Hy as (z & -> & Hz%list_elem_of_filter).
  apply list_elem_of_fmap. exists z. tauto.
Qed.

Lemma sorted_snoc (l : list nat) (t : nat) :
  StronglySorted lt l → Forall (λ x, x < t)%nat l → StronglySorted lt (l ++ [t]).
Proof.
  induction l as [|x l IH]; intros Hs Hall; simpl.
  - repeat constructor.
  - apply StronglySorted_inv in Hs as [Hs Hx]. apply Forall_cons in Hall as [Hxt Hall].
    constructor; [by apply IH|]. apply Forall_app. split; [done|by constructor].
Qed.

Lemma sorted_after_access h o (l : list string) :
  StronglySorted lt (last_access h <$> l) →
  StronglySorted lt (last_access (h ++ [o]) <$> (filter (λ x, x ≠ op_key o) l ++ [op_key o])).
Proof.
  intros Hs. rewrite fmap_app. simpl. rewrite (last_access_snoc h o (op_key o)).
  rewrite decide_True by done. apply sorted_snoc.
  - erewrite list_fmap_ext; [by apply (sorted_filter (last_access h))|].
    intros i x Hx%list_elem_of_lookup_2%list_elem_of_filter. simpl.
    rewrite last_access_snoc. rewrite decide_False; [done|].
    destruct Hx as [Hx _]. congruence.
  - apply list.Forall_forall. intros t Ht.
    apply list_elem_of_fmap in Ht as (x & -> & [Hx _]%list_elem_of_filter).
    rewrite last_access_snoc, decide_False by done.
    pose proof (last_access_bound h x). lia.
Qed.

Lemma sorted_unchanged h o (l : list string) :
  op_key o ∉ l →
  StronglySorted lt (last_access h <$> l) →
  StronglySorted lt (last_access (h ++ [o]) <$> l).
Proof.
  intros Hn Hs. erewrite list_fmap_ext; [exact Hs|].
  intros i x Hx%list_elem_of_lookup_2. simpl. rewrite last_access_snoc.
  rewrite decide_False; [done|]. intros <-. done.
Qed.

Lemma filter_absent k (l : list string) : k ∉ l → filter (λ x, x ≠ k) l = l.
Proof.
  induction l as [|x l IH]; [done|]. intros [? ?]%not_elem_of_cons.
  rewrite filter_cons. rewrite decide_True by done. by rewrite IH.
Qed.

Lemma sorted_tail (l : list nat) x : StronglySorted lt (x :: l) → StronglySorted lt l.
Proof. by intros [? _]%StronglySorted_inv. Qed.

Lemma run_op_ordered h c o :
  lru_ordered h c → lru_ordered (h ++ [o]) (run_op c o).
Proof.
  unfold lru_ordered, get_all_keys. intros Hs. destruct o as [k|k v]; simpl.
  - unfold get. destruct (lookup_key k (instances c)) as [v|] eqn:Hl; simpl.
    + rewrite fmap_app, pop_keys. by apply (sorted_after_access h (OpGet k)).
    + apply lookup_key_None in Hl. by apply (sorted_unchanged h (OpGet k)).
  - unfold put, contains.
    set (l1 := if bool_decide (k ∈ (instances c).*1) then pop k (instances c)
               else instances c).
    assert (Hl1 : l1.*1 = filter (λ x, x ≠ k) ((instances c).*1)).
    { unfold l1. case_bool_decide; [apply pop_keys|by rewrite filter_absent]. }
    pose proof (sorted_after_access h (OpPut k v) _ Hs) as Hs'. simpl in Hs'.
    rewrite <- Hl1 in Hs'. clearbody l1.
    destruct l1 as [|[e ve] rest]; case_bool_decide; simpl.
    + constructor.
    + exact Hs'.
    + rewrite fmap_app. simpl in *. by apply sorted_tail in Hs'.
    + by rewrite fmap_app in *.
Qed.

Lemma run_snoc h o c : run (h ++ [o]) c = run_op (run h c) o.
Proof. unfold run. by rewrite foldl_app. Qed.

Lemma run_ordered h n : lru_ordered h (run h (new_cache n)).
Proof.
  induction h as [|o h IH] using rev_ind; [constructor|].
  rewrite run_snoc. by apply run_op_ordered.
Qed.

Lemma run_op_max_size c o : max_size (run_op c o) = max_size c.
Proof.
  destruct o as [k|k v]; simpl.
  - unfold get. by destruct (lookup_key _ _).
  - unfold put. case_bool_decide; [|done]. by destruct (if contains _ _ then _ else _) as [|[??]?].
Qed.

Lemma put_size k v c :
  (len c ≤ max_size c)%nat → (len (put k v c).2 ≤ max_size c)%nat.
Proof.
  unfold len, put, contains. intros Hc.
  set (l1 := if bool_decide (k ∈ (instances c).*1) then pop k (instances c)
             else instances c).
  assert (length l1 ≤ length (instances c))%nat
    by (unfold l1; case_bool_decide; [apply pop_length|done]).
  case_bool_decide as Hfull.
  - destruct l1 as [|[e ve] rest]; simpl in *; [lia|]. rewrite length_app. simpl. lia.
  - simpl. rewrite length_app. simpl. lia.
Qed.

Lemma run_op_size c o :
  (len c ≤ max_size c)%nat → (len (run_op c o) ≤ max_size (run_op c o))%nat.
Proof.
  intros Hc. rewrite run_op_max_size. destruct o as [k|k v]; simpl; [|by apply put_size].
  unfold get, len in *. destruct (lookup_key k (instances c)) as [v|] eqn:Hl; simpl; [|done].
  rewrite length_app. simpl. apply lookup_key_Some, pop_length_lt in Hl. lia.
Qed.

Lemma run_size h n :
  max_size (run h (new_cache n)) = n ∧ (len (run h (new_cache n)) ≤ n)%nat.
Proof.
  induction h as [|o h [IH1 IH2]] using rev_ind; [split; [done|cbv; lia]|].
  rewrite run_snoc. split; [by rewrite run_op_max_size|].
  pose proof (run_op_size (run h (new_cache n)) o) as Hs.
  rewrite run_op_max_size, IH1 in Hs. by apply Hs.
Qed.

Lemma put_present k v c :
  (len c ≤ max_size c)%nat → k ∈ get_all_keys c →
  (put k v c).1 = Stored ∧
  get_all_keys (put k v c).2 = filter (λ x, x ≠ k) (get_all_keys c) ++ [k].
Proof.
  unfold len, get_all_keys, put, contains. intros Hc Hin.
  rewrite !(bool_decide_eq_true_2 (k ∈ (instances c).*1)) by done.
  pose proof (pop_length_lt k _ Hin).
  rewrite bool_decide_eq_false_2 by lia. simpl.
  by rewrite fmap_app, pop_keys.
Qed.

Lemma put_evicts k v c e :
  (len c ≤ max_size c)%nat → (put k v c).1 = Evicted e →
  (k ∉ get_all_keys c) ∧ ∃ rest, get_all_keys c = e :: rest.
Proof.
  intros Hc He. destruct (decide (k ∈ get_all_keys c)) as [Hin|Hin].
  { destruct (put_present k v c Hc Hin) as [Hs _]. congruence. }
  split; [done|]. revert He. unfold put, contains, get_all_keys in *.
  rewrite !(bool_decide_eq_false_2 (k ∈ (instances c).*1)) by done.
  destruct (instances c) as [|[e' ve] rest]; case_bool_decide; simpl; try done.
  intros [= ->]. by exists (rest.*1).
Qed.

Lemma NoDup_pop k (l : list (string * V)) : NoDup (l.*1) → NoDup ((pop k l).*1).
Proof. rewrite pop_keys. apply NoDup_filter. Qed.

Lemma put_max_size k (v : V) c : max_size (put k v c).2 = max_size c.
Proof. exact (run_op_max_size c (OpPut k v)). Qed.

Lemma put_well_formed k v c : well_formed c → well_formed (put k v c).2.
Proof.
  intros [Hnd Hlen]. split; [|rewrite put_max_size; by apply put_size].
  unfold get_all_keys, put, contains in *.
  set (l1 := if bool_decide (k ∈ (instances c).*1) then pop k (instances c)
             else instances c).
  assert (Hl1 : NoDup (l1.*1) ∧ k ∉ l1.*1).
  { unfold l1. case_bool_decide as Hin; [|done]. split; [by apply NoDup_pop|].
    rewrite pop_keys. intros [? _]%list_elem_of_filter. done. }
  destruct Hl1 as [Hnd1 Hk1].
  case_bool_decide as Hfull.
  - destruct l1 as [|[e ve] rest]; simpl in *; [done|].
    apply NoDup_cons in Hnd1 as [_ Hnd1]. apply not_elem_of_cons in Hk1 as [_ Hk1].
    rewrite fmap_app. apply NoDup_app. split; [done|]. split; [|apply NoDup_singleton].
    intros x Hx ->%list_elem_of_singleton. done.
  - simpl. rewrite fmap_app. apply NoDup_app. split; [done|].
    split; [|apply NoDup_singleton]. intros x Hx ->%list_elem_of_singleton. done.
Qed.

Lemma get_well_formed k c : well_formed c → well_formed (get k c).2.
Proof.
  intros [Hnd Hlen]. unfold well_formed, get_all_keys, len, get in *.
  destruct (lookup_key k (instances c)) as [v|] eqn:Hl; [|done]. simpl.
  apply lookup_key_Some in Hl. split.
  - rewrite fmap_app. apply NoDup_app. split; [by apply NoDup_pop|].
    split; [|apply NoDup_singleton]. intros x Hx ->%list_elem_of_singleton.
    rewrite pop_keys in Hx. by apply list_elem_of_filter in Hx as [? _].
  - rewrite length_app. simpl. pose proof (pop_length_lt k _ Hl). lia.
Qed.

Lemma run_well_formed h n : well_formed (run h (new_cache n)).
Proof.
  induction h as [|o h IH] using rev_ind.
  - split; [constructor|]. cbv. lia.
  - rewrite run_snoc. destruct o as [k|k v]; simpl.
    + by apply get_well_formed.
    + by apply put_well_formed.
Qed.

(** What a [put] does to the entries, case by case. *)
Lemma put_present_state k v c :
  (len c ≤ max_size c)%nat → k ∈ get_all_keys c →
  instances (put k v c).2 = pop k (instances c) ++ [(k, v)].
Proof.
  unfold len, get_all_keys, put, contains. intros Hc Hin.
  rewrite !(bool_decide_eq_true_2 (k ∈ (instances c).*1)) by done.
  pose proof (pop_length_lt k _ Hin).
  by rewrite bool_decide_eq_false_2 by lia.
Qed.

Lemma put_evicts_state k v c e :
  (len c ≤ max_size c)%nat → (put k v c).1 = Evicted e →
  ∃ instance rest, instances c = (e, instance) :: rest ∧
                   instances (put k v c).2 = rest ++ [(k, v)].
Proof.
  intros Hc He. destruct (put_evicts k v c e Hc He) as [Hin _].
  revert He. unfold put, contains, get_all_keys in *.
  rewrite !(bool_decide_eq_false_2 (k ∈ (instances c).*1)) by done.
  destruct (instances c) as [|[e' ve] rest]; case_bool_decide; simpl; try done.
  intros [= ->]. by exists ve, rest.
Qed.

Lemma put_absent k v c :
  k ∉ get_all_keys c →
  ((len c < max_size c)%nat →
     put k v c = (Stored, Cache (max_size c) (instances c ++ [(k, v)]))) ∧
  (len c = max_size c → max_size c ≠ 0%nat → ∃ e, (put k v c).1 = Evicted e).
Proof.
  unfold len, put, contains, get_all_keys. intros Hin.
  rewrite !(bool_decide_eq_false_2 (k ∈ (instances c).*1)) by done. split.
  - intros Hlt. by rewrite bool_decide_eq_false_2 by lia.
  - intros Heq Hne. rewrite bool_decide_eq_true_2 by lia.
    destruct (instances c) as [|[e ve] rest]; simpl in *; [lia|]. by exists e.
Qed.

(** C2. From an empty cache of capacity [cap], after any sequence [h] of
    [put] and [get] calls: a further [put] leaves at most [cap] entries; when
    it evicts a key, that key was the first entry of the cache and every
    other key of the cache was accessed (by [put] or [get]) later in [h],
    the key put was not in the cache, and afterwards the cache holds the
    other entries, in their order and with their instances, followed by the
    new entry: the evicted key is gone and every other key is still there;
    when its key is already present it stores without evicting, no other
    key leaves the cache, and the entries are the others followed by the new
    entry; a [get] that hits makes its key the last, most recently used
    entry, accessed later than every other one; and a [put] of a key that is
    not in the cache appends the entry without evicting while there is room,
    and evicts when the cache is full. *)
Theorem lru_put_evicts_least_recent (cap : nat) (h : list (op V)) (k : string) (v : V) :
  let c := run h (new_cache cap) in
  (len (put k v c).2 ≤ cap)%nat ∧
  (∀ e, (put k v c).1 = Evicted e →
     e ∈ get_all_keys c ∧
     (∀ x, x ∈ get_all_keys c → x ≠ e → (last_access h e < last_access h x)%nat) ∧
     (k ∉ get_all_keys c) ∧
     (∃ instance rest, instances c = (e, instance) :: rest ∧
                       instances (put k v c).2 = rest ++ [(k, v)]) ∧
     (e ∉ get_all_keys (put k v c).2) ∧
     (∀ x, x ∈ get_all_keys c → x ≠ e → x ∈ get_all_keys (put k v c).2)) ∧
  (k ∈ get_all_keys c →
     (put k v c).1 = Stored ∧
     (∀ x, x ∈ get_all_keys c → x ∈ get_all_keys (put k v c).2) ∧
     instances (put k v c).2 = pop k (instances c) ++ [(k, v)]) ∧
  (∀ instance, (get k c).1 = Some instance →
     last (get_all_keys (get k c).2) = Some k ∧
     ∀ x, x ∈ get_all_keys (get k c).2 → x ≠ k →
       (last_access (h ++ [OpGet k]) x < last_access (h ++ [OpGet k]) k)%nat) ∧
  (k ∉ get_all_keys c →
     ((len c < cap)%nat → put k v c = (Stored, Cache cap (instances c ++ [(k, v)]))) ∧
     (len c = cap → cap ≠ 0%nat → ∃ e, (put k v c).1 = Evicted e)).
Proof.
  intros c. destruct (run_size h cap) as [Hmax Hlen]. fold c in Hmax, Hlen.
  pose proof (run_ordered h cap) as Hord. fold c in Hord.
  destruct (run_well_formed h cap) as [Hnd _]. fold c in Hnd.
  assert (Hc : (len c ≤ max_size c)%nat) by lia.
  split; [rewrite <- Hmax; by apply put_size|]. split; [|split; [|split]].
  - intros e He. destruct (put_evicts k v c e Hc He) as [Hk [rest Hkeys]].
    destruct (put_evicts_state k v c e Hc He) as (ve & rest' & Hi & Hpost).
    unfold lru_ordered in Hord. unfold get_all_keys in *. rewrite Hpost.
    rewrite Hi in *. simpl in *. apply NoDup_cons in Hnd as [He' Hnd].
    apply not_elem_of_cons in Hk as [Hke Hk].
    split; [left|]. split; [|split; [|split; [|split]]].
    + intros x [?|Hx]%elem_of_cons Hne; [done|].
      apply StronglySorted_inv in Hord as [_ Hall].
      rewrite list.Forall_forall in Hall. apply Hall, list_elem_of_fmap. by exists x.
    + intros [?|?]%elem_of_cons; done.
    + by exists ve, rest'.
    + rewrite fmap_app. simpl. intros [?|?%list_elem_of_singleton]%elem_of_app; done.
    + intros x [?|Hx]%elem_of_cons Hne; [done|]. rewrite fmap_app.
      apply elem_of_app. by left.
  - intros Hin. destruct (put_present k v c Hc Hin) as [Hs Hk].
    split; [done|]. split; [|by apply put_present_state].
    intros x Hx. rewrite Hk. destruct (decide (x = k)) as [->|Hne].
    + apply elem_of_app. right. left.
    + apply elem_of_app. left. by apply list_elem_of_filter.
  - intros instance Hhit. unfold get in *.
    destruct (lookup_key k (instances c)) as [i|] eqn:Hl; [|done]. simpl.
    unfold get_all_keys. simpl. rewrite fmap_app. simpl. split; [by rewrite last_snoc|].
    intros x [Hx|Hx%list_elem_of_singleton]%elem_of_app Hne; [|done].
    rewrite !last_access_snoc. simpl. rewrite decide_False by done.
    rewrite decide_True by done. pose proof (last_access_bound h x). lia.
  - intros Hk. destruct (put_absent k v c Hk) as [Hroom Hfull].
    rewrite Hmax in *. by split.
Qed.

End CacheProofs.

Lemma lru_put_evicts_least_recent_witness :
  let h := [OpPut "A" 1%nat; OpPut "B" 2%nat; OpGet "A"] in
  let c := run h (new_cache 2) in
  (put "C" 3%nat c).1 = Evicted "B" ∧
  "B" ∈ get_all_keys c ∧
  (last_access h "B" < last_access h "A")%nat ∧
  get_all_keys (put "C" 3%nat c).2 = ["A"; "C"].
Proof.
  intros h c.
  destruct (lru_put_evicts_least_recent 2 h "C" 3%nat) as (_ & He & _ & _).
  assert (Hev : (put "C" 3%nat c).1 = Evicted "B") by reflexivity.
  destruct (He "B" Hev) as (Hin & Hmin & _ & (i & rest & Hc & Hpost) & _).
  split; [exact Hev|]. split; [exact Hin|]. split.
  - apply Hmin; [vm_compute; right; left | discriminate].
  - subst c. unfold get_all_keys. rewrite Hpost.
    assert (Hrest : rest = [("A", 1%nat)]) by (vm_compute in Hc; congruence).
    by rewrite Hrest.
Defined.

(** *** All the methods of the cache *)

Section CacheCalls.
Context {V : Type}.
Implicit Types (c : cache V) (h : list (call V)) (k : string).

Lemma get_result k c : (get k c).1 = lookup_key k (instances c).
Proof. unfold get. by destruct (lookup_key k (instances c)). Qed.

Lemma lookup_key_pop_ne k k' (l : list (string * V)) :
  k' ≠ k → lookup_key k' (pop k l) = lookup_key k' l.
Proof.
  intros Hne. induction l as [|[x v] l IH]; [done|].
  unfold pop in *. rewrite filter_cons. simpl. case_decide as Hx; simpl.
  - by rewrite IH.
  - subst x. rewrite IH. by rewrite decide_False by congruence.
Qed.

Lemma lookup_key_pop_eq k (l : list (string * V)) : lookup_key k (pop k l) = None.
Proof.
  induction l as [|[x v] l IH]; [done|].
  unfold pop in *. rewrite filter_cons. simpl. case_decide as Hx; simpl; [|done].
  by rewrite decide_False.
Qed.

Lemma lookup_key_app k (l l' : list (string * V)) :
  lookup_key k (l ++ l') =
  match lookup_key k l with Some v => Some v | None => lookup_key k l' end.
Proof.
  induction l as [|[x v] l IH]; [done|]. simpl. by case_decide.
Qed.

Lemma lookup_key_absent k (l : list (string * V)) : k ∉ l.*1 → lookup_key k l = None.
Proof.
  intros Hk. destruct (lookup_key k l) as [v|] eqn:Hl; [|done].
  by apply lookup_key_Some in Hl.
Qed.

Lemma pop_absent k (l : list (string * V)) : k ∉ l.*1 → pop k l = l.
Proof.
  induction l as [|[x v] l IH]; [done|]. simpl. intros [Hx Hl]%not_elem_of_cons.
  unfold pop in *. rewrite filter_cons. simpl. rewrite decide_True by done.
  by rewrite IH.
Qed.

(** With distinct keys, [pop] of a key that is present removes one entry. *)
Lemma pop_length_present k (l : list (string * V)) :
  NoDup (l.*1) → k ∈ l.*1 → S (length (pop k l)) = length l.
Proof.
  induction l as [|[x v] l IH]; simpl; intros Hnd Hin; [by apply elem_of_nil in Hin|].
  apply NoDup_cons in Hnd as [Hx Hnd]. unfold pop in *. rewrite filter_cons. simpl.
  case_decide as Hd.
  - simpl. f_equal. apply IH; [done|].
    apply elem_of_cons in Hin as [?|?]; [congruence|done].
  - subst x. fold (pop k l). by rewrite pop_absent.
Qed.

Lemma run_calls_snoc h o c : run_calls (h ++ [o]) c = run_call (run_calls h c) o.
Proof. unfold run_calls. by rewrite foldl_app. Qed.

Lemma run_call_max_size c o : max_size (run_call c o) = max_size c.
Proof.
  destruct o as [k|k v|k|]; simpl; [| |unfold remove; by case_match|done].
  - unfold get. by destruct (lookup_key _ _).
  - unfold put. case_bool_decide; [|done].
    by destruct (if contains _ _ then _ else _) as [|[??]?].
Qed.

Lemma remove_well_formed k c : well_formed c → well_formed (remove k c).2.
Proof.
  intros [Hnd Hlen]. unfold well_formed, get_all_keys, len, remove in *.
  case_match; [|done]. simpl. split; [by apply NoDup_pop|].
  pose proof (pop_length k (instances c)). lia.
Qed.

Lemma run_calls_well_formed h n : well_formed (run_calls h (new_cache n)).
Proof.
  induction h as [|o h IH] using rev_ind.
  - split; [constructor|]. cbv. lia.
  - rewrite run_calls_snoc. destruct o as [k|k v|k|]; simpl.
    + by apply get_well_formed.
    + by apply put_well_formed.
    + by apply remove_well_formed.
    + split; [constructor|]. cbv [len clear instances length]. lia.
Qed.

Lemma run_calls_max_size h n : max_size (run_calls h (new_cache n)) = n.
Proof.
  induction h as [|o h IH] using rev_ind; [done|].
  by rewrite run_calls_snoc, run_call_max_size.
Qed.

(** With capacity 0 the cache stays empty. *)
Lemma run_calls_capacity_0 h : instances (run_calls h (new_cache (V := V) 0)) = [].
Proof.
  pose proof (run_calls_well_formed h 0) as [_ Hlen].
  rewrite run_calls_max_size in Hlen. unfold len in Hlen.
  destruct (instances _); [done|simpl in Hlen; lia].
Qed.

(** X1. Whatever sequence of [get], [put], [remove] and [clear] calls is
    made on a new cache of capacity [n], the keys of the cache are distinct
    and there are at most [n] of them; [clear] leaves no entry.  With
    capacity 0 nothing is ever stored: every [put] raises [KeyError] (it
    pops from an empty dictionary) and leaves the cache empty. *)
Theorem cache_calls_keep_bound (n : nat) (h : list (call V)) (k : string) (v : V) :
  NoDup (get_all_keys (run_calls h (new_cache n))) ∧
  (len (run_calls h (new_cache n)) ≤ n)%nat ∧
  len (clear (run_calls h (new_cache n))) = 0%nat ∧
  put k v (run_calls h (new_cache 0)) = (KeyError, new_cache 0).
Proof.
  destruct (run_calls_well_formed h n) as [Hnd Hlen].
  rewrite run_calls_max_size in Hlen. split; [done|]. split; [done|]. split; [done|].
  pose proof (run_calls_capacity_0 h) as He.
  pose proof (run_calls_max_size h 0) as Hm.
  destruct (run_calls h (new_cache 0)) as [m l]. simpl in *. by subst.
Qed.

(** X2. In a cache of capacity at least 1, reached from a new cache by any
    sequence of calls, [put] followed by [get] of the same key returns the
    instance that was put, and the lookup of every other key is as before
    the [put], the evicted key apart. *)
Theorem cache_put_then_get (n : nat) (h : list (call V)) (k : string) (v : V) :
  let c := run_calls h (new_cache (S n)) in
  (put k v c).1 ≠ KeyError ∧
  (get k (put k v c).2).1 = Some v ∧
  ∀ k', k' ≠ k → (put k v c).1 ≠ Evicted k' →
        (get k' (put k v c).2).1 = (get k' c).1.
Proof.
  intros c. pose proof (run_calls_max_size h (S n)) as Hm. fold c in Hm.
  rewrite !get_result. unfold put, contains.
  set (l1 := if bool_decide (k ∈ (instances c).*1) then pop k (instances c)
             else instances c).
  assert (Hk : lookup_key k l1 = None).
  { unfold l1. case_bool_decide as Hin; [apply lookup_key_pop_eq|].
    by apply lookup_key_absent. }
  assert (Ho : ∀ k', k' ≠ k → lookup_key k' l1 = lookup_key k' (instances c)).
  { intros k' Hne. unfold l1. case_bool_decide; [by apply lookup_key_pop_ne|done]. }
  rewrite Hm. case_bool_decide as Hfull.
  - destruct l1 as [|[e ve] rest] eqn:El1; [simpl in Hfull; lia|]. simpl.
    split; [done|]. simpl in Hk. case_decide as He; [done|].
    split.
    + rewrite lookup_key_app, Hk. simpl. by rewrite decide_True.
    + intros k' Hne Hev. rewrite !get_result. cbn [instances].
      rewrite lookup_key_app, <- (Ho k' Hne). simpl.
      rewrite !decide_False by congruence.
      by destruct (lookup_key k' rest).
  - simpl. split; [done|]. split.
    + rewrite lookup_key_app, Hk. simpl. by rewrite decide_True.
    + intros k' Hne _. rewrite !get_result. cbn [instances].
      rewrite lookup_key_app, (Ho k' Hne).
      destruct (lookup_key k' (instances c)); [done|]. simpl. by rewrite decide_False.
Qed.

(** X3. [get] changes the order of the entries only: in a cache reached
    from a new one by any sequence of calls, after [get k] every key is
    looked up as before, the number of entries is the same and the keys are
    the same up to their order; a miss leaves the cache as it is. *)
Theorem cache_get_keeps_contents (n : nat) (h : list (call V)) (k : string) :
  let c := run_calls h (new_cache n) in
  (∀ k', (get k' (get k c).2).1 = (get k' c).1) ∧
  len (get k c).2 = len c ∧
  get_all_keys (get k c).2 ≡ₚ get_all_keys c ∧
  ((get k c).1 = None → (get k c).2 = c).
Proof.
  intros c. destruct (run_calls_well_formed h n) as [Hnd _]. fold c in Hnd.
  unfold get_all_keys, len in *. split; [|unfold get].
  - intros k'. rewrite !get_result. unfold get.
    destruct (lookup_key k (instances c)) as [v|] eqn:Hl; [|done]. simpl.
    rewrite lookup_key_app. destruct (decide (k' = k)) as [->|Hne].
    + rewrite lookup_key_pop_eq, Hl. simpl. by rewrite decide_True.
    + rewrite lookup_key_pop_ne by done.
      destruct (lookup_key k' (instances c)); [done|]. simpl. by rewrite decide_False.
  - destruct (lookup_key k (instances c)) as [v|] eqn:Hl; [|done]. simpl.
    apply lookup_key_Some in Hl. split; [|split; [|done]].
    + rewrite length_app. simpl. pose proof (pop_length_present k _ Hnd Hl). lia.
    + rewrite fmap_app. simpl. apply NoDup_Permutation; [|done|].
      * apply NoDup_app. split; [by apply NoDup_pop|].
        split; [|apply NoDup_singleton]. intros x Hx ->%list_elem_of_singleton.
        rewrite pop_keys in Hx. by apply list_elem_of_filter in Hx as [? _].
      * intros x. rewrite elem_of_app, pop_keys, list_elem_of_filter,
          list_elem_of_singleton.
        destruct (decide (x = k)) as [->|Hne]; [tauto|]. tauto.
Qed.

(** X4. [remove] returns [True] exactly when the key is in the cache; the
    key is then absent, the other entries and their order are as before,
    and, in a cache reached from a new one by any sequence of calls, there
    is one entry fewer.  When the key is not in the cache, [remove] returns
    [False] and the cache is as it was. *)
Theorem cache_remove_only_that_key (n : nat) (h : list (call V)) (k : string) :
  let c := run_calls h (new_cache n) in
  ((remove k c).1 = true ↔ k ∈ get_all_keys c) ∧
  (get k (remove k c).2).1 = None ∧
  (∀ k', k' ≠ k → (get k' (remove k c).2).1 = (get k' c).1) ∧
  get_all_keys (remove k c).2 = filter (λ x, x ≠ k) (get_all_keys c) ∧
  (k ∈ get_all_keys c → S (len (remove k c).2) = len c) ∧
  (k ∉ get_all_keys c → remove k c = (false, c)).
Proof.
  intros c. destruct (run_calls_well_formed h n) as [Hnd _]. fold c in Hnd.
  unfold get_all_keys, len in *. rewrite !get_result. unfold remove, contains.
  case_bool_decide as Hin; simpl.
  - split; [done|]. split; [apply lookup_key_pop_eq|].
    split; [intros k' Hne; rewrite !get_result; by apply lookup_key_pop_ne|].
    split; [apply pop_keys|]. split; [intros _; by apply pop_length_present|done].
  - split; [split; [done|by intros ?]|]. split; [by apply lookup_key_absent|].
    split; [intros k' _; by rewrite get_result|]. split; [by rewrite filter_absent|]. done.
Qed.

End CacheCalls.

End ModelCacheSpec.


Module StoreSpec.
Import Py Sqlite DbConn DBManagerPool.
Local Open Scope py_scope.

(** Membership in, and inclusion of, lists written out. *)
Ltac list_member := repeat constructor.

Ltac list_subset :=
  let c := fresh "c" in
  let Hc := fresh "Hc" in
  intros c Hc;
  repeat (apply elem_of_cons in Hc as [->|Hc]; [list_member|]);
  by apply elem_of_nil in Hc.

(** *** The monad *)

Lemma try_except_returns {S A} (m : M S A) (d : A) (s : S) :
  ∃ v s', try_except m (λ _, ret d) s = (Ret v, s') ∧
          (∀ e s1, m s = (Raise e, s1) → v = d ∧ s' = s1) ∧
          (∀ a s1, m s = (Ret a, s1) → v = a ∧ s' = s1).
Proof.
  unfold try_except, ret. destruct (m s) as [[a|e] s1]; eexists _, _;
    (split; [reflexivity|]); split; intros ? ? [=]; subst; done.
Qed.

Lemma bind_run {S A B} (m : M S A) (k : A → M S B) (s : S) :
  bind m k s = match m s with
               | (Ret a, s') => k a s'
               | (Raise e, s') => (Raise e, s')
               end.
Proof. reflexivity. Qed.

Lemma with_db_result {A} (body : M state A) s :
  (with_db body s).1 = (body (__enter__ s)).1.
Proof. unfold with_db. by destruct (body (__enter__ s)). Qed.

Lemma enter_store s : store (__enter__ s) = store s ∧ dirty (db (__enter__ s)) = false.
Proof. unfold __enter__, next_fault. by destruct (faults s). Qed.

(** *** Queries *)

(** A [SELECT] that returns leaves in the cursor the projections, on the
    columns selected, of the rows that satisfy the [WHERE] clause. *)
Lemma execute_select cols t w s s' :
  execute (Select cols t w) s = (Ret tt, s') →
  ∃ w' x, bind_named w = Some w' ∧ get_table t (view s) = Some x ∧
          cursor (db s') = true ∧ dirty (db s') = dirty (db s) ∧
          store s' = store s ∧ 
          results (db s') = project cols <$> filter (λ r, matches w' r = true) (rows x).
Proof.
  unfold execute. destruct (cursor (db s)) eqn:Hc; [|done]. simpl.
  assert (Hv : ∀ s1, (next_fault s).2 = s1 → view s1 = view s ∧ cursor (db s1) = true
                     ∧ dirty (db s1) = dirty (db s) ∧ store s1 = store s).
  { intros s1 <-. unfold next_fault, view. by destruct (faults s). }
  destruct (next_fault s) as [f s1]. specialize (Hv s1 eq_refl) as (Hv & Hc1 & Hd1 & Hs1).
  destruct f; [done|]. simpl. destruct (bind_named w) as [w'|]; [|done].
  unfold query, run_select. rewrite Hv.
  destruct (get_table t (view s)) as [x|]; [|done].
  destruct (all_columns t cols && all_columns t w'.*1); [|done].
  intros [= <-]. exists w', x. by repeat split.
Qed.

Lemma fetchall_results s rs s' :
  fetchall s = (Ret rs, s') → rs = results (db s) ∧ store s' = store s.
Proof.
  unfold fetchall. destruct (cursor (db s)); [|done]. simpl. by intros [= <- <-].
Qed.

Lemma fetchone_results s r s' :
  fetchone s = (Ret r, s') → r = head (results (db s)) ∧ store s' = store s.
Proof.
  unfold fetchone. destruct (cursor (db s)); [|done]. simpl.
  destruct (results (db s)); by intros [= <- <-].
Qed.

Lemma assoc_project c cols (r : row) :
  assoc c (project cols r) = if bool_decide (c ∈ cols) then Some (field c r) else None.
Proof.
  induction cols as [|c' cols IH]; [done|].
  change (project (c' :: cols) r) with ((c', field c' r) :: project cols r).
  cbn [assoc]. destruct (String.eqb_spec c' c) as [->|Hne].
  - rewrite bool_decide_eq_true_2; [done|left].
  - rewrite IH. destruct (decide (c ∈ cols)) as [Hin|Hin].
    + rewrite !bool_decide_eq_true_2; [done| by right | done].
    + rewrite !bool_decide_eq_false_2; [done| |done].
      intros [?|?]%elem_of_cons; congruence.
Qed.

Lemma row_get_project c cols (r : row) (s : state) :
  row_get (project cols r) c s =
  if bool_decide (c ∈ cols) then (Ret (to_py (field c r)), s)
  else (Raise (IndexError "No item with that key"), s).
Proof. unfold row_get. rewrite assoc_project. by case_bool_decide. Qed.


(** *** Errors and the [except] clauses *)

Lemma silent_ret {A} (a : A) : silent (ret a).
Proof. by intros s a' s' [= <- <-]. Qed.

Lemma silent_raise {A} (e : exn) : silent (raise (A := A) e).
Proof. by intros s a s' [=]. Qed.

Lemma silent_sql_raise {A} msg : silent (sql_raise (A := A) msg).
Proof. by intros s a s' [=]. Qed.

Lemma silent_bind {A C} (m : M state A) (k : A → M state C) :
  silent m → (∀ a, silent (k a)) → silent (bind m k).
Proof.
  intros Hm Hk s c s'. unfold bind. destruct (m s) as [[a|e] s1] eqn:Em; [|done].
  intros Hc. rewrite (Hk a _ _ _ Hc). by apply (Hm s a).
Qed.

Lemma silent_for_each {A C} (xs : list A) (acc : C) (body : C → A → M state C) :
  (∀ c x, silent (body c x)) → silent (for_each xs acc body).
Proof.
  intros Hb. revert acc. induction xs as [|x xs IH]; intros acc; simpl.
  - apply silent_ret.
  - apply silent_bind; [apply Hb|]. intros c. apply IH.
Qed.

Lemma next_fault_errors s :
  errors (next_fault s).2 = errors s ∧ db (next_fault s).2 = db s ∧
  store (next_fault s).2 = store s ∧ locked (next_fault s).2 = locked s.
Proof. unfold next_fault. by destruct (faults s). Qed.

Lemma silent_query r : silent (query r).
Proof. intros s a s'. unfold query, sql_raise. destruct r; [done|]. by intros [= _ <-]. Qed.

Lemma silent_change r : silent (change r).
Proof.
  intros s a s'. unfold change, sql_raise. destruct (locked s && negb (dirty (db s))); [done|].
  destruct (r (view s)); [done|]. by intros [= _ <-].
Qed.

Lemma silent_create t : silent (create t).
Proof.
  intros s a s'. unfold create, sql_raise. destruct (dirty (db s)); [apply silent_change|].
  destruct (locked s); [done|]. by intros [= _ <-].
Qed.

Lemma silent_run_stmt q : silent (run_stmt q).
Proof.
  destruct q; simpl; repeat case_match;
    try apply silent_sql_raise; try apply silent_change; try apply silent_create;
    intros s a s' Hq; by apply silent_query in Hq.
Qed.

Lemma silent_execute q : silent (execute q).
Proof.
  intros s a s'. unfold execute, sql_raise. destruct (cursor (db s)); [|done]. simpl.
  destruct (next_fault_errors s) as (He & _). destruct (next_fault s) as [f s1].
  destruct f; [done|]. intros H%silent_run_stmt. simpl in He. congruence.
Qed.

Lemma silent_fetchone : silent fetchone.
Proof.
  intros s a s'. unfold fetchone, sql_raise. destruct (cursor (db s)); [|done]. simpl.
  destruct (results (db s)); by intros [= <- <-].
Qed.

Lemma silent_fetchall : silent fetchall.
Proof.
  intros s a s'. unfold fetchall, sql_raise. destruct (cursor (db s)); [|done]. simpl.
  by intros [= <- <-].
Qed.

Lemma silent_pure {A} (m : M state A) :
  (∀ s, (m s).2 = s) → silent m.
Proof. intros Hm s a s' H. specialize (Hm s). rewrite H in Hm. simpl in Hm. by subst. Qed.

Lemma enter_errors s : errors (__enter__ s) = errors s.
Proof. unfold __enter__, next_fault. by destruct (faults s). Qed.

Lemma exit_errors r s : errors (__exit__ r s) = errors s.
Proof.
  unfold __exit__, next_fault. destruct (cursor (db s)), (dirty (db s)), r; simpl; try done.
  destruct (faults s) as [|[] ?]; done.
Qed.

Lemma silent_with_db {A} (body : M state A) : silent body → silent (with_db body).
Proof.
  intros Hb s a s'. unfold with_db.
  destruct (body (__enter__ s)) as [r s1] eqn:Eb. intros [= -> <-]. simpl.
  rewrite exit_errors. rewrite (Hb _ _ _ Eb). apply enter_errors.
Qed.


Lemma silent_row_get r c : silent (row_get r c).
Proof. apply silent_pure. intros s. unfold row_get. by destruct (assoc c r). Qed.

Lemma silent_dict_get d k v : silent (dict_get (S := state) d k v).
Proof. apply silent_pure. intros s. by destruct d. Qed.

Lemma silent_dict_items d : silent (dict_items (S := state) d).
Proof. apply silent_pure. intros s. by destruct d. Qed.

Lemma silent_dict_setitem B d k v : silent (dict_setitem (S := state) B d k v).
Proof. apply silent_pure. intros s. by destruct d, k. Qed.

Lemma silent_gt_zero v : silent (gt_zero (S := state) v).
Proof. apply silent_pure. intros s. by destruct v. Qed.

Lemma silent_convert_setting B v t : silent (convert_setting B v t).
Proof.
  apply silent_pure. intros s. unfold convert_setting.
  repeat case_match; try done;
    unfold py_int, py_float, py_json_loads, py_lower, bind, ret, raise;
    repeat case_match; simplify_eq; done.
Qed.

Lemma silent_classify_setting B v : silent (classify_setting B v).
Proof.
  apply silent_pure. intros s. unfold classify_setting, py_json_dumps, bind, ret, raise.
  repeat case_match; simplify_eq; done.
Qed.

(** The primitives of the store are silent; the compound computations are
    taken apart by the rules for [bind], [for_each], [with_db] and case
    analysis. *)
Create HintDb silent.

#[local] Hint Resolve silent_ret silent_raise silent_execute silent_fetchone
  silent_fetchall silent_row_get silent_dict_get silent_dict_items
  silent_dict_setitem silent_gt_zero silent_convert_setting
  silent_classify_setting : silent.

Ltac silent_step :=
  first
    [ solve [auto with silent]
    | apply silent_with_db
    | apply silent_for_each; intros
    | apply silent_bind; [|intros]
    | match goal with
      | |- silent (match ?x with _ => _ end) => destruct x
      end ].

Ltac silent_tac :=
  unfold provider_config, model_config, model_config_one, composite_config;
  cbv zeta; repeat silent_step.

(** When the [try] block is silent, a call whose error count grew went
    through the [except] clause. *)
Lemma try_except_silent {A} (m : M state A) (d : A) s v s' :
  silent m → try_except m (λ _, ret d) s = (Ret v, s') →
  errors s' ≠ errors s → v = d.
Proof.
  intros Hm. unfold try_except, ret. destruct (m s) as [[a|e] s1] eqn:Em.
  - intros [= <- <-] Hne. destruct Hne. by apply (Hm s a).
  - by intros [= <- <-].
Qed.

Lemma try_except_total {S A} (m : M S A) (d : A) (s : S) :
  ∃ v s', try_except m (λ _, ret d) s = (Ret v, s').
Proof. destruct (try_except_returns m d s) as (v & s' & H & _). eauto. Qed.

Section Operations.
Variable B : builtins.

Lemma perform_returns (op : operation) (s : state) :
  ∃ v s', perform B op s = (Ret v, s').
Proof. destruct op; apply try_except_total. Qed.

Lemma perform_error (op : operation) (s : state) v s' :
  is_bulk op = false → perform B op s = (Ret v, s') →
  errors s' ≠ errors s → v = on_failure op.
Proof.
  destruct op; try done; intros _; simpl; apply try_except_silent; silent_tac.
Qed.

End Operations.

(** *** [get_all_providers] *)

Section AllProviders.
Variable B : builtins.

(** Decoding a row of the result of the query of [get_all_providers] fails
    at [row["api_key"]]. *)
Lemma provider_config_selected (r : row) (s : state) :
  provider_config (project selected r) s =
  (Raise (IndexError "No item with that key"), s).
Proof.
  unfold provider_config, bind. rewrite !row_get_project. reflexivity.
Qed.

Lemma matches_nil (r : row) : matches [] r = true.
Proof. reflexivity. Qed.

Lemma filter_all (l : list row) : filter (λ r, matches [] r = true) l = l.
Proof.
  induction l as [|r l IH]; [done|].
  rewrite filter_cons, decide_True by done. by rewrite IH.
Qed.

(** The [try] block returns only when the table has no row, and then it
    returns the empty dictionary. *)
Lemma get_all_providers_try_returns s v :
  (get_all_providers_try B s).1 = Ret v → v = PDict [] ∧ stored providers s = [].
Proof.
  unfold get_all_providers_try. rewrite with_db_result.
  destruct (enter_store s) as [Hst Hd].
  rewrite bind_run. fold selected.
  destruct (execute _ (__enter__ s)) as [[[]|e] s2] eqn:He; [|done].
  apply execute_select in He as (w' & x & [= <-] & Hx & _ & _ & _ & Hr).
  unfold view in Hx. rewrite Hd, Hst in Hx.
  rewrite bind_run. destruct (fetchall s2) as [[rs|e] s3] eqn:Hf; [|done].
  apply fetchall_results in Hf as [-> _]. rewrite Hr, filter_all.
  unfold stored. rewrite Hx. destruct (rows x) as [|r rest]; [by intros [= <-]|].
  rewrite fmap_cons. cbn [for_each]. rewrite !bind_run.
  by rewrite provider_config_selected.
Qed.

Lemma get_all_providers_always_empty s : (get_all_providers B s).1 = Ret (PDict []).
Proof.
  unfold get_all_providers.
  destruct (try_except_returns (get_all_providers_try B) (PDict []) s)
    as (v & s' & -> & Hraise & Hret). simpl.
  destruct (get_all_providers_try B s) as [[a|e] s1] eqn:Ht.
  - destruct (Hret a s1 eq_refl) as [-> _]. f_equal.
    apply (get_all_providers_try_returns s). by rewrite Ht.
  - by destruct (Hraise e s1 eq_refl) as [-> _].
Qed.

Lemma get_all_providers_try_quiet s x :
  faults s = [] → get_table providers (store s) = Some x →
  (get_all_providers_try B s).1 =
  match rows x with
  | [] => Ret (PDict [])
  | _ :: _ => Raise (IndexError "No item with that key")
  end.
Proof.
  intros Hf Hx. unfold get_all_providers_try. rewrite with_db_result.
  unfold __enter__, next_fault. rewrite Hf. fold selected.
  rewrite bind_run. unfold execute, next_fault. cbn [db set_db cursor negb faults].
  rewrite Hf. cbn [run_stmt bind_named]. unfold query, run_select, view.
  cbn [db set_db dirty store]. rewrite Hx.
  change (all_columns providers selected && all_columns providers ([] : list (string * sqlval)).*1)
    with true. cbn match. rewrite filter_all.
  rewrite bind_run. unfold fetchall. cbn [db set_db cursor negb results].
  destruct (rows x) as [|r rest]; [done|].
  rewrite fmap_cons. cbn [for_each]. rewrite !bind_run.
  by rewrite provider_config_selected.
Qed.

Lemma export_config_providers s :
  ∃ m c st, (export_config B s).1 =
            Ret (PDict [ ("providers", PDict []); ("models", m);
                         ("composite_models", c); ("system", st) ]).
Proof.
  unfold export_config, try_except. rewrite bind_run.
  pose proof (get_all_providers_always_empty s) as Hp.
  destruct (get_all_providers B s) as [r1 s1]. simpl in Hp. subst r1.
  rewrite bind_run.
  destruct (perform_returns B (GetAllModels PNone) s1) as (m & s2 & Hm).
  simpl in Hm. rewrite Hm. rewrite bind_run.
  destruct (perform_returns B GetAllCompositeModels s2) as (c & s3 & Hc).
  simpl in Hc. rewrite Hc. rewrite bind_run.
  destruct (perform_returns B GetAllSettings s3) as (st & s4 & Hst).
  simpl in Hst. rewrite Hst.
  by exists m, c, st.
Qed.

(** C10. [get_all_providers] returns the empty dictionary in every state
    of the datastore, and so the [providers] section of [export_config] is
    empty.  Its query does not select [api_key], and decoding a row reads
    [row["api_key"]]: when the table has a row the [try] block raises, and
    the [except] clause returns the empty dictionary; the [try] block returns
    only when the table has no row, and then it returns the empty
    dictionary. *)
Theorem get_all_providers_always_empty_dict (s : state) :
  (get_all_providers B s).1 = Ret (PDict []) ∧
  (∃ m c st, (export_config B s).1 =
             Ret (PDict [ ("providers", PDict []); ("models", m);
                          ("composite_models", c); ("system", st) ])) ∧
  (∀ v, (get_all_providers_try B s).1 = Ret v →
        v = PDict [] ∧ stored providers s = []) ∧
  (∀ x, faults s = [] → get_table providers (store s) = Some x →
        (rows x ≠ [] →
         (get_all_providers_try B s).1 = Raise (IndexError "No item with that key")) ∧
        (rows x = [] → (get_all_providers_try B s).1 = Ret (PDict []))).
Proof.
  split; [apply get_all_providers_always_empty|].
  split; [apply export_config_providers|].
  split; [apply get_all_providers_try_returns|].
  intros x Hf Hx. rewrite (get_all_providers_try_quiet s x Hf Hx).
  split; [by destruct (rows x)|by intros ->].
Qed.

End AllProviders.

(** *** The failure policy *)

Lemma init_db_reraises (s : state) (i : nat) :
  (i < 5)%nat → faults s !! i = Some true → ∃ e s', _init_db s = (Raise e, s').
Proof.
  intros Hi Hf. destruct s as [st lk fs er cf h]. simpl in Hf.
  destruct fs as [|f0 fs]; [done|].
  destruct f0. { vm_compute. eauto. }
  destruct i as [|i]; [done|]. simpl in Hf.
  destruct fs as [|f1 fs]; [done|].
  destruct f1. { vm_compute. eauto. }
  destruct lk. { vm_compute. eauto. }
  destruct i as [|i]; [done|]. simpl in Hf.
  destruct fs as [|f2 fs]; [done|].
  destruct f2. { vm_compute. eauto. }
  destruct i as [|i]; [done|]. simpl in Hf.
  destruct fs as [|f3 fs]; [done|].
  destruct f3. { vm_compute. eauto. }
  destruct i as [|i]; [done|]. simpl in Hf.
  destruct fs as [|f4 fs]; [done|].
  destruct f4. { vm_compute. eauto. }
  destruct i as [|i]; [done|]. lia.
Qed.





(** *** Lookups of one record *)

Lemma try_except_result {S A} (m : M S A) (d : A) (s : S) v :
  (try_except m (λ _, ret d) s).1 = Ret v → v = d ∨ (m s).1 = Ret v.
Proof.
  unfold try_except, ret. destruct (m s) as [[a|e] s1]; simpl; intros [= <-]; auto.
Qed.

(** The shape shared by the lookups: one query, [fetchone], and the
    decoding of the row when there is one. *)
Lemma select_fetchone cols t w (k : row → M state pyval) s d :
  (with_db (execute (Select cols t w) ;;
            row <- fetchone ;;
            match row with Some r => k r | None => ret PNone end) s).1 = Ret d →
  d = PNone ∨
  ∃ w' r s3, bind_named w = Some w' ∧ r ∈ stored t s ∧ matches w' r = true ∧
             (k (project cols r) s3).1 = Ret d.
Proof.
  rewrite with_db_result. destruct (enter_store s) as [Hst Hd].
  rewrite bind_run.
  destruct (execute _ (__enter__ s)) as [[[]|e] s2] eqn:He; [|done].
  apply execute_select in He as (w' & x & Hw & Hx & _ & _ & _ & Hr).
  unfold view in Hx. rewrite Hd, Hst in Hx.
  rewrite bind_run. destruct (fetchone s2) as [[row|e] s3] eqn:Hf; [|done].
  apply fetchone_results in Hf as [-> _]. rewrite Hr.
  destruct (filter _ (rows x)) as [|r rest] eqn:Hfl; simpl.
  - intros [= <-]. by left.
  - intros Hk. right. exists w', r, s3. split; [done|].
    assert (Hin : r ∈ filter (λ r, matches w' r = true) (rows x))
      by (rewrite Hfl; left).
    apply list_elem_of_filter in Hin as [Hm Hin].
    unfold stored. rewrite Hx. done.
Qed.

Lemma sql_eq_int v z : sql_eq v (SInt z) = true → v = SInt z.
Proof. destruct v; simpl; try done. by intros ->%Z.eqb_eq. Qed.

Lemma sql_eq_text v x : sql_eq v (SText x) = true → v = SText x.
Proof. destruct v; simpl; try done. by intros ->%String.eqb_eq. Qed.

Lemma model_config_one_project cols (r : row) s :
  ["id"; "model_id"; "model_name"; "provider_id"; "is_origin_reasoning";
   "is_valid"; "model_type"; "model_format"] ⊆ cols →
  model_config_one (project cols r) s = (Ret (model_dict r), s).
Proof.
  intros Hp. unfold model_config_one. rewrite !bind_run.
  repeat (rewrite row_get_project, bool_decide_eq_true_2
            by (apply Hp; list_member); rewrite ?bind_run).
  reflexivity.
Qed.

Lemma provider_config_project (r : row) s :
  provider_config (project provider_columns r) s = (Ret (provider_dict r), s).
Proof. unfold provider_config. rewrite !bind_run, !row_get_project. reflexivity. Qed.

Lemma composite_config_project (r : row) s :
  composite_config (project composite_columns r) s = (Ret (composite_dict r), s).
Proof. unfold composite_config. rewrite !bind_run, !row_get_project. reflexivity. Qed.


Lemma get_model_for_name_valid (s : state) (name : string) (d : pyval) :
  (get_model_for_name name s).1 = Ret d → d ≠ PNone →
  ∃ r, r ∈ stored models s ∧ field "is_valid" r = SInt 1 ∧
       field "model_name" r = SText name ∧ d = model_dict r ∧
       item "is_valid" d = Some (PBool true).
Proof.
  intros [->|H]%try_except_result Hd; [done|].
  apply select_fetchone in H as [->|(w' & r & s3 & [= <-] & Hin & Hm & Hk)]; [done|].
  rewrite model_config_one_project in Hk by list_subset. injection Hk as <-.
  simpl in Hm. apply andb_prop in Hm as [Hv [Hn _]%andb_prop].
  apply sql_eq_int in Hv. apply sql_eq_text in Hn.
  exists r. repeat split; try done. simpl. by rewrite Hv.
Qed.

Lemma get_model_for_id_valid (s : state) (id d : pyval) :
  (get_model_for_id id s).1 = Ret d → d ≠ PNone →
  ∃ r v, r ∈ stored models s ∧ field "is_valid" r = SInt 1 ∧
         bind_param id = Some v ∧ sql_eq (field "id" r) v = true ∧
         d = model_dict r ∧ item "is_valid" d = Some (PBool true).
Proof.
  intros [->|H]%try_except_result Hd; [done|].
  apply select_fetchone in H as [->|(w' & r & s3 & Hw & Hin & Hm & Hk)]; [done|].
  rewrite model_config_one_project in Hk by list_subset.
  injection Hk as <-. simpl in Hw.
  destruct (bind_param id) as [v|] eqn:Hb; [|done]. injection Hw as <-.
  simpl in Hm. apply andb_prop in Hm as [Hv [Hi _]%andb_prop].
  apply sql_eq_int in Hv.
  exists r, v. repeat split; try done. simpl. by rewrite Hv.
Qed.

Lemma get_composite_model_valid (s : state) (name : string) (d : pyval) :
  (get_composite_model name s).1 = Ret d → d ≠ PNone →
  ∃ r, r ∈ stored composite_models s ∧ field "is_valid" r = SInt 1 ∧
       field "model_name" r = SText name ∧ d = composite_dict r ∧
       item "is_valid" d = Some (PBool true).
Proof.
  intros [->|H]%try_except_result Hd; [done|].
  apply select_fetchone in H as [->|(w' & r & s3 & [= <-] & Hin & Hm & Hk)]; [done|].
  rewrite composite_config_project in Hk. injection Hk as <-.
  simpl in Hm. apply andb_prop in Hm as [Hn [Hv _]%andb_prop].
  apply sql_eq_int in Hv. apply sql_eq_text in Hn.
  exists r. repeat split; try done. simpl. by rewrite Hv.
Qed.

Lemma get_provider_for_name_stored (s : state) (name : string) (d : pyval) :
  (get_provider_for_name name s).1 = Ret d → d ≠ PNone →
  ∃ r, r ∈ stored providers s ∧ field "provider_name" r = SText name ∧
       d = provider_dict r.
Proof.
  intros [->|H]%try_except_result Hd; [done|].
  apply select_fetchone in H as [->|(w' & r & s3 & [= <-] & Hin & Hm & Hk)]; [done|].
  rewrite provider_config_project in Hk. injection Hk as <-.
  simpl in Hm. apply andb_prop in Hm as [Hn _]. apply sql_eq_text in Hn.
  by exists r.
Qed.

Lemma get_provider_for_id_stored (s : state) (id d : pyval) :
  (get_provider_for_id id s).1 = Ret d → d ≠ PNone →
  ∃ r v, r ∈ stored providers s ∧ bind_param id = Some v ∧
         sql_eq (field "id" r) v = true ∧ d = provider_dict r.
Proof.
  intros [->|H]%try_except_result Hd; [done|].
  apply select_fetchone in H as [->|(w' & r & s3 & Hw & Hin & Hm & Hk)]; [done|].
  rewrite provider_config_project in Hk. injection Hk as <-. simpl in Hw.
  destruct (bind_param id) as [v|] eqn:Hb; [|done]. injection Hw as <-.
  simpl in Hm. apply andb_prop in Hm as [Hi _].
  by exists r, v.
Qed.




(** *** Bulk import *)

Lemma execute_insert_unknown_column ig t cols ps (s : state) :
  all_columns t cols = false →
  ∃ e s', execute (Insert ig t cols ps) s = (Raise e, s').
Proof.
  intros Hc. unfold execute, sql_raise. destruct (cursor _); [|by eexists _, _]. simpl.
  destruct (next_fault _) as [[] s3]; [by eexists _, _|]. rewrite Hc.
  destruct (bind_all ps); by eexists _, _.
Qed.

Lemma execute_update_unknown_column t sets w (s : state) :
  all_columns t (sets.*1) = false →
  ∃ e s', execute (Update t sets w) s = (Raise e, s').
Proof.
  intros Hc. unfold execute, sql_raise. destruct (cursor _); [|by eexists _, _]. simpl.
  destruct (next_fault _) as [[] s3]; [by eexists _, _|]. rewrite Hc.
  destruct (bind_named sets), (bind_named w); by eexists _, _.
Qed.

Section BulkImport.
Variable B : builtins.

(** [save_model] names a column [api_key] that the table [models] does not
    have: its statement fails in every state, and it returns [False]. *)
Lemma save_model_always_fails (config : pyval) (s : state) :
  (save_model config s).1 = Ret (PBool false).
Proof.
  unfold save_model.
  match goal with |- (try_except ?m _ s).1 = _ =>
    destruct (try_except_returns m (PBool false) s) as (v & s' & -> & Hraise & _);
    assert (Hm : ∀ a, (m s).1 ≠ Ret a);
    [|destruct (m s) as [[a|e] s1];
      [by destruct (Hm a)|by destruct (Hraise e s1 eq_refl) as [-> _]]]
  end.
  intros a. destruct config as [| | | | | |d]; try done.
  cbn [bind dict_get ret]. rewrite with_db_result. rewrite bind_run.
  destruct (truthy _).
  - edestruct execute_update_unknown_column as (e & s2 & ->); [|done]. reflexivity.
  - edestruct execute_insert_unknown_column as (e & s2 & ->); [|done]. reflexivity.
Qed.

(** C5 (the code departs from the claim). When the configuration holds the
    model of the example and the datastore holds one provider and the
    default settings, [import_config] returns [True]; afterwards the
    provider and the settings are gone and the model is not there: the
    contents are neither the imported records nor the previous ones.  The
    four [DELETE]s are committed by the [with] block of [import_config]; each
    record is saved by an operation that opens a connection of its own,
    catches its own errors and returns [False], which the loop ignores, and
    [save_model] fails in every state. *)
Theorem import_config_not_atomic (config : pyval) (s : state) :
  (save_model config s).1 = Ret (PBool false) ∧
  length (stored providers Examples.with_p1) = 1%nat ∧
  length (stored system_settings Examples.with_p1) = 8%nat ∧
  (import_config B (PDict [("models", PDict [("m1", Examples.model_m1)])])
     Examples.with_p1).1 = Ret (PBool true) ∧
  store (import_config B (PDict [("models", PDict [("m1", Examples.model_m1)])])
           Examples.with_p1).2
  = Database (Some (Table [] 1)) (Some (Table [] 0)) (Some (Table [] 0))
             (Some (Table [] 0)).
Proof.
  split; [apply save_model_always_fails|]. repeat split; vm_compute; reflexivity.
Qed.

End BulkImport.
(** *** Settings *)

Lemma int_of_str_of_Z (z : Z) : int_of_str (str_of_Z z) = Some z.
Proof.
  unfold int_of_str, str_of_Z.
  assert (H : DecimalString.NilZero.int_of_string
                (DecimalString.NilZero.string_of_int (Z.to_int z)) = Some (Z.to_int z)).
  { apply DecimalString.NilZero.isi; destruct z; simpl; try discriminate;
      intros [= H]; by apply DecimalPos.Unsigned.to_uint_nonnil in H. }
  destruct (DecimalString.NilZero.string_of_int (Z.to_int z)) eqn:E.
  - simpl in H. discriminate.
  - rewrite H. simpl. by rewrite DecimalZ.of_to.
Qed.

Section Settings.
Variable B : builtins.

(** An integer and a string are stored under their own tag, and the
    conversion of what is stored gives them back. *)
Lemma int_and_str_settings (z : Z) (x : string) (s : state) :
  classify_setting B (PInt z) s = (Ret ("int", str_of_Z z), s) ∧
  convert_setting B (PStr (str_of_Z z)) (PStr "int") s = (Ret (PInt z), s) ∧
  classify_setting B (PStr x) s = (Ret ("str", x), s) ∧
  convert_setting B (PStr x) (PStr "str") s = (Ret (PStr x), s).
Proof.
  repeat split; try reflexivity.
  unfold convert_setting, py_int. by rewrite int_of_str_of_Z.
Qed.

(** C9 (the code departs from the claim). A boolean is an instance of
    [int], and [save_setting] tests [isinstance(value, int)] first: a boolean
    is stored under the tag ["int"] with the text ["True"] or ["False"], not
    under ["bool"].  [int] of that text raises [ValueError], so [get_setting]
    returns [None].  On the datastore of a first start,
    [save_setting("proxy_open", True)] returns [True], the row stored is
    [("proxy_open", "True", "int")], and [get_setting("proxy_open")] then
    returns [None], not [True]. *)
Theorem bool_setting_does_not_round_trip (b : bool) (s : state) :
  classify_setting B (PBool b) s = (Ret ("int", if b then "True" else "False"), s) ∧
  (∃ msg, convert_setting B (PStr (if b then "True" else "False")) (PStr "int") s
          = (Raise (ValueError msg), s)) ∧
  (save_setting B "proxy_open" (PBool true) Examples.fresh).1 = Ret (PBool true) ∧
  filter (λ r, matches [("setting_key", SText "proxy_open")] r = true)
         (stored system_settings
            (save_setting B "proxy_open" (PBool true) Examples.fresh).2)
  = [[("setting_key", SText "proxy_open"); ("setting_value", SText "True");
      ("setting_type", SText "int")]] ∧
  (get_setting B "proxy_open"
     (save_setting B "proxy_open" (PBool true) Examples.fresh).2).1 = Ret PNone.
Proof.
  split; [by destruct b|]. split; [destruct b; by eexists|].
  repeat split; vm_compute; reflexivity.
Qed.

End Settings.
(** *** Reads and failed writes leave the datastore as it was *)

Lemma reads_ret {A} (a : A) : reads (ret a).
Proof. by intros s r s' [= <- <-]. Qed.

Lemma reads_raise {A} (e : exn) : reads (raise (A := A) e).
Proof. by intros s r s' [= <- <-]. Qed.

Lemma reads_pure {A} (m : M state A) : (∀ s, (m s).2 = s) → reads m.
Proof. intros Hm s r s' H. specialize (Hm s). rewrite H in Hm. simpl in Hm. by subst. Qed.

Lemma reads_bind {A C} (m : M state A) (k : A → M state C) :
  reads m → (∀ a, reads (k a)) → reads (bind m k).
Proof.
  intros Hm Hk s r s'. unfold bind. destruct (m s) as [[a|e] s1] eqn:Em.
  - intros Hc. destruct (Hm _ _ _ Em) as (H1 & H2 & H3).
    destruct (Hk a _ _ _ Hc) as (H4 & H5 & H6). by rewrite H4, H5, H6.
  - intros [= <- <-]. by apply (Hm _ _ _ Em).
Qed.

Lemma reads_try_except {A} (m : M state A) (h : exn → M state A) :
  reads m → (∀ e, reads (h e)) → reads (try_except m h).
Proof.
  intros Hm Hh s r s'. unfold try_except. destruct (m s) as [[a|e] s1] eqn:Em.
  - intros [= <- <-]. by apply (Hm _ _ _ Em).
  - intros Hc. destruct (Hm _ _ _ Em) as (H1 & H2 & H3).
    destruct (Hh e _ _ _ Hc) as (H4 & H5 & H6). by rewrite H4, H5, H6.
Qed.

Lemma reads_for_each {A C} (xs : list A) (acc : C) (body : C → A → M state C) :
  (∀ c x, reads (body c x)) → reads (for_each xs acc body).
Proof.
  intros Hb. revert acc. induction xs as [|x xs IH]; intros acc; simpl.
  - apply reads_ret.
  - apply reads_bind; [apply Hb|]. intros c. apply IH.
Qed.

Lemma reads_sql_raise {A} msg : reads (sql_raise (A := A) msg).
Proof. by intros s r s' [= <- <-]. Qed.

Lemma reads_query r : reads (query r).
Proof.
  intros s a s'. unfold query. destruct r; [exact (reads_sql_raise _ s a s')|].
  by intros [= <- <-].
Qed.

Lemma reads_execute q : is_select q = true → reads (execute q).
Proof.
  intros Hq s r s' Hrun. unfold execute in Hrun.
  destruct (cursor (db s)) eqn:Hc; simpl in Hrun; rewrite <- Hc;
    [|exact (reads_sql_raise _ s r s' Hrun)].
  destruct (next_fault_errors s) as (_ & Hdb & Hst & _).
  destruct (next_fault s) as [f s1]. simpl in Hdb, Hst.
  assert (Hr : ∀ m : M state unit, reads m → m s1 = (r, s') →
               store s' = store s ∧ dirty (db s') = dirty (db s) ∧
               cursor (db s') = cursor (db s)).
  { intros m Hm Hm1. destruct (Hm _ _ _ Hm1) as (H1 & H2 & H3).
    by rewrite H1, H2, H3, Hst, Hdb. }
  destruct f; [exact (Hr _ (reads_sql_raise _) Hrun)|].
  destruct q; try done; simpl in Hrun.
  - destruct (bind_named w); [|exact (Hr _ (reads_sql_raise _) Hrun)].
    apply (Hr (query (run_select cols t l (view s1))) (reads_query _) Hrun).
  - apply (Hr (query (run_count alias t (view s1))) (reads_query _) Hrun).
  - destruct (bind_named w); [|exact (Hr _ (reads_sql_raise _) Hrun)].
    apply (Hr (query (run_select_one t l (view s1))) (reads_query _) Hrun).
Qed.

Lemma reads_fetchone : reads fetchone.
Proof.
  intros s a s' Hrun. unfold fetchone in Hrun.
  destruct (cursor (db s)) eqn:Hc; simpl in Hrun; rewrite <- Hc;
    [|exact (reads_sql_raise _ s a s' Hrun)].
  destruct (results (db s)); by injection Hrun as <- <-.
Qed.

Lemma reads_fetchall : reads fetchall.
Proof.
  intros s a s' Hrun. unfold fetchall in Hrun.
  destruct (cursor (db s)) eqn:Hc; simpl in Hrun; rewrite <- Hc;
    [|exact (reads_sql_raise _ s a s' Hrun)].
  by injection Hrun as <- <-.
Qed.

(** A [with] block whose body reads only commits nothing. *)
Lemma reads_with_db {A} (body : M state A) : reads body → reads (with_db body).
Proof.
  intros Hb s r s'. unfold with_db.
  destruct (body (__enter__ s)) as [r1 s1] eqn:Eb. intros [= <- <-].
  destruct (Hb _ _ _ Eb) as (H1 & H2 & H3). destruct (enter_store s) as [Hst Hd].
  rewrite Hd in H2. unfold __exit__. rewrite H2.
  destruct (cursor (db s1)); simpl; by rewrite H1, Hst.
Qed.

Lemma reads_row_get r c : reads (row_get r c).
Proof. apply reads_pure. intros s. unfold row_get. by destruct (assoc c r). Qed.

Lemma reads_dict_get d k v : reads (dict_get (S := state) d k v).
Proof. apply reads_pure. intros s. by destruct d. Qed.

Lemma reads_dict_setitem B d k v : reads (dict_setitem (S := state) B d k v).
Proof. apply reads_pure. intros s. by destruct d, k. Qed.

Lemma reads_convert_setting B v t : reads (convert_setting B v t).
Proof.
  apply reads_pure. intros s. unfold convert_setting.
  repeat case_match; try done;
    unfold py_int, py_float, py_json_loads, py_lower, bind, ret, raise;
    repeat case_match; simplify_eq; done.
Qed.

Create HintDb reads.

#[local] Hint Resolve reads_ret reads_raise reads_fetchone reads_fetchall
  reads_row_get reads_dict_get reads_dict_setitem reads_convert_setting : reads.

Ltac reads_step :=
  first
    [ solve [auto with reads]
    | apply reads_execute; reflexivity
    | apply reads_with_db
    | apply reads_try_except; [|intros]
    | apply reads_for_each; intros
    | apply reads_bind; [|intros]
    | match goal with
      | |- reads (match ?x with _ => _ end) => destruct x
      end ].

Ltac reads_tac :=
  unfold provider_config, model_config, model_config_one, composite_config;
  cbv zeta; repeat reads_step.

Lemma keeps_store_pure {A} (m : M state A) : (∀ s, (m s).2 = s) → keeps_store m.
Proof. intros Hm s r s' H. specialize (Hm s). rewrite H in Hm. simpl in Hm. by subst. Qed.

Lemma keeps_store_bind {A C} (m : M state A) (k : A → M state C) :
  keeps_store m → (∀ a, keeps_store (k a)) → keeps_store (bind m k).
Proof.
  intros Hm Hk s r s'. unfold bind. destruct (m s) as [[a|e] s1] eqn:Em.
  - intros Hc. rewrite (Hk a _ _ _ Hc). by apply (Hm _ _ _ Em).
  - intros [= <- <-]. by apply (Hm _ _ _ Em).
Qed.

Lemma keeps_store_reads {A} (m : M state A) : reads m → keeps_store m.
Proof. intros Hm s r s' H. by apply (Hm _ _ _ H). Qed.

(** A statement other than [CREATE TABLE] changes what the transaction
    sees, not the committed contents. *)
Lemma keeps_store_execute q : is_create q = false → keeps_store (execute q).
Proof.
  intros Hq s r s' Hrun. unfold execute in Hrun.
  destruct (cursor (db s)); simpl in Hrun; [|by injection Hrun as <- <-].
  destruct (next_fault_errors s) as (_ & _ & Hst & _).
  destruct (next_fault s) as [f s1]. simpl in Hst. rewrite <- Hst.
  destruct f; [by injection Hrun as <- <-|].
  assert (Hch : ∀ c, keeps_store (change c)).
  { intros c s0 r0 s0'. unfold change, sql_raise.
    destruct (locked s0 && negb (dirty (db s0))); [by intros [= <- <-]|].
    destruct (c (view s0)); by intros [= <- <-]. }
  assert (Hqu : ∀ c, keeps_store (query c)).
  { intros c. apply keeps_store_reads, reads_query. }
  destruct q; try done; simpl in Hrun; repeat case_match;
    first [ by injection Hrun as <- <-
          | by apply Hch in Hrun
          | by eapply (Hqu _ s1 r s') ].
Qed.

Lemma returns_true_ret : returns_true (ret (PBool true)).
Proof. intros s r s' [= <- <-]. by left. Qed.

Lemma returns_true_bind {A} (m : M state A) (k : A → M state pyval) :
  (∀ a, returns_true (k a)) → returns_true (bind m k).
Proof.
  intros Hk s r s'. unfold bind. destruct (m s) as [[a|e] s1].
  - apply Hk.
  - intros [= <- <-]. by right.
Qed.

(** A [with] block that raises commits nothing. *)
Lemma with_db_all_or_nothing (m : M state pyval) :
  keeps_store m → returns_true m → all_or_nothing (with_db m).
Proof.
  intros Hk Ht s r s'. unfold with_db.
  destruct (m (__enter__ s)) as [r1 s1] eqn:Em. intros [= <- <-].
  destruct (Ht _ _ _ Em) as [->|Hr]; [by left|]. right. split; [done|].
  rewrite Hr. pose proof (Hk _ _ _ Em) as Hs. destruct (enter_store s) as [Hst _].
  unfold __exit__. destruct (cursor (db s1)), (dirty (db s1)); simpl; congruence.
Qed.

Lemma all_or_nothing_bind {A} (m : M state A) (k : A → M state pyval) :
  (∀ s, (m s).2 = s) → (∀ a, all_or_nothing (k a)) → all_or_nothing (bind m k).
Proof.
  intros Hm Hk s r s'. unfold bind. specialize (Hm s).
  destruct (m s) as [[a|e] s1]; simpl in Hm; subst s1.
  - apply Hk.
  - intros [= <- <-]. by right.
Qed.

(** An operation that answers [False] went through its [except] clause. *)
Lemma try_except_all_or_nothing (m : M state pyval) s s' :
  all_or_nothing m →
  try_except m (λ _, ret (PBool false)) s = (Ret (PBool false), s') →
  store s' = store s.
Proof.
  intros Hm. unfold try_except, ret. destruct (m s) as [[a|e] s1] eqn:Em.
  - intros [= -> <-]. by destruct (Hm _ _ _ Em) as [?|[? ?]].
  - intros [= <-]. by destruct (Hm _ _ _ Em) as [?|[? ?]].
Qed.

Lemma dict_get_pure d k v (s : state) : (dict_get d k v s).2 = s.
Proof. by destruct d. Qed.

Lemma classify_setting_pure B v (s : state) : (classify_setting B v s).2 = s.
Proof.
  unfold classify_setting, py_json_dumps, bind, ret, raise.
  repeat case_match; simplify_eq; done.
Qed.

Ltac write_step :=
  first
    [ apply all_or_nothing_bind; [apply dict_get_pure|intros]
    | apply all_or_nothing_bind; [apply classify_setting_pure|intros]
    | apply with_db_all_or_nothing
    | apply returns_true_ret
    | apply returns_true_bind; intros
    | apply keeps_store_execute; reflexivity
    | apply keeps_store_reads; solve [auto with reads]
    | apply keeps_store_bind; [|intros]
    | match goal with
      | |- keeps_store (if ?x then _ else _) => destruct x
      | |- keeps_store (match ?x with _ => _ end) => destruct x
      | |- returns_true (match ?x with _ => _ end) => destruct x
      end ].

Section ReadsAndWrites.
Variable B : builtins.

Lemma write_all_or_nothing (op : operation) (s s' : state) :
  is_write op = true → is_bulk op = false →
  perform B op s = (Ret (PBool false), s') → store s' = store s.
Proof.
  destruct op; try done; intros _ _; simpl;
    unfold save_provider, delete_provider, save_model, delete_model,
      save_composite_model, delete_composite_model, save_setting, delete_setting;
    apply try_except_all_or_nothing; cbv zeta; repeat write_step.
Qed.

Lemma reads_operation (op : operation) : is_write op = false → reads (perform B op).
Proof.
  destruct op; try done; intros _; simpl;
    unfold get_all_providers, get_all_providers_try, get_provider_for_name,
      get_provider_for_id, get_all_models, get_model_for_name, get_model_for_id,
      get_all_composite_models, get_composite_model, get_setting, get_all_settings,
      export_config;
    reads_tac.
Qed.


(** X11. A write operation other than the bulk import that answers
    [False] has changed nothing: the committed contents of the datastore
    are what they were before the call.  (Each of them makes its change in
    one [with] block, which is rolled back when the block raises.) *)
Theorem failed_write_changes_nothing (op : operation) (s s' : state) :
  is_write op = true → is_bulk op = false →
  perform B op s = (Ret (PBool false), s') →
  store s' = store s ∧ ∀ t, stored t s' = stored t s.
Proof.
  intros Hw Hb Hp. pose proof (write_all_or_nothing op s s' Hw Hb Hp) as Hs.
  split; [done|]. intros t. unfold stored. by rewrite Hs.
Qed.

End ReadsAndWrites.


Lemma failed_write_changes_nothing_witness :
  stored providers
    (perform Examples.plain (DeleteProvider (PInt 1))
       (with_faults [false; true] Examples.with_p1)).2
  = stored providers Examples.with_p1.
Proof.
  destruct (perform Examples.plain (DeleteProvider (PInt 1))
              (with_faults [false; true] Examples.with_p1)) as [r s'] eqn:Hp.
  assert (Hr : r = Ret (PBool false)).
  { vm_compute in Hp. by injection Hp as <- _. }
  subst r.
  exact (proj2 (failed_write_changes_nothing Examples.plain (DeleteProvider (PInt 1))
                  (with_faults [false; true] Examples.with_p1) s'
                  eq_refl eq_refl Hp) providers).
Defined.

(** *** Runs without fault *)

(** With no fault to come, the [with] block is entered with a cursor and
    a clean transaction on the committed contents. *)
Lemma enter_calm s :
  faults s = [] → __enter__ s = set_db (Handle true false (store s) []) s.
Proof. intros Hf. unfold __enter__, next_fault. by rewrite Hf. Qed.

(** One data change in a [with] block, when no fault occurs and no other
    connection holds the write lock: the change is committed on leaving the
    block, or the block raises. *)
Lemma with_db_change_calm {A} (q : stmt) (f : database → string + database)
    (v : A) (s : state) :
  faults s = [] → locked s = false → run_stmt q = change f →
  with_db (execute q ;; ret v) s =
  match f (store s) with
  | inr d' =>
      (Ret v, State d' false [] (errors s) (commit_failures s) (db s))
  | inl msg =>
      (Raise (SqliteError msg),
       State (store s) false [] (S (errors s)) (commit_failures s) (db s))
  end.
Proof.
  intros Hf Hl Hq. unfold with_db. rewrite (enter_calm s Hf). rewrite bind_run.
  unfold execute. cbn [db set_db cursor negb]. unfold next_fault.
  cbn [faults set_db]. rewrite Hf, Hq. unfold change, view.
  cbn [locked set_db db dirty negb store]. rewrite Hl. cbn [andb].
  destruct (f (store s)) as [msg|d']; cbn.
  - unfold __exit__, set_db. cbn. by rewrite ?Hl, ?Hf.
  - unfold __exit__, next_fault, set_db. cbn. by rewrite ?Hl, ?Hf.
Qed.


(** A lookup of one record, when no fault occurs: the first stored row that
    satisfies the [WHERE] clause, decoded. *)
Lemma lookup_calm cols t w w' (k : row → M state pyval) (f : row → pyval) s x :
  faults s = [] → get_table t (store s) = Some x → bind_named w = Some w' →
  all_columns t cols = true → all_columns t (w'.*1) = true →
  (∀ r s0, k (project cols r) s0 = (Ret (f r), s0)) →
  (try_except
     (with_db (execute (Select cols t w) ;;
               row <- fetchone ;;
               match row with Some r => k r | None => ret PNone end))
     (λ _, ret PNone) s).1
  = Ret (match filter (λ r, matches w' r = true) (rows x) with
         | [] => PNone
         | r :: _ => f r
         end).
Proof.
  intros Hf Hx Hw Hc Hwc Hk. unfold try_except, with_db. rewrite (enter_calm s Hf).
  rewrite bind_run. unfold execute. cbn [db set_db cursor negb]. unfold next_fault.
  cbn [faults set_db]. rewrite Hf. cbn [run_stmt]. rewrite Hw.
  unfold query, run_select, view. cbn [db set_db dirty store]. rewrite Hx, Hc, Hwc.
  cbn [andb]. rewrite bind_run. unfold fetchone. cbn [db set_db cursor negb results].
  destruct (filter _ (rows x)) as [|r rest]; [done|].
  rewrite fmap_cons. cbn match. by rewrite Hk.
Qed.

Lemma max_id_ge (l : list row) (r : row) (z : Z) :
  r ∈ l → field "id" r = SInt z → (z ≤ max_id l)%Z.
Proof.
  intros Hin Hz. induction l as [|r' l IH]; [by apply elem_of_nil in Hin|].
  cbn [max_id foldr]. fold (max_id l).
  apply elem_of_cons in Hin as [<-|Hin].
  - rewrite Hz. lia.
  - specialize (IH Hin). destruct (field "id" r'); lia.
Qed.

(** An identifier above all those of the table is the [id] of no row. *)
Lemma fresh_id (l : list row) (z : Z) :
  (max_id l < z)%Z → existsb (λ r, sql_eq (field "id" r) (SInt z)) l = false.
Proof.
  intros Hz. apply not_true_is_false. intros (r & Hin & Heq)%existsb_exists.
  apply list_elem_of_In in Hin. apply sql_eq_int in Heq.
  pose proof (max_id_ge l r z Hin Heq). lia.
Qed.

Lemma no_match_text (c : string) (x : string) (l : list row) :
  (∀ r, r ∈ l → field c r ≠ SText x) →
  existsb (λ r, sql_eq (field c r) (SText x)) l = false ∧
  filter (λ r, matches [(c, SText x)] r = true) l = [].
Proof.
  intros Hne. split.
  - apply not_true_is_false. intros (r & Hin & Heq)%existsb_exists.
    apply list_elem_of_In in Hin. apply sql_eq_text in Heq. by apply (Hne r).
  - induction l as [|r l IH]; [done|]. rewrite filter_cons.
    rewrite decide_False.
    + apply IH. intros r' Hr'. apply Hne. by right.
    + cbn [matches forallb fst snd]. rewrite andb_true_r. intros Heq%sql_eq_text.
      apply (Hne r); [left|done].
Qed.


(** X12. On a datastore without fault and without a writer, where no
    provider has the name yet, [save_provider] of a configuration with no
    [id] returns [True] and commits one new row, whose [id] is above every
    [id] of the table; [get_provider_for_name] then returns the record with
    that [id] and the values saved, [is_valid] being the truth value of what
    was given. *)
Theorem save_provider_then_lookup (s : state) (x : table)
    (name key url addr fmt : string) (valid : pyval) :
  faults s = [] → locked s = false → get_table providers (store s) = Some x →
  (∀ r, r ∈ rows x → field "provider_name" r ≠ SText name) →
  let config :=
    PDict [ ("provider_name", PStr name); ("api_key", PStr key);
            ("api_base_url", PStr url); ("api_request_address", PStr addr);
            ("provider_format", PStr fmt); ("is_valid", valid) ] in
  let id := (Z.max (last_id x) (max_id (rows x)) + 1)%Z in
  ∃ s', save_provider config s = (Ret (PBool true), s') ∧
        stored providers s' =
          rows x ++ [[ ("id", SInt id); ("provider_name", SText name);
                       ("api_key", SText key); ("api_base_url", SText url);
                       ("api_request_address", SText addr);
                       ("provider_format", SText fmt);
                       ("is_valid", SInt (if truthy valid then 1 else 0)) ]] ∧
        (get_provider_for_name name s').1 =
          Ret (PDict [ ("id", PInt id); ("provider_name", PStr name);
                       ("api_key", PStr key); ("api_base_url", PStr url);
                       ("api_request_address", PStr addr);
                       ("provider_format", PStr fmt);
                       ("is_valid", PBool (truthy valid)) ]).
Proof.
  intros Hf Hl Hx Hname config id.
  destruct (no_match_text "provider_name" name (rows x) Hname) as [Hex Hfl].
  assert (Hid : existsb (λ r, sql_eq (field "id" r) (SInt id)) (rows x) = false).
  { apply fresh_id. unfold id. lia. }
  unfold save_provider, try_except, config. cbn [bind dict_get ret assoc String.eqb Ascii.eqb Bool.eqb truthy].
  rewrite (with_db_change_calm _
             (run_insert false providers
                ["provider_name"; "api_key"; "api_base_url"; "api_request_address";
                 "provider_format"; "is_valid"]
                [SText name; SText key; SText url; SText addr; SText fmt;
                 SInt (if truthy valid then 1 else 0)]) _ s Hf Hl).
  2: { cbn [run_stmt bind_all bind_param]. by destruct (truthy valid). }
  unfold run_insert. rewrite Hx. fold id.
  cbn -[Z.max Z.add max_id id]. rewrite Hid, Hex. cbn [negb andb].
  eexists. split; [reflexivity|]. split; [reflexivity|].
  unfold get_provider_for_name.
  erewrite (lookup_calm provider_columns providers _ [("provider_name", SText name)]
              provider_config provider_dict);
    [|reflexivity|reflexivity|reflexivity|reflexivity|reflexivity
     |intros; apply provider_config_project].
  cbn [rows]. rewrite filter_app, Hfl, filter_cons, decide_True.
  - cbn -[Z.max Z.add max_id id]. by destruct (truthy valid).
  - cbn [matches forallb fst snd field assoc String.eqb Ascii.eqb Bool.eqb sql_eq].
    by rewrite String.eqb_refl.
Qed.

Lemma save_provider_then_lookup_witness :
  ∃ s', save_provider Examples.provider_p1 Examples.fresh = (Ret (PBool true), s') ∧
        (get_provider_for_name "p1" s').1 =
          Ret (PDict [ ("id", PInt 1); ("provider_name", PStr "p1");
                       ("api_key", PStr "sk-1");
                       ("api_base_url", PStr "https://api.example.com");
                       ("api_request_address", PStr "/v1/chat/completions");
                       ("provider_format", PStr "openai");
                       ("is_valid", PBool true) ]).
Proof.
  destruct (save_provider_then_lookup Examples.fresh (Table [] 0) "p1" "sk-1"
              "https://api.example.com" "/v1/chat/completions" "openai" (PBool true))
    as (s' & Hs & _ & Hg);
    [reflexivity | reflexivity | reflexivity
    | intros r Hr; by apply elem_of_nil in Hr |].
  exists s'. split; [|exact Hg].
  rewrite <- Hs. reflexivity.
Defined.

(** *** Settings saved and read back *)

Lemma field_assign (c : string) (sets : list (string * sqlval)) (r : row) :
  field c (assign sets r) =
  match assoc c r with
  | None => SNull
  | Some old => match assoc c sets with Some v => v | None => old end
  end.
Proof.
  unfold field. induction r as [|[c' v'] r IH]; [done|].
  cbn [assign fmap list_fmap assoc fst snd]. destruct (String.eqb_spec c' c) as [->|Hne].
  - done.
  - exact IH.
Qed.

(** An [UPDATE] that succeeds has replaced every row that satisfies its
    [WHERE] clause, and the rows it wrote satisfy [NOT NULL]. *)
Lemma update_rows_Some t sets w d (todo done l : list row) :
  update_rows t sets w done todo d = Some l →
  l = done ++ ((λ r, if matches w r then assign sets r else r) <$> todo) ∧
  ∀ r, r ∈ todo → matches w r = true → not_null_ok t (assign sets r) = true.
Proof.
  revert done. induction todo as [|r todo IH]; intros done Hu.
  - simpl in Hu. injection Hu as <-. split; [by rewrite app_nil_r|].
    intros r Hr. by apply elem_of_nil in Hr.
  - cbn [update_rows] in Hu. destruct (matches w r) eqn:Hm.
    + destruct (not_null_ok t (assign sets r)) eqn:Hnn; [|done].
      destruct (unique_ok t (done ++ todo) (assign sets r)); [|done].
      destruct (parents_ok t (assign sets r) d); [|done]. cbn [andb] in Hu.
      destruct (IH _ Hu) as [-> Hall]. split.
      * rewrite fmap_cons, Hm. by rewrite <- app_assoc.
      * intros r' [->|Hr']%elem_of_cons; [done|]. by apply Hall.
    + destruct (IH _ Hu) as [-> Hall]. split.
      * rewrite fmap_cons, Hm. by rewrite <- app_assoc.
      * intros r' [->|Hr']%elem_of_cons; [congruence|]. by apply Hall.
Qed.

Lemma filter_fmap_same {A} (P : A → Prop) `{∀ x, Decision (P x)} (g : A → A) (l : list A) :
  (∀ x, P (g x) ↔ P x) → filter P (g <$> l) = g <$> filter P l.
Proof.
  intros Hg. induction l as [|x l IH]; [done|].
  rewrite fmap_cons, !filter_cons. destruct (decide (P x)) as [Hx|Hx].
  - rewrite decide_True by (by apply Hg). by rewrite fmap_cons, IH.
  - rewrite decide_False by (by rewrite Hg). done.
Qed.

Tactic Notation "state_fields" "in" hyp(H) :=
  cbn [set_db cursor work dirty results db store locked faults errors commit_failures
       negb] in H.

Section SettingsRoundTrip.
Variable B : builtins.

Lemma save_setting_stored key v tag text (s s' : state) :
  faults s = [] → locked s = false →
  classify_setting B v s = (Ret (tag, text), s) →
  save_setting B key v s = (Ret (PBool true), s') →
  faults s' = [] ∧
  ∃ x' r0 rest,
    get_table system_settings (store s') = Some x' ∧
    filter (λ r, matches [("setting_key", SText key)] r = true) (rows x') = r0 :: rest ∧
    ∀ r, r ∈ r0 :: rest →
         field "setting_value" r = SText text ∧ field "setting_type" r = SText tag.
Proof.
  intros Hf Hl Hc Hsave. unfold save_setting, try_except in Hsave.
  rewrite bind_run, Hc in Hsave. cbv zeta in Hsave.
  cbn [fst snd] in Hsave. unfold with_db in Hsave. rewrite (enter_calm s Hf) in Hsave.
  rewrite bind_run in Hsave.
  unfold execute at 1 in Hsave. cbn [db set_db cursor negb] in Hsave.
  unfold next_fault in Hsave.
  cbn [faults set_db] in Hsave. rewrite Hf in Hsave.
  cbn [run_stmt bind_named bind_param] in Hsave.
  unfold query, run_select_one, view in Hsave. cbn [db set_db dirty store] in Hsave.
  destruct (get_table system_settings (store s)) as [x|] eqn:Hx; [|done].
  cbn [all_columns forallb fmap list_fmap fst has_column existsb column_names schema cname
       String.eqb Ascii.eqb Bool.eqb orb andb] in Hsave.
  unfold set_db in Hsave. state_fields in Hsave.
  rewrite bind_run in Hsave. unfold fetchone in Hsave. state_fields in Hsave.
  destruct (filter _ (rows x)) as [|r0 rest] eqn:Hfl.
  - (* no row with that key: [INSERT] *)
    cbn [fmap list_fmap] in Hsave. rewrite bind_run in Hsave. unfold execute in Hsave.
    state_fields in Hsave.
    unfold next_fault in Hsave. cbn [faults] in Hsave. rewrite Hf in Hsave.
    cbn [run_stmt bind_all bind_param all_columns forallb has_column existsb column_names
         schema cname fmap list_fmap String.eqb Ascii.eqb Bool.eqb orb andb] in Hsave.
    unfold change, view in Hsave. state_fields in Hsave.
    rewrite Hl in Hsave. cbn [andb] in Hsave. unfold run_insert in Hsave.
    rewrite Hx in Hsave.
    cbn -[Z.max Z.add max_id unique_ok sql_raise __exit__] in Hsave.
    destruct (unique_ok _ _ _); cbn -[__exit__] in Hsave; [|done].
    unfold __exit__, next_fault in Hsave. cbn in Hsave. injection Hsave as <-.
    split; [done|]. cbn [store get_table t_system_settings].
    eexists _, _, _. split; [reflexivity|]. cbn [rows]. split.
    + rewrite filter_app, Hfl, filter_cons, decide_True; [reflexivity|].
      cbn [matches forallb fst snd field assoc String.eqb Ascii.eqb Bool.eqb sql_eq].
      by rewrite String.eqb_refl.
    + intros r ->%list_elem_of_singleton. by split.
  - (* a row with that key: [UPDATE] *)
    cbn [fmap list_fmap] in Hsave. rewrite bind_run in Hsave. unfold execute in Hsave.
    state_fields in Hsave.
    unfold next_fault in Hsave. cbn [faults] in Hsave. rewrite Hf in Hsave.
    cbn [run_stmt bind_named bind_param all_columns forallb has_column existsb column_names
         schema cname fmap list_fmap fst String.eqb Ascii.eqb Bool.eqb orb andb] in Hsave.
    unfold change, view in Hsave. state_fields in Hsave.
    rewrite Hl in Hsave. cbn [andb] in Hsave. unfold run_update in Hsave.
    rewrite Hx in Hsave.
    cbn [all_columns forallb has_column existsb column_names
         schema cname fmap list_fmap fst String.eqb Ascii.eqb Bool.eqb orb andb negb] in Hsave.
    destruct (update_rows _ _ _ _ _ _) as [l|] eqn:Hu; cbn -[__exit__] in Hsave; [|done].
    unfold __exit__, next_fault in Hsave. cbn in Hsave. injection Hsave as <-.
    split; [done|]. cbn [store get_table t_system_settings].
    apply update_rows_Some in Hu as [-> Hnn]. cbn [app] in *.
    set (sets := [("setting_value", SText text); ("setting_type", SText tag)]) in *.
    set (g := λ r : row, if matches [("setting_key", SText key)] r
                         then assign sets r else r).
    assert (Hkey : ∀ r, matches [("setting_key", SText key)] (g r) = true ↔
                        matches [("setting_key", SText key)] r = true).
    { intros r. unfold g. destruct (matches _ r) eqn:Hm; [|by rewrite Hm].
      split; [done|]. intros _. revert Hm. cbn [matches forallb fst snd].
      rewrite field_assign. unfold field.
      by destruct (assoc "setting_key" r). }
    eexists _, (g r0), (g <$> rest). split; [reflexivity|]. cbn [rows]. split.
    + rewrite (filter_fmap_same _ g _ Hkey), Hfl. done.
    + intros r Hr. rewrite <- fmap_cons, <- Hfl in Hr.
      apply list_elem_of_fmap in Hr as (r' & -> & [Hm Hin]%list_elem_of_filter).
      unfold g. rewrite Hm. specialize (Hnn r' Hin Hm). revert Hnn.
      cbn [not_null_ok forallb schema not_null cname andb negb].
      rewrite !field_assign. unfold sets.
      cbn [assoc String.eqb Ascii.eqb Bool.eqb].
      destruct (assoc "setting_value" r'), (assoc "setting_type" r'); done.
Qed.


(** The conversion of a stored value does not depend on the state. *)
Lemma convert_setting_result v t (s0 s1 : state) :
  (convert_setting B v t s0).1 = (convert_setting B v t s1).1.
Proof.
  unfold convert_setting.
  repeat case_match; try done;
    unfold py_int, py_float, py_json_loads, py_lower, bind, ret, raise;
    repeat case_match; simplify_eq; done.
Qed.

Lemma get_setting_calm key (s : state) (x : table) :
  faults s = [] → get_table system_settings (store s) = Some x →
  (get_setting B key s).1 =
  match filter (λ r, matches [("setting_key", SText key)] r = true) (rows x) with
  | [] => Ret PNone
  | r :: _ =>
      match (convert_setting B (to_py (field "setting_value" r))
               (to_py (field "setting_type" r)) s).1 with
      | Ret v => Ret v
      | Raise _ => Ret PNone
      end
  end.
Proof.
  intros Hf Hx. unfold get_setting, try_except, with_db. rewrite (enter_calm s Hf).
  rewrite bind_run. unfold execute. cbn [db set_db cursor negb]. unfold next_fault.
  cbn [faults set_db]. rewrite Hf. cbn [run_stmt bind_named bind_param].
  unfold query, run_select, view. cbn [db set_db dirty store]. rewrite Hx.
  cbn [all_columns forallb fmap list_fmap fst has_column existsb column_names schema cname
       String.eqb Ascii.eqb Bool.eqb orb andb].
  rewrite bind_run. unfold fetchone. cbn [db set_db cursor negb results].
  destruct (filter _ (rows x)) as [|r rest]; [done|].
  rewrite fmap_cons. cbn match.
  rewrite bind_run, row_get_project, bool_decide_eq_true_2 by list_member.
  rewrite bind_run, row_get_project, bool_decide_eq_true_2 by list_member.
  match goal with |- context [convert_setting B ?a ?b ?s0] =>
    rewrite (convert_setting_result a b s s0);
    destruct (convert_setting B a b s0) as [[c|e] s3]
  end; done.
Qed.


(** X13. On a datastore without fault and without a writer, an integer or
    a string that [save_setting] reports as saved is what [get_setting]
    returns for that key afterwards, whether the key was new or already
    there. *)
Theorem setting_round_trip (key : string) (z : Z) (x : string) (s s' : state) :
  faults s = [] → locked s = false →
  (save_setting B key (PInt z) s = (Ret (PBool true), s') →
     (get_setting B key s').1 = Ret (PInt z)) ∧
  (save_setting B key (PStr x) s = (Ret (PBool true), s') →
     (get_setting B key s').1 = Ret (PStr x)).
Proof.
  intros Hf Hl. destruct (int_and_str_settings B z x s) as (Hci & _ & Hcs & _).
  split; intros Hsave.
  - destruct (save_setting_stored key _ _ _ s s' Hf Hl Hci Hsave)
      as (Hf' & x' & r0 & rest & Hx' & Hfl & Hall).
    rewrite (get_setting_calm key s' x' Hf' Hx'), Hfl.
    destruct (Hall r0) as [-> ->]; [left|]. cbn [to_py].
    destruct (int_and_str_settings B z x s') as (_ & -> & _). done.
  - destruct (save_setting_stored key _ _ _ s s' Hf Hl Hcs Hsave)
      as (Hf' & x' & r0 & rest & Hx' & Hfl & Hall).
    rewrite (get_setting_calm key s' x' Hf' Hx'), Hfl.
    destruct (Hall r0) as [-> ->]; [left|]. cbn [to_py].
    destruct (int_and_str_settings B z x s') as (_ & _ & _ & ->). done.
Qed.

(** A loop raises when its body raises on one of the elements. *)
Lemma for_each_raises {A C} (body : C → A → M state C) (xs : list A) (x : A) :
  x ∈ xs → (∀ acc s, is_raise (body acc x s).1 = true) →
  ∀ acc s, is_raise (for_each xs acc body s).1 = true.
Proof.
  intros Hin Hx. induction xs as [|x0 xs IH]; intros acc s;
    [by apply elem_of_nil in Hin|].
  cbn [for_each]. rewrite bind_run. destruct (body acc x0 s) as [[acc'|e] s1] eqn:Hb.
  - apply elem_of_cons in Hin as [->|Hin]; [|by apply IH].
    specialize (Hx acc s). by rewrite Hb in Hx.
  - done.
Qed.

Lemma stored_rows t (s : state) (r : row) :
  r ∈ stored t s → ∃ x, get_table t (store s) = Some x ∧ r ∈ rows x.
Proof.
  unfold stored. destruct (get_table t (store s)) as [x|]; [by exists x|].
  by intros ?%elem_of_nil.
Qed.

Lemma bad_setting_hides_all (s : state) (r : row) :
  r ∈ stored system_settings s →
  is_raise (convert_setting B (to_py (field "setting_value" r))
              (to_py (field "setting_type" r)) s).1 = true →
  (get_all_settings B s).1 = Ret (PDict []).
Proof.
  intros (x & Hx & Hin)%stored_rows Hbad. unfold get_all_settings.
  match goal with |- (try_except ?m _ s).1 = _ =>
    destruct (try_except_returns m (PDict []) s) as (v & s' & -> & Hraise & Hret);
    destruct (m s) as [[a|e] s1] eqn:Hm;
      [|by destruct (Hraise e s1 eq_refl) as [-> _]]
  end.
  exfalso. apply (f_equal fst) in Hm. rewrite with_db_result in Hm. cbn [fst] in Hm.
  destruct (enter_store s) as [Hst Hd]. rewrite bind_run in Hm.
  destruct (execute _ (__enter__ s)) as [[[]|e] s2] eqn:He; [|done].
  apply execute_select in He as (w' & x0 & [= <-] & Hx0 & _ & _ & _ & Hr).
  unfold view in Hx0. rewrite Hd, Hst, Hx in Hx0. injection Hx0 as <-.
  rewrite bind_run in Hm. destruct (fetchall s2) as [[rs|e] s3] eqn:Hfa; [|done].
  apply fetchall_results in Hfa as [-> _]. rewrite Hr, filter_all in Hm.
  match type of Hm with (for_each ?xs ?acc ?body ?s0).1 = _ =>
    pose proof (for_each_raises body xs
                  (project ["setting_key"; "setting_value"; "setting_type"] r)) as Hfe
  end.
  assert (Hall : is_raise
            (for_each (project ["setting_key"; "setting_value"; "setting_type"] <$> rows x)
               (PDict []) 
               (λ result row,
                  key <- row_get row "setting_key" ;;
                  value <- row_get row "setting_value" ;;
                  type_name <- row_get row "setting_type" ;;
                  converted <- convert_setting B value type_name ;;
                  dict_setitem B result key converted) s3).1 = true).
  { apply Hfe.
    - by apply list_elem_of_fmap_2.
    - intros acc s0. rewrite !bind_run.
      rewrite row_get_project, bool_decide_eq_true_2 by list_member.
      rewrite bind_run, row_get_project, bool_decide_eq_true_2 by list_member.
      rewrite bind_run, row_get_project, bool_decide_eq_true_2 by list_member.
      rewrite bind_run.
      rewrite (convert_setting_result _ _ s s0) in Hbad.
      by destruct (convert_setting B _ _ s0) as [[c|e] s4]. }
  by rewrite Hm in Hall.
Qed.

(** X14. One stored setting whose conversion fails hides them all:
    [get_all_settings] returns the empty dictionary as soon as the value of
    one row cannot be converted according to its type tag.  Such a row is
    what a boolean saved by [save_setting] leaves: after it, on a datastore
    without fault, [get_all_settings] returns the empty dictionary, and
    [get_setting] of that key returns [None]. *)
Theorem one_bad_setting_hides_all (s : state) (r : row) (key : string) (b : bool)
    (s0 s1 : state) :
  (r ∈ stored system_settings s →
   is_raise (convert_setting B (to_py (field "setting_value" r))
               (to_py (field "setting_type" r)) s).1 = true →
   (get_all_settings B s).1 = Ret (PDict [])) ∧
  (faults s0 = [] → locked s0 = false →
   save_setting B key (PBool b) s0 = (Ret (PBool true), s1) →
   (get_all_settings B s1).1 = Ret (PDict []) ∧
   (get_setting B key s1).1 = Ret PNone).
Proof.
  split; [apply bad_setting_hides_all|]. intros Hf Hl Hsave.
  assert (Hc : classify_setting B (PBool b) s0
               = (Ret ("int", if b then "True" else "False"), s0)) by (by destruct b).
  destruct (save_setting_stored key _ _ _ s0 s1 Hf Hl Hc Hsave)
    as (Hf' & x' & r0 & rest & Hx' & Hfl & Hall).
  destruct (Hall r0) as [Hv Ht]; [left|].
  assert (Hbad : ∀ s2, (convert_setting B (to_py (field "setting_value" r0))
                          (to_py (field "setting_type" r0)) s2).1
                       = Raise (ValueError "invalid literal for int()")).
  { intros s2. rewrite Hv, Ht. by destruct b. }
  split.
  - apply (bad_setting_hides_all s1 r0); [|by rewrite Hbad].
    unfold stored. rewrite Hx'.
    assert (Hin : r0 ∈ filter (λ r, matches [("setting_key", SText key)] r = true)
                    (rows x')) by (rewrite Hfl; left).
    by apply list_elem_of_filter in Hin as [_ ?].
  - rewrite (get_setting_calm key s1 x' Hf' Hx'), Hfl. by rewrite Hbad.
Qed.


End SettingsRoundTrip.

Lemma setting_round_trip_witness :
  (get_setting Examples.plain "retries"
     (save_setting Examples.plain "retries" (PInt 3) Examples.fresh).2).1
  = Ret (PInt 3).
Proof.
  destruct (save_setting Examples.plain "retries" (PInt 3) Examples.fresh)
    as [r s'] eqn:Hs.
  assert (Hr : r = Ret (PBool true)).
  { vm_compute in Hs. by injection Hs as <- _. }
  subst r.
  exact (proj1 (setting_round_trip Examples.plain "retries" 3 "" Examples.fresh s'
                  eq_refl eq_refl) Hs).
Defined.

(** *** Start-up *)

(** X15. On a datastore without fault and without a writer, whatever it
    holds, [_init_db] returns; afterwards the four tables exist, the rows of
    [providers], [models] and [composite_models] are what they were, the
    settings are what they were when there were some, and are the eight
    default settings when there were none; and running [_init_db] again on
    the result changes nothing. *)
Theorem init_db_is_idempotent (s : state) :
  faults s = [] → locked s = false →
  ∃ s', _init_db s = (Ret tt, s') ∧
        _init_db s' = (Ret tt, s') ∧
        (∀ t, get_table t (store s') ≠ None) ∧
        (∀ t, t ≠ system_settings → stored t s' = stored t s) ∧
        (stored system_settings s ≠ [] →
         stored system_settings s' = stored system_settings s) ∧
        (stored system_settings s = [] →
         stored system_settings s' = seeded_settings).
Proof.
  intros Hf Hl. destruct s as [[p m c st] lk fs er cf h]. simpl in Hf, Hl. subst.
  destruct p as [p|], m as [m|], c as [c|], st as [[[|r rs] l]|];
    (eexists; split; [vm_compute; reflexivity|]);
    (split; [vm_compute; reflexivity|]);
    (split; [by intros []|]);
    (split; [by intros []|]);
    (split; [intros Hne; try done; vm_compute in Hne; try done|]);
    intros He; try done; vm_compute in He; try done.
Qed.

Lemma init_db_is_idempotent_witness :
  ∃ s', _init_db (quiet empty_database) = (Ret tt, s') ∧
        _init_db s' = (Ret tt, s') ∧
        stored system_settings s' = seeded_settings.
Proof.
  destruct (init_db_is_idempotent (quiet empty_database) eq_refl eq_refl)
    as (s' & H1 & H2 & _ & _ & _ & H3).
  exists s'. split; [exact H1|]. split; [exact H2|]. exact (H3 eq_refl).
Defined.

(** *** Deletions *)

Lemma filter_excluded {A} (P Q : A → Prop) `{∀ x, Decision (P x)} `{∀ x, Decision (Q x)}
    (l : list A) :
  (∀ x, Q x → ¬ P x) → filter P (filter Q l) = [].
Proof.
  intros Hpq. induction l as [|x l IH]; [done|].
  rewrite (filter_cons Q). destruct (decide (Q x)) as [Hq|Hq]; [|done].
  rewrite filter_cons, decide_False by (by apply Hpq). done.
Qed.

(** A [DELETE] by one column, in a [with] block of its own, when no fault
    occurs: when the operation answers [True], the rows that satisfy the
    [WHERE] clause are gone and the others are there. *)
Lemma delete_calm t c (v : pyval) (s s' : state) :
  faults s = [] → locked s = false →
  try_except (with_db (execute (Delete t [(c, v)]) ;; ret (PBool true)))
             (λ _, ret (PBool false)) s = (Ret (PBool true), s') →
  ∃ v' x, bind_param v = Some v' ∧ get_table t (store s) = Some x ∧
          faults s' = [] ∧ locked s' = false ∧
          store s' = set_table t (Table (filter (λ r, matches [(c, v')] r = false) (rows x))
                                        (last_id x)) (store s).
Proof.
  intros Hf Hl Hdel. unfold try_except in Hdel.
  destruct (bind_param v) as [v'|] eqn:Hv.
  - destruct (all_columns t [c]) eqn:Hc.
    + rewrite (with_db_change_calm _ (run_delete t [(c, v')]) _ s Hf Hl) in Hdel.
      2: { cbn [run_stmt bind_named]. rewrite Hv. cbn [fmap list_fmap fst]. by rewrite Hc. }
      unfold run_delete in Hdel. destruct (get_table t (store s)) as [x|] eqn:Hx; [|done].
      cbn [fmap list_fmap fst] in Hdel. rewrite Hc in Hdel. cbn [negb] in Hdel.
      destruct (forallb _ _); [|done]. injection Hdel as <-.
      by exists v', x.
    + exfalso. unfold with_db in Hdel. rewrite (enter_calm s Hf), bind_run in Hdel.
      unfold execute in Hdel. cbn [db set_db cursor negb] in Hdel.
      unfold next_fault in Hdel. cbn [faults set_db] in Hdel. rewrite Hf in Hdel.
      cbn [run_stmt bind_named] in Hdel. rewrite Hv in Hdel.
      cbn [fmap list_fmap fst] in Hdel. by rewrite Hc in Hdel.
  - exfalso. unfold with_db in Hdel. rewrite (enter_calm s Hf), bind_run in Hdel.
    unfold execute in Hdel. cbn [db set_db cursor negb] in Hdel.
    unfold next_fault in Hdel. cbn [faults set_db] in Hdel. rewrite Hf in Hdel.
    cbn [run_stmt bind_named] in Hdel. by rewrite Hv in Hdel.
Qed.

Lemma get_set_table t (X : table) (d : database) : get_table t (set_table t X d) = Some X.
Proof. by destruct t. Qed.

Section Deletions.
Variable B : builtins.

(** X16. On a datastore without fault and without a writer, when the
    deletion of a provider or of a model by [id], or of a setting by key,
    answers [True], the lookup by that [id] or key returns [None]
    afterwards, and the rows left in the table are those that were there
    with another [id] or key. *)
Theorem delete_then_lookup (id : pyval) (key : string) (s s' : state) :
  faults s = [] → locked s = false →
  (delete_provider id s = (Ret (PBool true), s') →
     (get_provider_for_id id s').1 = Ret PNone ∧
     ∃ v, bind_param id = Some v ∧
          stored providers s' =
          filter (λ r, matches [("id", v)] r = false) (stored providers s)) ∧
  (delete_model id s = (Ret (PBool true), s') →
     (get_model_for_id id s').1 = Ret PNone ∧
     ∃ v, bind_param id = Some v ∧
          stored models s' =
          filter (λ r, matches [("id", v)] r = false) (stored models s)) ∧
  (delete_setting key s = (Ret (PBool true), s') →
     (get_setting B key s').1 = Ret PNone ∧
     stored system_settings s' =
     filter (λ r, matches [("setting_key", SText key)] r = false)
            (stored system_settings s)).
Proof.
  intros Hf Hl. split; [|split]; intros Hdel.
  - apply delete_calm in Hdel as (v & x & Hv & Hx & Hf' & Hl' & Hs); [|done|done].
    split.
    + unfold get_provider_for_id.
      erewrite (lookup_calm provider_columns providers _ [("id", v)]
                  provider_config provider_dict s');
        [|done|by rewrite Hs, get_set_table|by cbn [bind_named]; rewrite Hv
         |reflexivity|reflexivity|intros; apply provider_config_project].
      cbn [rows]. rewrite filter_excluded; [done|]. intros r Hq. by rewrite Hq.
    + exists v. split; [done|]. unfold stored. by rewrite Hs, get_set_table, Hx.
  - apply delete_calm in Hdel as (v & x & Hv & Hx & Hf' & Hl' & Hs); [|done|done].
    split.
    + unfold get_model_for_id.
      erewrite (lookup_calm _ models _ [("is_valid", SInt 1); ("id", v)]
                  model_config_one model_dict s');
        [|done|by rewrite Hs, get_set_table|by cbn [bind_named bind_param]; rewrite Hv
         |reflexivity|reflexivity
         |intros; apply model_config_one_project; list_subset].
      cbn [rows]. rewrite filter_excluded; [done|]. intros r Hq.
      cbn [matches forallb fst snd] in *. rewrite Hq. by rewrite andb_false_r.
    + exists v. split; [done|]. unfold stored. by rewrite Hs, get_set_table, Hx.
  - apply delete_calm in Hdel as (v & x & [= <-] & Hx & Hf' & Hl' & Hs); [|done|done].
    split.
    + erewrite (get_setting_calm B key s' _ Hf'); [|by rewrite Hs, get_set_table].
      cbn [rows]. rewrite filter_excluded; [done|]. intros r Hq. by rewrite Hq.
    + unfold stored. by rewrite Hs, get_set_table, Hx.
Qed.

End Deletions.

Lemma delete_then_lookup_witness :
  (get_provider_for_id (PInt 1)
     (delete_provider (PInt 1) Examples.with_p1).2).1 = Ret PNone.
Proof.
  destruct (delete_provider (PInt 1) Examples.with_p1) as [r s'] eqn:Hd.
  assert (Hr : r = Ret (PBool true)).
  { vm_compute in Hd. by injection Hd as <- _. }
  subst r.
  exact (proj1 (proj1 (delete_then_lookup Examples.plain (PInt 1) "" Examples.with_p1 s'
                         eq_refl eq_refl) Hd)).
Defined.


(** *** Bulk import stores nothing *)

Lemma sql_raise_fields {A} msg (s : state) (r : outcome A) s' :
  sql_raise msg s = (r, s') →
  is_raise r = true ∧ store s' = store s ∧ locked s' = locked s ∧ db s' = db s ∧
  faults s' = faults s.
Proof. by intros [= <- <-]. Qed.

Lemma next_fault_fields (s : state) :
  store (next_fault s).2 = store s ∧ locked (next_fault s).2 = locked s ∧
  db (next_fault s).2 = db s ∧ (faults s = [] → faults (next_fault s).2 = []) ∧
  (faults s = [] → (next_fault s).1 = false).
Proof.
  unfold next_fault. destruct (faults s) eqn:E; cbn [fst snd store locked db faults];
    repeat split; try done.
Qed.

(** **** While the write lock is held elsewhere *)

Lemma waits_ret {A} (a : A) : waits (ret a).
Proof. by intros s r s' Hl Hd [= <- <-]. Qed.

Lemma waits_raise {A} (e : exn) : waits (raise (A := A) e).
Proof. by intros s r s' Hl Hd [= <- <-]. Qed.

Lemma waits_pure {A} (m : M state A) : (∀ s, (m s).2 = s) → waits m.
Proof.
  intros Hm s r s' Hl Hd H. specialize (Hm s). rewrite H in Hm. simpl in Hm. by subst.
Qed.

Lemma waits_sql_raise {A} msg : waits (sql_raise (A := A) msg).
Proof. by intros s r s' Hl Hd [= <- <-]. Qed.

Lemma waits_bind {A C} (m : M state A) (k : A → M state C) :
  waits m → (∀ a, waits (k a)) → waits (bind m k).
Proof.
  intros Hm Hk s r s' Hl Hd. unfold bind. destruct (m s) as [[a|e] s1] eqn:Em.
  - intros Hc. destruct (Hm _ _ _ Hl Hd Em) as (H1 & H2 & H3 & H4).
    destruct (Hk a _ _ _ H2 H3 Hc) as (H5 & H6 & H7 & H8).
    repeat split; try done; [congruence|auto].
  - intros [= <- <-]. by apply (Hm _ _ _ Hl Hd Em).
Qed.

Lemma waits_try_except {A} (m : M state A) (h : exn → M state A) :
  waits m → (∀ e, waits (h e)) → waits (try_except m h).
Proof.
  intros Hm Hh s r s' Hl Hd. unfold try_except. destruct (m s) as [[a|e] s1] eqn:Em.
  - intros [= <- <-]. by apply (Hm _ _ _ Hl Hd Em).
  - intros Hc. destruct (Hm _ _ _ Hl Hd Em) as (H1 & H2 & H3 & H4).
    destruct (Hh e _ _ _ H2 H3 Hc) as (H5 & H6 & H7 & H8).
    repeat split; try done; [congruence|auto].
Qed.

Lemma waits_query r : waits (query r).
Proof.
  intros s a s' Hl Hd. unfold query. destruct r; [apply waits_sql_raise; done|].
  by intros [= <- <-].
Qed.

(** A data change has to wait for the lock, and fails. *)
Lemma waits_change f : waits (change f).
Proof.
  intros s a s' Hl Hd. unfold change. rewrite Hl, Hd. cbn [negb andb].
  by apply waits_sql_raise.
Qed.

Lemma waits_create t : waits (create t).
Proof.
  intros s a s' Hl Hd. unfold create. rewrite Hl, Hd. by apply waits_sql_raise.
Qed.

Lemma waits_run_stmt q : waits (run_stmt q).
Proof.
  destruct q; cbn [run_stmt]; repeat case_match;
    first [ apply waits_sql_raise | apply waits_change | apply waits_create
          | intros s a s' Hl Hd; apply waits_query; done ].
Qed.

Lemma waits_execute q : waits (execute q).
Proof.
  intros s r s' Hl Hd Hrun. unfold execute in Hrun.
  destruct (cursor (db s)); cbn [negb] in Hrun;
    [|exact (waits_sql_raise _ s r s' Hl Hd Hrun)].
  destruct (next_fault_fields s) as (Hst & Hlk & Hdb & Hfl & _).
  destruct (next_fault s) as [f s1]. cbn [snd] in *.
  assert (Hw : ∀ m : M state unit, waits m → m s1 = (r, s') →
            store s' = store s ∧ locked s' = true ∧ dirty (db s') = false ∧
            (faults s = [] → faults s' = [])).
  { intros m Hm Hm1. destruct (Hm s1 r s') as (H1 & H2 & H3 & H4); try congruence.
    repeat split; try done; [congruence|auto]. }
  destruct f; [exact (Hw _ (waits_sql_raise _) Hrun)|].
  exact (Hw _ (waits_run_stmt q) Hrun).
Qed.

Lemma waits_fetchone : waits fetchone.
Proof.
  intros s a s' Hl Hd Hrun. unfold fetchone in Hrun.
  destruct (cursor (db s)); cbn [negb] in Hrun;
    [|exact (waits_sql_raise _ s a s' Hl Hd Hrun)].
  destruct (results (db s)); by injection Hrun as <- <-.
Qed.

(** **** Operations called inside the [with] block of another *)

Lemma untouched_pure {A} (m : M state A) : (∀ s, (m s).2 = s) → untouched m.
Proof.
  intros Hm s r s' Hl H. specialize (Hm s). rewrite H in Hm. simpl in Hm. by subst.
Qed.

Lemma untouched_bind {A C} (m : M state A) (k : A → M state C) :
  untouched m → (∀ a, untouched (k a)) → untouched (bind m k).
Proof.
  intros Hm Hk s r s' Hl. unfold bind. destruct (m s) as [[a|e] s1] eqn:Em.
  - intros Hc. destruct (Hm _ _ _ Hl Em) as (H1 & H2 & H3 & H4).
    destruct (Hk a _ _ _ H2 Hc) as (H5 & H6 & H7 & H8).
    repeat split; try done; [congruence|congruence|auto].
  - intros [= <- <-]. by apply (Hm _ _ _ Hl Em).
Qed.

Lemma untouched_try_except {A} (m : M state A) (h : exn → M state A) :
  untouched m → (∀ e, untouched (h e)) → untouched (try_except m h).
Proof.
  intros Hm Hh s r s' Hl. unfold try_except. destruct (m s) as [[a|e] s1] eqn:Em.
  - intros [= <- <-]. by apply (Hm _ _ _ Hl Em).
  - intros Hc. destruct (Hm _ _ _ Hl Em) as (H1 & H2 & H3 & H4).
    destruct (Hh e _ _ _ H2 Hc) as (H5 & H6 & H7 & H8).
    repeat split; try done; [congruence|congruence|auto].
Qed.

Lemma untouched_for_each {A C} (xs : list A) (acc : C) (body : C → A → M state C) :
  (∀ c x, untouched (body c x)) → untouched (for_each xs acc body).
Proof.
  intros Hb. revert acc. induction xs as [|x xs IH]; intros acc; simpl.
  - by apply untouched_pure.
  - apply untouched_bind; [apply Hb|]. intros c. apply IH.
Qed.

(** A [with] block entered while another connection holds the write lock
    commits nothing, and the wrapper of the enclosing block is back in scope
    afterwards. *)
Lemma untouched_with_db {A} (body : M state A) : waits body → untouched (with_db body).
Proof.
  intros Hb s r s' Hl. unfold with_db.
  destruct (body (__enter__ s)) as [r1 s1] eqn:Eb. intros [= <- <-].
  assert (He : store (__enter__ s) = store s ∧ locked (__enter__ s) = true ∧
               dirty (db (__enter__ s)) = false ∧
               (faults s = [] → faults (__enter__ s) = [])).
  { unfold __enter__, next_fault.
    destruct (faults s) eqn:E; cbn [set_db store locked db faults dirty];
      repeat split; try done. }
  destruct He as (H1 & H2 & H3 & H4).
  destruct (Hb _ _ _ H2 H3 Eb) as (H5 & H6 & H7 & H8).
  unfold __exit__. rewrite H7. destruct (cursor (db s1)); cbn [negb set_db store locked db faults];
    repeat split; try done; try congruence; auto.
Qed.

Ltac untouched_step :=
  first
    [ apply untouched_pure; first [apply dict_get_pure|apply classify_setting_pure|done]
    | apply untouched_with_db
    | apply untouched_try_except; [|intros]
    | apply untouched_bind; [|intros]
    | apply waits_ret
    | apply waits_execute
    | apply waits_fetchone
    | apply waits_bind; [|intros]
    | match goal with
      | |- waits (if ?x then _ else _) => destruct x
      | |- waits (match ?x with _ => _ end) => destruct x
      end ].

(** [DELETE FROM t]: the table is empty afterwards and the others are as
    they were. *)
Lemma run_delete_all (t : tname) (d d' : database) :
  run_delete t [] d = inr d' →
  rows_of t d' = [] ∧ ∀ t', t' ≠ t → rows_of t' d' = rows_of t' d.
Proof.
  unfold run_delete. destruct (get_table t d) as [x|] eqn:Hx; [|done].
  cbn [fmap list_fmap all_columns forallb negb].
  assert (Hk : filter (λ r, matches [] r = false) (rows x) = []).
  { induction (rows x) as [|r l IH]; [done|]. by rewrite filter_cons, decide_False. }
  rewrite Hk. destruct (forallb _ _); [|done]. intros [= <-]. split.
  - unfold rows_of. by rewrite get_set_table.
  - intros t' Ht. unfold rows_of. by destruct t, t', d.
Qed.

Lemma tname_cases (t t' : tname) : t' = t ∨ t' ≠ t.
Proof. destruct t, t'; (by left) || (by right). Qed.

Lemma delete_all_step (t : tname) (s0 s1 s2 : state) (r : outcome unit) :
  store s1 = store s0 →
  (dirty (db s1) = true →
   locked s1 = true ∧ kept_or_emptied (store s0) (work (db s1))) →
  execute (Delete t []) s1 = (r, s2) →
  store s2 = store s0 ∧ (faults s1 = [] → faults s2 = []) ∧
  (r = Ret tt →
   dirty (db s2) = true ∧ locked s2 = true ∧ cursor (db s2) = true ∧
   kept_or_emptied (store s0) (work (db s2)) ∧ rows_of t (work (db s2)) = [] ∧
   ∀ t', dirty (db s1) = true → rows_of t' (work (db s1)) = [] →
         rows_of t' (work (db s2)) = []).
Proof.
  intros Hst Hw Hrun. unfold execute in Hrun.
  destruct (cursor (db s1)) eqn:Hc; cbn [negb] in Hrun;
    [|apply sql_raise_fields in Hrun as (Hr & H1 & H2 & H3 & H4);
      split; [congruence|]; split; [congruence|]; intros ->; done].
  destruct (next_fault_fields s1) as (Hst1 & Hlk1 & Hdb1 & Hfl1 & _).
  destruct (next_fault s1) as [f sa]. cbn [snd] in *.
  destruct f;
    [apply sql_raise_fields in Hrun as (Hr & H1 & H2 & H3 & H4);
     split; [congruence|]; split; [intros Hf; rewrite H4; auto|]; intros ->; done|].
  cbn [run_stmt bind_named fmap list_fmap all_columns forallb] in Hrun.
  unfold change in Hrun.
  destruct (locked sa && negb (dirty (db sa))) eqn:Hlock;
    [apply sql_raise_fields in Hrun as (Hr & H1 & H2 & H3 & H4);
     split; [congruence|]; split; [intros Hf; rewrite H4; auto|]; intros ->; done|].
  destruct (run_delete t [] (view sa)) as [msg|d'] eqn:Hdel;
    [apply sql_raise_fields in Hrun as (Hr & H1 & H2 & H3 & H4);
     split; [congruence|]; split; [intros Hf; rewrite H4; auto|]; intros ->; done|].
  injection Hrun as <- <-. cbn [store faults db dirty locked cursor work].
  split; [congruence|]. split; [auto|]. intros _.
  apply run_delete_all in Hdel as [Hempty Hother].
  split; [done|]. split; [done|]. split; [congruence|].
  assert (Hview : kept_or_emptied (store s0) (view sa) ∧
                  ∀ t', dirty (db s1) = true → rows_of t' (work (db s1)) = [] →
                        rows_of t' (view sa) = []).
  { unfold view. rewrite Hdb1. destruct (dirty (db s1)) eqn:Hd.
    - split; [by apply Hw|]. auto.
    - split; [|done]. intros t'. left. congruence. }
  destruct Hview as [Hk Hp]. split; [|split; [done|]].
  - intros t'. destruct (tname_cases t t') as [->|Hne]; [by right|].
    rewrite (Hother t' Hne). apply Hk.
  - intros t' Hd He. destruct (tname_cases t t') as [->|Hne]; [done|].
    rewrite (Hother t' Hne). by apply Hp.
Qed.

Section ImportConfig.
Variable B : builtins.

(** The four save operations that [import_config] calls. *)
Lemma untouched_saves (c : pyval) (key : string) :
  untouched (save_provider c) ∧ untouched (save_model c) ∧
  untouched (save_composite_model c) ∧ untouched (save_setting B key c).
Proof.
  unfold save_provider, save_model, save_composite_model, save_setting.
  split; [|split; [|split]]; cbv zeta; repeat untouched_step.
Qed.

Lemma untouched_import_section config section (save : string → pyval → M state pyval) :
  (∀ k c, untouched (save k c)) → untouched (import_section config section save).
Proof.
  intros Hs. unfold import_section.
  apply untouched_bind; [apply untouched_pure, dict_get_pure|]. intros d.
  apply untouched_bind; [apply untouched_pure; intros s; by destruct d|]. intros items.
  apply untouched_for_each. intros [] kv.
  apply untouched_bind; [apply Hs|]. intros _. by apply untouched_pure.
Qed.

(** The body of the [with] block of [import_config]. *)
Lemma import_body (config : pyval) (s0 s1 s2 : state) (r : outcome pyval) :
  store s1 = store s0 → dirty (db s1) = false →
  (execute (Delete providers []) ;;
   execute (Delete models []) ;;
   execute (Delete composite_models []) ;;
   execute (Delete system_settings []) ;;
   import_section config "providers" (λ _ c, save_provider c) ;;
   import_section config "models" (λ _ c, save_model c) ;;
   import_section config "composite_models" (λ _ c, save_composite_model c) ;;
   import_section config "system" (save_setting B) ;;
   ret (PBool true)) s1 = (r, s2) →
  store s2 = store s0 ∧ (faults s1 = [] → faults s2 = []) ∧
  (is_raise r = false →
   r = Ret (PBool true) ∧ dirty (db s2) = true ∧ cursor (db s2) = true ∧
   ∀ t, rows_of t (work (db s2)) = []).
Proof.
  intros Hst Hd Hrun.
  rewrite bind_run in Hrun.
  destruct (execute (Delete providers []) s1) as [[[]|e] sa] eqn:E1.
  2: { injection Hrun as <- <-.
       apply delete_all_step with (s0 := s0) in E1 as (H1 & H2 & _);
         [done|done|congruence]. }
  apply delete_all_step with (s0 := s0) in E1 as (Ha1 & Ha2 & Ha3);
    [|done|congruence].
  destruct (Ha3 eq_refl) as (Hda & Hla & Hca & Hka & Hpa & _). clear Ha3.
  rewrite bind_run in Hrun.
  destruct (execute (Delete models []) sa) as [[[]|e] sb] eqn:E2.
  2: { injection Hrun as <- <-.
       apply delete_all_step with (s0 := s0) in E2 as (H1 & H2 & _);
         [split; [done|]; split; [auto|done]|done|done]. }
  apply delete_all_step with (s0 := s0) in E2 as (Hb1 & Hb2 & Hb3); [|done|done].
  destruct (Hb3 eq_refl) as (Hdb & Hlb & Hcb & Hkb & Hmb & Hpb). clear Hb3.
  rewrite bind_run in Hrun.
  destruct (execute (Delete composite_models []) sb) as [[[]|e] sc] eqn:E3.
  2: { injection Hrun as <- <-.
       apply delete_all_step with (s0 := s0) in E3 as (H1 & H2 & _);
         [split; [done|]; split; [auto|done]|done|done]. }
  apply delete_all_step with (s0 := s0) in E3 as (Hc1 & Hc2 & Hc3); [|done|done].
  destruct (Hc3 eq_refl) as (Hdc & Hlc & Hcc & Hkc & Hmc & Hpc). clear Hc3.
  rewrite bind_run in Hrun.
  destruct (execute (Delete system_settings []) sc) as [[[]|e] sd] eqn:E4.
  2: { injection Hrun as <- <-.
       apply delete_all_step with (s0 := s0) in E4 as (H1 & H2 & _);
         [split; [done|]; split; [auto|done]|done|done]. }
  apply delete_all_step with (s0 := s0) in E4 as (Hd1 & Hd2 & Hd3); [|done|done].
  destruct (Hd3 eq_refl) as (Hdd & Hld & Hcd & Hkd & Hmd & Hpd). clear Hd3.
  assert (Hall : ∀ t, rows_of t (work (db sd)) = []).
  { intros []; [apply Hpd, Hpc, Hpb|apply Hpd, Hpc|apply Hpd|]; done. }
  assert (Hsec : ∀ section save (sx sy : state) (rx : outcome unit),
            (∀ k c, untouched (save k c)) → locked sx = true →
            import_section config section save sx = (rx, sy) →
            store sy = store sx ∧ locked sy = true ∧ db sy = db sx ∧
            (faults sx = [] → faults sy = [])).
  { intros section save sx sy rx Hs Hl Hx.
    exact (untouched_import_section config section save Hs sx rx sy Hl Hx). }
  rewrite bind_run in Hrun.
  destruct (import_section config "providers" _ sd) as [[[]|e] se] eqn:E5;
    apply Hsec in E5 as (He1 & He2 & He3 & He4);
    try done; try (intros; apply untouched_saves; exact "").
  2: { injection Hrun as <- <-. split; [congruence|]. split; [eauto 12|done]. }
  rewrite bind_run in Hrun.
  destruct (import_section config "models" _ se) as [[[]|e] sf] eqn:E6;
    apply Hsec in E6 as (Hf1 & Hf2 & Hf3 & Hf4);
    try done; try (intros; apply untouched_saves; exact "").
  2: { injection Hrun as <- <-. split; [congruence|]. split; [eauto 12|done]. }
  rewrite bind_run in Hrun.
  destruct (import_section config "composite_models" _ sf) as [[[]|e] sg] eqn:E7;
    apply Hsec in E7 as (Hg1 & Hg2 & Hg3 & Hg4);
    try done; try (intros; apply untouched_saves; exact "").
  2: { injection Hrun as <- <-. split; [congruence|]. split; [eauto 12|done]. }
  rewrite bind_run in Hrun.
  destruct (import_section config "system" _ sg) as [[[]|e] sh] eqn:E8;
    apply Hsec in E8 as (Hh1 & Hh2 & Hh3 & Hh4);
    try done; try (intros; apply untouched_saves; exact PNone).
  2: { injection Hrun as <- <-. split; [congruence|]. split; [eauto 12|done]. }
  injection Hrun as <- <-. split; [congruence|]. split; [eauto 12|]. intros _.
  split; [done|]. rewrite Hh3, Hg3, Hf3, He3. by repeat split.
Qed.

(** X25. [import_config] stores nothing.  Whatever the configuration and the
    state of the datastore, faults and other writers included, every table
    afterwards holds what it held before or is empty: no record of the
    configuration is stored.  When the call returns [False] the committed
    contents are what they were.  When it returns [True] and no fault
    occurs, the four tables are empty.  (The four [DELETE]s run in the
    transaction of the [with] block, which holds the write lock until it
    commits; each record is saved through a connection of its own, whose
    statement cannot get the lock, and the failure is caught and not
    looked at.) *)
Theorem import_config_stores_nothing (config : pyval) (s : state) :
  (∀ t, stored t (import_config B config s).2 = stored t s ∨
        stored t (import_config B config s).2 = []) ∧
  ((import_config B config s).1 = Ret (PBool false) →
   store (import_config B config s).2 = store s) ∧
  (faults s = [] → (import_config B config s).1 = Ret (PBool true) →
   ∀ t, stored t (import_config B config s).2 = []).
Proof.
  unfold import_config, try_except, with_db.
  destruct (enter_store s) as [Hst Hd].
  assert (Hfl : faults s = [] → faults (__enter__ s) = []).
  { intros Hf. unfold __enter__, next_fault. by rewrite Hf. }
  match goal with |- context [?body (__enter__ s)] =>
    destruct (body (__enter__ s)) as [r s1] eqn:Hrun
  end.
  apply import_body with (s0 := s) in Hrun as (H1 & H2 & H3); [|done|done].
  destruct r as [v|e].
  - destruct (H3 eq_refl) as (Hv & Hdirty & Hcur & Hall). injection Hv as ->.
    cbn [is_raise ret fst snd]. unfold __exit__. rewrite Hcur, Hdirty. cbn [negb].
    destruct (next_fault_fields s1) as (Hs1 & _ & Hdb1 & _ & Hf1).
    destruct (next_fault s1) as [f sa]. cbn [fst snd] in *.
    destruct f; cbn [set_db store stored].
    + split; [|split]; [intros t; left; unfold stored; by rewrite Hs1, H1|done|].
      intros Hf. specialize (Hf1 (H2 (Hfl Hf))). done.
    + split; [|split]; [|done|].
      * intros t. right. unfold stored. rewrite Hdb1. apply Hall.
      * intros _ _ t. unfold stored. rewrite Hdb1. apply Hall.
  - clear H3. cbn [is_raise ret fst snd].
    assert (Hex : store (__exit__ true s1) = store s).
    { unfold __exit__. destruct (cursor (db s1)), (dirty (db s1)); simpl; congruence. }
    unfold stored, set_db. cbn [store]. rewrite Hex.
    split; [|split]; [by left|done|done].
Qed.

End ImportConfig.

(** *** Listings *)

Lemma nonempty_text (t : string) : t ≠ "" → truthy (PStr t) = true.
Proof. by destruct t. Qed.

Lemma assoc_absent {A} (k : string) (l : list (string * A)) :
  k ∉ l.*1 → assoc k l = None.
Proof.
  induction l as [|[k' v] l IH]; [done|]. cbn [fmap list_fmap fst assoc].
  intros Hk. apply not_elem_of_cons in Hk as [Hne Hk].
  destruct (String.eqb_spec k' k) as [->|_]; [done|]. by apply IH.
Qed.

(** [d[k] = v] for a key that the dictionary does not have. *)
Lemma assoc_set_new {A} (k : string) (v : A) (l : list (string * A)) :
  k ∉ l.*1 → assoc_set k v l = l ++ [(k, v)].
Proof.
  induction l as [|[k' v'] l IH]; [done|]. cbn [fmap list_fmap fst assoc_set].
  intros Hk. apply not_elem_of_cons in Hk as [Hne Hk].
  destruct (String.eqb_spec k' k) as [->|_]; [done|]. by rewrite IH.
Qed.

Section Listings.
Variable B : builtins.

(** The key under which a listing puts a row. *)
Let key_of (r : row) : string := py_str B (to_py (field "model_name" r)).

Lemma setitem_row (l : list (string * pyval)) (r : row) (v : pyval) (s : state) :
  dict_setitem B (PDict l) (to_py (field "model_name" r)) v s
  = (Ret (PDict (assoc_set (key_of r) v l)), s).
Proof. unfold dict_setitem, key_of. by destruct (field "model_name" r). Qed.

Lemma listing_loop cols (k : row → M state pyval) (f : row → pyval)
    (rs : list row) (l : list (string * pyval)) (s : state) :
  "model_name" ∈ cols →
  (∀ r s0, k (project cols r) s0 = (Ret (f r), s0)) →
  NoDup (l.*1 ++ (key_of <$> rs)) →
  for_each (project cols <$> rs) (PDict l) (λ result row,
    config <- k row ;;
    name <- row_get row "model_name" ;;
    dict_setitem B result name config) s
  = (Ret (PDict (l ++ ((λ r, (key_of r, f r)) <$> rs))), s).
Proof.
  intros Hc Hk. revert l. induction rs as [|r rs IH]; intros l Hnd.
  - cbn [fmap list_fmap for_each ret]. by rewrite app_nil_r.
  - rewrite fmap_cons. cbn [for_each]. rewrite bind_run, bind_run, Hk, bind_run.
    rewrite row_get_project, bool_decide_eq_true_2 by done.
    rewrite setitem_row. rewrite fmap_cons in Hnd.
    apply NoDup_app in Hnd as (Hl & Hdis & Hrs).
    rewrite assoc_set_new by (intros Hin; apply (Hdis _ Hin); left).
    rewrite IH.
    + by rewrite fmap_cons, <- app_assoc.
    + rewrite fmap_app. cbn [fmap list_fmap fst]. rewrite <- app_assoc. cbn [app].
      apply NoDup_app. split; [done|]. split; [|done].
      intros x Hx Hin. apply (Hdis x Hx). done.
Qed.

(** A listing, when no fault occurs: one entry for each stored row that
    satisfies the [WHERE] clause. *)
Lemma listing_calm cols t w w' (k : row → M state pyval) (f : row → pyval) s x :
  faults s = [] → get_table t (store s) = Some x → bind_named w = Some w' →
  all_columns t cols = true → all_columns t (w'.*1) = true → "model_name" ∈ cols →
  (∀ r s0, k (project cols r) s0 = (Ret (f r), s0)) →
  NoDup (key_of <$> filter (λ r, matches w' r = true) (rows x)) →
  (try_except
     (with_db (execute (Select cols t w) ;;
               rows <- fetchall ;;
               for_each rows (PDict []) (λ result row,
                 config <- k row ;;
                 name <- row_get row "model_name" ;;
                 dict_setitem B result name config)))
     (λ _, ret (PDict [])) s).1
  = Ret (PDict ((λ r, (key_of r, f r)) <$> filter (λ r, matches w' r = true) (rows x))).
Proof.
  intros Hf Hx Hw Hc Hwc Hn Hk Hnd. unfold try_except, with_db. rewrite (enter_calm s Hf).
  rewrite bind_run. unfold execute. cbn [db set_db cursor negb]. unfold next_fault.
  cbn [faults set_db]. rewrite Hf. cbn [run_stmt]. rewrite Hw.
  unfold query, run_select, view. cbn [db set_db dirty store]. rewrite Hx, Hc, Hwc.
  cbn [andb]. rewrite bind_run. unfold fetchall. cbn [db set_db cursor negb results].
  by rewrite (listing_loop cols k f _ [] _ Hn Hk).
Qed.

Lemma model_config_project (r : row) s :
  model_config
    (project ["id"; "model_id"; "model_name"; "provider_id"; "is_origin_reasoning";
              "is_valid"; "model_type"; "model_format"] r) s
  = (Ret (listed_model_dict r), s).
Proof. unfold model_config. rewrite !bind_run, !row_get_project. reflexivity. Qed.

Lemma NoDup_filter_keys (P : row → Prop) `{∀ r, Decision (P r)} (l : list row) :
  NoDup (key_of <$> l) → NoDup (key_of <$> filter P l).
Proof.
  induction l as [|r l IH]; [done|]. rewrite fmap_cons, filter_cons.
  intros [Hr Hl]%NoDup_cons. destruct (decide (P r)); [|by apply IH].
  rewrite fmap_cons. apply NoDup_cons. split; [|by apply IH].
  intros Hin. apply Hr. apply list_elem_of_fmap in Hin as (r' & -> & Hr').
  apply list_elem_of_filter in Hr' as [_ Hr']. apply list_elem_of_fmap. by exists r'.
Qed.

(** X26. The listings of models and of composite models have one entry for
    each stored row, valid or not.  On a datastore without fault whose rows
    have distinct names (the columns are [UNIQUE]),
    [get_all_composite_models] returns the dictionary of the records of all
    the rows of [composite_models], keyed by name, in the order of the
    table; [get_all_models(None)] does the same for [models]; and
    [get_all_models(t)] for a non-empty string [t] keeps the rows whose
    [model_type] is [t]. *)
Theorem listings_cover_every_row (s : state) (xm xc : table) (t : string) :
  faults s = [] → get_table models (store s) = Some xm →
  get_table composite_models (store s) = Some xc →
  NoDup ((λ r, py_str B (to_py (field "model_name" r))) <$> rows xm) →
  NoDup ((λ r, py_str B (to_py (field "model_name" r))) <$> rows xc) →
  (get_all_composite_models B s).1 =
    Ret (PDict ((λ r, (py_str B (to_py (field "model_name" r)), composite_dict r))
                <$> rows xc)) ∧
  (get_all_models B PNone s).1 =
    Ret (PDict ((λ r, (py_str B (to_py (field "model_name" r)), listed_model_dict r))
                <$> rows xm)) ∧
  (t ≠ "" →
   (get_all_models B (PStr t) s).1 =
     Ret (PDict ((λ r, (py_str B (to_py (field "model_name" r)), listed_model_dict r))
                 <$> filter (λ r, matches [("model_type", SText t)] r = true)
                            (rows xm)))).
Proof.
  intros Hf Hm Hc Hnm Hnc. split; [|split].
  - unfold get_all_composite_models.
    rewrite (listing_calm composite_columns composite_models [] [] composite_config
               composite_dict s xc);
      [by rewrite filter_all|done|done|done|done|done
      |unfold composite_columns; list_member
      |intros; apply composite_config_project
      |by rewrite filter_all].
  - unfold get_all_models. cbn [truthy].
    rewrite (listing_calm _ models [] [] model_config listed_model_dict s xm);
      [by rewrite filter_all|done|done|done|done|done
      |list_member
      |intros; apply model_config_project
      |by rewrite filter_all].
  - intros Ht. unfold get_all_models. rewrite (nonempty_text t Ht).
    rewrite (listing_calm _ models [("model_type", PStr t)] [("model_type", SText t)]
               model_config listed_model_dict s xm);
      [done|done|done|done|done|done
      |list_member
      |intros; apply model_config_project
      |by apply NoDup_filter_keys].
Qed.

End Listings.

Lemma listings_cover_every_row_witness :
  (get_all_composite_models Examples.plain
     (Examples.world [] [Examples.model_row 1 "m" 0]
                        [Examples.composite_row 1 "x" 1; Examples.composite_row 2 "y" 0])).1
  = Ret (PDict [ ("x", composite_dict (Examples.composite_row 1 "x" 1));
                 ("y", composite_dict (Examples.composite_row 2 "y" 0)) ]) ∧
  (get_all_models Examples.plain PNone
     (Examples.world [] [Examples.model_row 1 "m" 0]
                        [Examples.composite_row 1 "x" 1; Examples.composite_row 2 "y" 0])).1
  = Ret (PDict [ ("m", listed_model_dict (Examples.model_row 1 "m" 0)) ]).
Proof.
  destruct (listings_cover_every_row Examples.plain
              (Examples.world [] [Examples.model_row 1 "m" 0]
                 [Examples.composite_row 1 "x" 1; Examples.composite_row 2 "y" 0])
              (Table [Examples.model_row 1 "m" 0] 10)
              (Table [Examples.composite_row 1 "x" 1; Examples.composite_row 2 "y" 0] 10)
              "general" eq_refl eq_refl eq_refl) as (Hc & Hm & _).
  - cbn. apply NoDup_singleton.
  - cbn. apply NoDup_cons. split; [|apply NoDup_singleton].
    intros Hin. apply list_elem_of_singleton in Hin. discriminate.
  - split; [exact Hc|exact Hm].
Defined.

(** *** Saving a record that has an identifier *)

Lemma get_set_other t t' (X : table) (d : database) :
  t' ≠ t → get_table t' (set_table t X d) = get_table t' d.
Proof. by destruct t, t'. Qed.

(** An [UPDATE] in a [with] block of its own, when no fault occurs and no
    other connection holds the write lock: if the block returns, the rows
    that satisfy the [WHERE] clause have taken the assignments, in place, and
    nothing else has changed. *)
Lemma update_calm (t : tname) (sets w : list (string * pyval)) (v : pyval)
    (s s' : state) :
  faults s = [] → locked s = false →
  with_db (execute (Update t sets w) ;; ret v) s = (Ret v, s') →
  ∃ sets' w', bind_named sets = Some sets' ∧ bind_named w = Some w' ∧
    stored t s' = (λ r, if matches w' r then assign sets' r else r) <$> stored t s ∧
    ∀ t', t' ≠ t → stored t' s' = stored t' s.
Proof.
  intros Hf Hl Hrun.
  assert (Hfail : ∀ msg, run_stmt (Update t sets w) = sql_raise msg → False).
  { intros msg Hq. pose proof (with_db_result (execute (Update t sets w) ;; ret v) s) as Hr.
    rewrite Hrun in Hr. rewrite (enter_calm s Hf), bind_run in Hr. unfold execute in Hr.
    cbn [db set_db cursor negb] in Hr. unfold next_fault in Hr.
    cbn [faults set_db] in Hr. rewrite Hf, Hq in Hr. done. }
  destruct (bind_named sets) as [sets'|] eqn:Hs;
    [|by destruct (Hfail "type is not supported"); cbn [run_stmt]; rewrite Hs].
  destruct (bind_named w) as [w'|] eqn:Hw;
    [|by destruct (Hfail "type is not supported"); cbn [run_stmt]; rewrite Hs, Hw].
  destruct (all_columns t (sets.*1) && all_columns t (w.*1)) eqn:Hc;
    [|by destruct (Hfail "no such column"); cbn [run_stmt]; rewrite Hs, Hw, Hc].
  rewrite (with_db_change_calm _ (run_update t sets' w') v s Hf Hl) in Hrun
    by (cbn [run_stmt]; by rewrite Hs, Hw, Hc).
  unfold run_update in Hrun.
  destruct (get_table t (store s)) as [x|] eqn:Hx; [|done].
  destruct (negb _); [done|].
  destruct (update_rows t sets' w' [] (rows x) (store s)) as [l|] eqn:Hu; [|done].
  injection Hrun as <-. apply update_rows_Some in Hu as [-> _].
  exists sets', w'. split; [done|]. split; [done|]. unfold stored. cbn [store]. split.
  - by rewrite get_set_table, Hx.
  - intros t' Ht. by rewrite get_set_other.
Qed.

Lemma bind_named_names (l : list (string * pyval)) (l' : list (string * sqlval)) :
  bind_named l = Some l' → l'.*1 = l.*1.
Proof.
  revert l'. induction l as [|[c v] l IH]; intros l'; [by intros [= <-]|].
  cbn [bind_named]. destruct (bind_param v); [|done].
  destruct (bind_named l) as [xs|]; [|done]. intros [= <-].
  cbn [fmap list_fmap fst]. f_equal. by apply IH.
Qed.

(** An assignment leaves the columns it does not name as they were. *)
Lemma field_assign_other (c : string) (sets : list (string * sqlval)) (r : row) :
  c ∉ sets.*1 → field c (assign sets r) = field c r.
Proof.
  intros Hc. rewrite field_assign. unfold field. rewrite (assoc_absent c sets Hc).
  by destruct (assoc c r).
Qed.




End StoreSpec.

Module ManagerSpec.
Import Py Sqlite DbConn DBManagerPool ModelManager StoreSpec.
Local Open Scope py_scope.

(** *** [get_model_details] with an empty declared type *)

Lemma get_model_for_name_quiet (s : state) (name : string) (x : table) :
  faults s = [] → get_table models (store s) = Some x →
  (get_model_for_name name s).1 =
  match filter (λ r, matches [("is_valid", SInt 1); ("model_name", SText name)] r = true)
               (rows x) with
  | [] => Ret PNone
  | r :: _ => Ret (model_dict r)
  end.
Proof.
  intros Hf Hx. unfold get_model_for_name, try_except.
  match goal with |- (match ?m s with _ => _ end).1 = _ =>
    assert (Hm : (m s).1 = match filter (λ r, matches [("is_valid", SInt 1);
                                    ("model_name", SText name)] r = true) (rows x) with
                           | [] => Ret PNone
                           | r :: _ => Ret (model_dict r)
                           end)
  end.
  { rewrite with_db_result. unfold __enter__, next_fault. rewrite Hf.
    rewrite bind_run. unfold execute, next_fault. cbn [db set_db cursor negb faults].
    rewrite Hf. cbn [run_stmt].
    change (bind_named [("is_valid", PInt 1); ("model_name", PStr name)])
      with (Some [("is_valid", SInt 1); ("model_name", SText name)]).
    unfold query, run_select, view.
    cbn [db set_db dirty store]. rewrite Hx.
    match goal with |- context [if ?b then _ else _] => change b with true end.
    cbn match. rewrite bind_run. unfold fetchone. cbn [db set_db cursor negb results].
    destruct (filter _ (rows x)) as [|r rest]; [done|].
    rewrite fmap_cons. cbn match. rewrite model_config_one_project by list_subset.
    done. }
  destruct (with_db _ s) as [[a|e] s1]; simpl in *.
  - by rewrite <- Hm.
  - by destruct (filter _ (rows x)).
Qed.


(** A name that is in both tables resolves to the composite model when the
    row of [models] has [is_valid = 0]. *)
Lemma ambiguous_name_resolves_to_composite :
  Examples.model_row 1 "x" 0 ∈
    stored models (Examples.world [] [Examples.model_row 1 "x" 0]
                                    [Examples.composite_row 1 "x" 1]) ∧
  field "model_name" (Examples.model_row 1 "x" 0) = SText "x" ∧
  (get_model_details "x" ""
     (Examples.world [] [Examples.model_row 1 "x" 0]
                        [Examples.composite_row 1 "x" 1])).1
  = Ret (composite_dict (Examples.composite_row 1 "x" 1), PStr "composite").
Proof. split; [left|]. split; vm_compute; reflexivity. Qed.

(** C7, amended. With an empty declared type, [get_model_details] looks the
    name up among the models first: a record found there is returned with
    its own [model_type]; only when that lookup returns nothing is the name
    looked up among the composite models, and a record found there is
    returned with the type ["composite"]; when both lookups return nothing
    it raises [ValueError].  So, when no fault occurs, a name that has a row
    with [is_valid = 1] in [models] resolves to a record of [models],
    whatever the composite models hold.  (A row with [is_valid = 0], or a
    failed read, is a miss of the first lookup.) *)
Theorem resolution_prefers_single_model (s : state) (name : string) :
  (∀ d s1, get_model_for_name name s = (Ret (PDict d), s1) → d ≠ [] →
     get_model_details name "" s =
     (Ret (PDict d, default PNone (assoc "model_type" d)), s1)) ∧
  (∀ m s1 c s2, get_model_for_name name s = (Ret m, s1) → truthy m = false →
     get_composite_model name s1 = (Ret c, s2) → truthy c = true →
     get_model_details name "" s = (Ret (c, PStr "composite"), s2)) ∧
  (∀ m s1 c s2, get_model_for_name name s = (Ret m, s1) → truthy m = false →
     get_composite_model name s1 = (Ret c, s2) → truthy c = false →
     ∃ msg, get_model_details name "" s = (Raise (ValueError msg), s2)) ∧
  (∀ x r, faults s = [] → get_table models (store s) = Some x →
     r ∈ rows x → field "model_name" r = SText name → field "is_valid" r = SInt 1 →
     ∃ r', r' ∈ rows x ∧ field "model_name" r' = SText name ∧
           field "is_valid" r' = SInt 1 ∧
           (get_model_details name "" s).1 =
           Ret (model_dict r', to_py (field "model_type" r'))).
Proof.
  assert (Hbranch : ∀ m s1, get_model_for_name name s = (Ret m, s1) →
            get_model_details name "" s =
            if negb (truthy m)
            then (model <- get_composite_model name ;;
                  if negb (truthy model)
                  then raise (ValueError "model does not exist")
                  else ret (model, PStr "composite")) s1
            else (t <- dict_get m "model_type" PNone ;; ret (m, t)) s1).
  { intros m s1 Hm. unfold get_model_details. cbn [str_in existsb String.eqb orb].
    change (String.eqb "" "composite") with false. cbv iota.
    rewrite bind_run, Hm. by destruct (truthy m). }
  repeat split.
  - intros d s1 Hm Hd. rewrite (Hbranch _ _ Hm). by destruct d.
  - intros m s1 c s2 Hm Hmt Hc Hct. rewrite (Hbranch _ _ Hm), Hmt. simpl.
    by rewrite bind_run, Hc, Hct.
  - intros m s1 c s2 Hm Hmt Hc Hct. rewrite (Hbranch _ _ Hm), Hmt. simpl.
    rewrite bind_run, Hc, Hct. simpl. by eexists.
  - intros x r Hf Hx Hin Hn Hv.
    pose proof (get_model_for_name_quiet s name x Hf Hx) as Hq.
    destruct (filter _ (rows x)) as [|r' rest] eqn:Hfl.
    { assert (Hr : r ∈ filter (λ r, matches [("is_valid", SInt 1);
                                 ("model_name", SText name)] r = true) (rows x)).
      { apply list_elem_of_filter. split; [|done]. simpl. rewrite Hn, Hv. simpl.
        by rewrite ?Z.eqb_refl, ?String.eqb_refl. }
      rewrite Hfl in Hr. by apply elem_of_nil in Hr. }
    assert (Hr' : r' ∈ filter (λ r, matches [("is_valid", SInt 1);
                                 ("model_name", SText name)] r = true) (rows x))
      by (rewrite Hfl; left).
    apply list_elem_of_filter in Hr' as [Hm Hin'].
    simpl in Hm. apply andb_prop in Hm as [Hv' [Hn' _]%andb_prop].
    apply sql_eq_int in Hv'. apply sql_eq_text in Hn'.
    exists r'. repeat split; try done.
    destruct (get_model_for_name name s) as [r1 s1] eqn:Hm. simpl in Hq. subst r1.
    by rewrite (Hbranch _ _ eq_refl).
Qed.

Lemma resolution_prefers_single_model_witness :
  (get_model_details "x" ""
     (Examples.world [] [Examples.model_row 1 "x" 1]
                        [Examples.composite_row 1 "x" 1])).1
  = Ret (model_dict (Examples.model_row 1 "x" 1), PStr "general").
Proof.
  destruct (resolution_prefers_single_model
              (Examples.world [] [Examples.model_row 1 "x" 1]
                                 [Examples.composite_row 1 "x" 1]) "x")
    as (Hhit & _ & _ & _).
  rewrite (Hhit _ _ eq_refl); [reflexivity | discriminate].
Defined.

(** *** [create_instance] *)

Section CreateInstance.
Variable B : builtins.

(** What [get_provider_for_id] returns has no key ["api_url"]. *)
Lemma provider_has_no_api_url (id : pyval) (s : state) :
  ∃ p s', get_provider_for_id id s = (Ret p, s') ∧
          (p = PNone ∨ ∃ r, p = provider_dict r).
Proof.
  destruct (perform_returns B (GetProviderForId id) s) as (p & s' & Hp).
  simpl in Hp. exists p, s'. split; [done|].
  pose proof (get_provider_for_id_stored s id p) as Hid.
  rewrite Hp in Hid. specialize (Hid eq_refl).
  destruct p; [by left|..]; right;
    (destruct Hid as (r & v & _ & _ & _ & Hd); [done|]); by exists r.
Qed.

Lemma create_client_raises c k (p : pyval) (mm : manager) :
  p = PNone ∨ (∃ r, p = provider_dict r) →
  ∃ e, create_client c k p mm = (Raise e, mm).
Proof.
  intros [->|[r ->]]; unfold create_client; rewrite bind_run; simpl; by eexists.
Qed.

Lemma create_instance_raises (provider_id model_format : pyval) (mm : manager) :
  ∃ e mm', create_instance B provider_id model_format mm = (Raise e, mm') ∧
           model_cache mm' = model_cache mm ∧ constructed mm' = constructed mm.
Proof.
  unfold create_instance. rewrite bind_run.
  destruct model_format as [| | | |f| |]; try (simpl; by eexists _, _).
  cbn [instance_key ret]. rewrite bind_run. unfold call_db.
  destruct (provider_has_no_api_url provider_id (db_manager mm)) as (p & s' & -> & Hp).
  set (mm1 := Manager s' (config mm) (model_cache mm) (constructed mm)).
  assert (Hc : ∀ c k, ∃ e, create_client c k p mm1 = (Raise e, mm1))
    by (intros; by apply create_client_raises).
  repeat case_match; try (simpl; by eexists _, _);
    match goal with
    | |- context [create_client ?c ?k p mm1] =>
        destruct (Hc c k) as [e ->]; by exists e, mm1
    end.
Qed.

(** C3 (the code departs from the claim). [create_instance] never returns:
    for the three formats it reads [provider["api_url"]], a key that the
    record of a provider does not have ([KeyError]; [TypeError] when the
    provider is not found), and for any other format it raises
    [ValueError].  Nothing is constructed and nothing is put in the cache.
    So the first resolution of an instance, on a manager whose cache is
    empty, raises, and there is no cached instance for a second resolution
    to return.  For the provider of the example, stored under id 1 with the
    format ["openai"], the exception is [KeyError("api_url")]. *)
Theorem create_instance_never_returns (provider_id model_format model : pyval)
    (s : state) (settings : pyval) (n : nat) :
  (∀ mm, ∃ e mm',
     create_instance B provider_id model_format mm = (Raise e, mm') ∧
     model_cache mm' = model_cache mm ∧ constructed mm' = constructed mm) ∧
  (∃ e mm',
     resolve_instance B model (Manager s settings (ModelCache.new_cache 5) n)
     = (Raise e, mm') ∧
     model_cache mm' = ModelCache.new_cache 5 ∧ constructed mm' = n) ∧
  (create_instance B (PInt 1) (PStr "openai")
     (Manager Examples.with_p1 settings (ModelCache.new_cache 5) n)).1
  = Raise (KeyError "api_url").
Proof.
  split; [intros mm; apply create_instance_raises|]. split; [|reflexivity].
  unfold resolve_instance.
  destruct model as [| | | | | |d]; try (simpl; by eexists _, _).
  cbn [bind dict_get ret].
  set (pid := match assoc "provider_id" d with Some v => v | None => PNone end).
  destruct (match assoc "model_format" d with Some v => v | None => PNone end)
    as [| | | |f| |]; try (simpl; by eexists _, _).
  cbn [instance_key ret cache_get ModelCache.get ModelCache.new_cache
       ModelCache.instances ModelCache.lookup_key model_cache].
  destruct (create_instance_raises pid (PStr f)
              (Manager s settings (ModelCache.new_cache 5) n))
    as (e & mm' & He & Hc & Hn).
  exists e, mm'. split; [|done]. rewrite <- He. reflexivity.
Qed.

End CreateInstance.
(** *** Request parameters *)

Lemma prefix_append (sub s : string) :
  String.prefix sub s = true ↔ ∃ b, s = sub +:+ b.
Proof.
  revert s. induction sub as [|a sub IH]; intros [|a' s]; simpl.
  - split; [by exists ""|done].
  - split; [by eexists|done].
  - split; [done|by intros [b Hb]].
  - destruct (Ascii.ascii_dec a a') as [->|Hne].
    + rewrite IH. split; intros [b Hb]; exists b; [by rewrite Hb|by injection Hb].
    + split; [done|]. intros [b Hb]. by injection Hb as -> _.
Qed.

(** [str_contains] is the substring test. *)
Lemma str_contains_occurs (sub s : string) :
  str_contains sub s = true ↔ ∃ a b, s = a +:+ sub +:+ b.
Proof.
  induction s as [|c s IH].
  - cbn [str_contains]. rewrite orb_false_r, prefix_append. split.
    + intros [b Hb]. by exists "", b.
    + intros (a & b & Hab). destruct a; [by exists b|done].
  - cbn [str_contains]. rewrite orb_true_iff, prefix_append, IH. split.
    + intros [[b Hb]|(a & b & Hab)]; [by exists "", b|].
      exists (String c a), b. simpl. by rewrite Hab.
    + intros (a & b & Hab). destruct a as [|c' a]; [left; by exists b|].
      right. exists a, b. simpl in Hab. by injection Hab.
Qed.

Lemma nonempty_truthy (name : string) : name ≠ "" → truthy (PStr name) = true.
Proof. by destruct name. Qed.

(** X17. What [validate_and_prepare_params] accepts.  When it returns, the
    manager is unchanged, the body holds a model and messages that are both
    true, and the five results are the values of the body, with [None] for a
    missing model argument, [False] for a missing [stream] and the empty
    string for a missing [model_type].  For a model named by a non-empty
    string, with messages: when the name does not contain ["sonnet"] the body
    is accepted, whatever the temperature is; when it does, an integer
    temperature is accepted exactly when it is 0 or 1, a float exactly when
    it is neither below 0 nor above 1, a boolean always, and a body with any
    other temperature, or none, is rejected with [ValueError]. *)
Theorem sonnet_requests_need_a_temperature (body : pyval) (mm : manager) :
  let get k d := default d (item k body) in
  let accepted name :=
    (Ret (get "messages" PNone, PStr name, get "model_type" (PStr ""),
          PDict [ ("temperature", get "temperature" PNone);
                  ("top_p", get "top_p" PNone);
                  ("presence_penalty", get "presence_penalty" PNone);
                  ("frequency_penalty", get "frequency_penalty" PNone) ],
          get "stream" (PBool false)), mm) in
  let rejected :=
    (Raise (ValueError "Sonnet 设定 temperature 必须在 0 到 1 之间"), mm) in
  (∀ messages model model_type args stream mm',
     validate_and_prepare_params body mm
     = (Ret (messages, model, model_type, args, stream), mm') →
     mm' = mm ∧ truthy model = true ∧ truthy messages = true ∧
     item "model" body = Some model ∧ item "messages" body = Some messages ∧
     model_type = get "model_type" (PStr "") ∧ stream = get "stream" (PBool false) ∧
     args = PDict [ ("temperature", get "temperature" PNone);
                    ("top_p", get "top_p" PNone);
                    ("presence_penalty", get "presence_penalty" PNone);
                    ("frequency_penalty", get "frequency_penalty" PNone) ]) ∧
  (∀ name, item "model" body = Some (PStr name) → name ≠ "" →
     truthy (get "messages" PNone) = true →
     ((∀ a b, name ≠ a +:+ "sonnet" +:+ b) →
        validate_and_prepare_params body mm = accepted name) ∧
     ((∃ a b, name = a +:+ "sonnet" +:+ b) →
        (∀ z, item "temperature" body = Some (PInt z) →
           validate_and_prepare_params body mm
           = if ((0 <=? z) && (z <=? 1))%Z then accepted name else rejected) ∧
        (∀ x, item "temperature" body = Some (PFloat x) →
           validate_and_prepare_params body mm
           = if SFltb x (S754_zero false) || SFltb float_one x
             then rejected else accepted name) ∧
        (∀ b, item "temperature" body = Some (PBool b) →
           validate_and_prepare_params body mm = accepted name) ∧
        (isinstance_float (get "temperature" PNone)
         || isinstance_int (get "temperature" PNone) = false →
           validate_and_prepare_params body mm = rejected))).
Proof.
  intros get accepted rejected.
  destruct body as [| | | | | |d]; try (split; [intros; discriminate|intros; discriminate]).
  assert (Hget : ∀ k v, match assoc k d with Some x => x | None => v end = get k v)
    by (intros; reflexivity).
  assert (Hitem : ∀ k v, truthy (get k PNone) = true → get k PNone = v ∨ True →
            item k (PDict d) = Some (get k PNone)).
  { intros k v Ht _. unfold get in *. cbn [item] in *. by destruct (assoc k d). }
  assert (Hrun : validate_and_prepare_params (PDict d) mm =
            if negb (truthy (get "model" PNone))
            then (Raise (ValueError "必须指定模型名称"), mm)
            else if negb (truthy (get "messages" PNone))
            then (Raise (ValueError "消息列表不能为空"), mm)
            else match (sonnet_in (get "model" PNone) mm).1 with
                 | Raise e => (Raise e, mm)
                 | Ret sonnet =>
                     if sonnet &&
                        (negb (isinstance_float (get "temperature" PNone)
                               || isinstance_int (get "temperature" PNone))
                         || below_zero (get "temperature" PNone)
                         || above_one (get "temperature" PNone))
                     then rejected
                     else (Ret (get "messages" PNone, get "model" PNone,
                                get "model_type" (PStr ""),
                                PDict [ ("temperature", get "temperature" PNone);
                                        ("top_p", get "top_p" PNone);
                                        ("presence_penalty", get "presence_penalty" PNone);
                                        ("frequency_penalty", get "frequency_penalty" PNone) ],
                                get "stream" (PBool false)), mm)
                 end).
  { unfold validate_and_prepare_params. cbn [bind dict_get ret]. rewrite !Hget.
    destruct (truthy (get "model" PNone)); [|done].
    destruct (truthy (get "messages" PNone)); [|done]. cbn [negb].
    destruct (get "model" PNone); cbn [sonnet_in bind ret raise fst]; try done;
      by destruct (_ && _). }
  split.
  - intros messages model model_type args stream mm'. rewrite Hrun.
    destruct (truthy (get "model" PNone)) eqn:Htm; [|done].
    destruct (truthy (get "messages" PNone)) eqn:Htms; [|done]. cbn [negb].
    destruct (sonnet_in _ mm).1 as [b|e]; [|done].
    destruct (b && _); [done|]. intros [= <- <- <- <- <- <-].
    split; [done|]. split; [done|]. split; [done|].
    split; [by apply (Hitem "model" PNone); [|right]|].
    split; [by apply (Hitem "messages" PNone); [|right]|]. done.
  - intros name Hmodel Hname Hmsgs.
    assert (Hm : get "model" PNone = PStr name) by (unfold get; by rewrite Hmodel).
    rewrite Hrun, Hm, (nonempty_truthy name Hname), Hmsgs.
    cbn [negb sonnet_in ret fst]. fold (accepted name).
    split.
    + intros Hno.
      destruct (str_contains "sonnet" name) eqn:Hc; [|done].
      apply str_contains_occurs in Hc as (a & b & Hab). by destruct (Hno a b).
    + intros Hyes. apply str_contains_occurs in Hyes. rewrite Hyes. cbn [andb].
      repeat split.
      * intros z Hz. unfold get at 1 2 3 4. rewrite Hz.
        cbn [default from_option id isinstance_float isinstance_int orb negb below_zero above_one].
        destruct (Z.ltb_spec z 0), (Z.ltb_spec 1 z), (Z.leb_spec 0 z), (Z.leb_spec z 1);
          try lia; done.
      * intros x Hx. unfold get at 1 2 3 4. rewrite Hx.
        by cbn [default from_option id isinstance_float isinstance_int orb negb below_zero above_one].
      * intros b Hb. unfold get at 1 2 3 4. rewrite Hb.
        by cbn [default from_option id isinstance_float isinstance_int orb negb below_zero above_one].
      * intros Hnot. by rewrite Hnot.
Qed.

Lemma sonnet_requests_need_a_temperature_witness :
  is_raise (validate_and_prepare_params (Examples.sonnet_request []) Examples.manager0).1
  = true ∧
  is_raise (validate_and_prepare_params
              (Examples.sonnet_request [("temperature", PInt 1)]) Examples.manager0).1
  = false.
Proof.
  split.
  - destruct (sonnet_requests_need_a_temperature (Examples.sonnet_request [])
                Examples.manager0) as [_ H].
    destruct (H "claude-3-5-sonnet" eq_refl) as [_ Hs]; [done|done|].
    destruct Hs as (_ & _ & _ & Hr); [by exists "claude-3-5-", ""|].
    by rewrite Hr.
  - destruct (sonnet_requests_need_a_temperature
                (Examples.sonnet_request [("temperature", PInt 1)]) Examples.manager0)
      as [_ H].
    destruct (H "claude-3-5-sonnet" eq_refl) as [_ Hs]; [done|done|].
    destruct Hs as (Hz & _); [by exists "claude-3-5-", ""|].
    by rewrite (Hz 1%Z eq_refl).
Defined.

(** *** [get_model_details] with a declared type *)

(** X18. With a declared type, [get_model_details] consults one table only.
    On a datastore without fault: with the type ["reasoner"] or ["general"]
    the result is the first valid row of [models] with that name, returned
    with the [model_type] stored in the row (not the declared one), and
    [ValueError] when there is none, whatever [composite_models] holds; with
    the type ["composite"] it is the first valid row of [composite_models]
    with that name, returned with the type ["composite"], and [ValueError]
    when there is none, whatever [models] holds. *)
Theorem declared_type_selects_the_table (s : state) (name : string) (xm xc : table) :
  faults s = [] → get_table models (store s) = Some xm →
  get_table composite_models (store s) = Some xc →
  (∀ t, t = "reasoner" ∨ t = "general" →
     (get_model_details name t s).1 =
     match filter (λ r, matches [("is_valid", SInt 1); ("model_name", SText name)] r
                        = true) (rows xm) with
     | [] => Raise (ValueError "model does not exist")
     | r :: _ => Ret (model_dict r, to_py (field "model_type" r))
     end) ∧
  (get_model_details name "composite" s).1 =
  match filter (λ r, matches [("model_name", SText name); ("is_valid", SInt 1)] r
                     = true) (rows xc) with
  | [] => Raise (ValueError "composite model does not exist")
  | r :: _ => Ret (composite_dict r, PStr "composite")
  end.
Proof.
  intros Hf Hm Hc. split.
  - intros t Ht.
    assert (Hb : str_in t ["reasoner"; "general"] = true) by (by destruct Ht as [->| ->]).
    unfold get_model_details. rewrite Hb. cbv iota. rewrite bind_run.
    pose proof (get_model_for_name_quiet s name xm Hf Hm) as Hq.
    destruct (get_model_for_name name s) as [r1 s1]. cbn [fst] in Hq. subst r1.
    by destruct (filter _ (rows xm)).
  - unfold get_model_details.
    change (str_in "composite" ["reasoner"; "general"]) with false.
    change (String.eqb "composite" "composite") with true.
    cbv iota. rewrite bind_run.
    assert (Hq : (get_composite_model name s).1 =
              Ret (match filter (λ r, matches [("model_name", SText name);
                                               ("is_valid", SInt 1)] r = true) (rows xc) with
                   | [] => PNone
                   | r :: _ => composite_dict r
                   end)).
    { unfold get_composite_model.
      by apply (lookup_calm composite_columns composite_models _
                  [("model_name", SText name); ("is_valid", SInt 1)]
                  composite_config composite_dict s xc);
        [..|intros; apply composite_config_project]. }
    destruct (get_composite_model name s) as [r1 s1]. cbn [fst] in Hq. subst r1.
    by destruct (filter _ (rows xc)).
Qed.

(** A name that is both a valid model of type ["general"] and a valid
    composite model: declared ["reasoner"], the model is returned, with the
    type ["general"]; declared ["composite"], the composite model. *)
Lemma declared_type_selects_the_table_witness :
  (get_model_details "x" "reasoner"
     (Examples.world [] [Examples.model_row 1 "x" 1] [Examples.composite_row 1 "x" 1])).1
  = Ret (model_dict (Examples.model_row 1 "x" 1), PStr "general") ∧
  (get_model_details "x" "composite"
     (Examples.world [] [Examples.model_row 1 "x" 1] [Examples.composite_row 1 "x" 1])).1
  = Ret (composite_dict (Examples.composite_row 1 "x" 1), PStr "composite").
Proof.
  destruct (declared_type_selects_the_table
              (Examples.world [] [Examples.model_row 1 "x" 1]
                                 [Examples.composite_row 1 "x" 1]) "x"
              (Table [Examples.model_row 1 "x" 1] 10)
              (Table [Examples.composite_row 1 "x" 1] 10) eq_refl eq_refl eq_refl)
    as [Hm Hc].
  split; [exact (Hm "reasoner" (or_introl eq_refl))|exact Hc].
Defined.

(** *** [composite_model] *)

Section CompositeModel.
Variable B : builtins.

Lemma call_db_returns (op : operation) (mm : manager) :
  ∃ p s', call_db (perform B op) mm
          = (Ret p, Manager s' (config mm) (model_cache mm) (constructed mm)).
Proof.
  unfold call_db. destruct (perform_returns B op (db_manager mm)) as (p & s' & ->).
  by exists p, s'.
Qed.

Lemma cache_get_miss (k : string) (mm : manager) :
  ModelCache.instances (model_cache mm) = [] → cache_get k mm = (Ret None, mm).
Proof.
  intros Hc. unfold cache_get, ModelCache.get. rewrite Hc. cbn [ModelCache.lookup_key].
  by destruct mm.
Qed.

(** With an empty cache the lookup misses, [create_instance] is called, and
    it raises. *)
Lemma resolve_instance_raises (model : pyval) (mm : manager) :
  ModelCache.instances (model_cache mm) = [] →
  ∃ e mm', resolve_instance B model mm = (Raise e, mm') ∧
           model_cache mm' = model_cache mm ∧ constructed mm' = constructed mm.
Proof.
  intros Hc. unfold resolve_instance.
  destruct model as [| | | | | |d]; try (simpl; by eexists _, _).
  cbn [bind dict_get ret].
  set (pid := match assoc "provider_id" d with Some v => v | None => PNone end).
  destruct (match assoc "model_format" d with Some v => v | None => PNone end)
    as [| | | |f| |]; try (simpl; by eexists _, _).
  destruct (create_instance_raises B pid (PStr f) mm) as (e & mm' & He & Hc' & Hn).
  exists e, mm'. split; [|done]. cbn [instance_key]. rewrite bind_run. cbn [ret].
  by rewrite bind_run, cache_get_miss.
Qed.

(** X19. While the cache of a manager is empty -- as it is when the manager
    is constructed -- [composite_model] does not return: it raises, constructs
    no client and leaves the cache empty, whatever the record of the
    composite model and the datastore hold.  (Both instances are looked up
    in the cache, and on a miss [create_instance] is called, which raises.) *)
Theorem composite_model_needs_cached_instances (model_details : pyval) (mm : manager) :
  ModelCache.instances (model_cache mm) = [] →
  ∃ e mm', composite_model B model_details mm = (Raise e, mm') ∧
           ModelCache.instances (model_cache mm') = [] ∧
           constructed mm' = constructed mm.
Proof.
  intros Hc. unfold composite_model.
  destruct model_details as [| | | | | |d]; try (simpl; by eexists _, _).
  set (rid := match assoc "reasoner_model_id" d with Some v => v | None => PNone end).
  set (gid := match assoc "general_model_id" d with Some v => v | None => PNone end).
  destruct (call_db_returns (GetModelForId rid) mm) as (m1 & s1 & H1).
  set (mm1 := Manager s1 (config mm) (model_cache mm) (constructed mm)) in H1.
  destruct (call_db_returns (GetModelForId gid) mm1) as (m2 & s2 & H2).
  set (mm2 := Manager s2 (config mm1) (model_cache mm1) (constructed mm1)) in H2.
  destruct (resolve_instance_raises m1 mm2 Hc) as (e & mm' & Hr & Hc' & Hn).
  cbn [perform] in H1, H2.
  exists e, mm'. split; [|split; [by rewrite Hc'|done]].
  rewrite bind_run. cbn [dict_get ret]. fold rid. rewrite bind_run. cbn [ret]. fold gid.
  by rewrite bind_run, H1, bind_run, H2, bind_run, Hr.
Qed.

End CompositeModel.

Lemma composite_model_needs_cached_instances_witness :
  ∃ e mm', composite_model Examples.plain
             (composite_dict (Examples.composite_row 1 "x" 1)) Examples.manager0
           = (Raise e, mm') ∧
           ModelCache.instances (model_cache mm') = [] ∧
           constructed mm' = 0%nat.
Proof.
  exact (composite_model_needs_cached_instances Examples.plain
           (composite_dict (Examples.composite_row 1 "x" 1)) Examples.manager0 eq_refl).
Defined.

(** *** The model list and the configuration *)

Lemma list_model_dict (models : list pyval) (k : string) (d : list (string * pyval))
    (mm : manager) :
  list_model models (k, PDict d) mm =
  (Ret (if truthy (default (PBool false) (assoc "is_valid" d))
        then models ++ [model_entry k] else models), mm).
Proof.
  unfold list_model. cbn [snd fst dict_get]. rewrite bind_run. cbn [ret].
  destruct (assoc "is_valid" d) as [v|]; cbn [default from_option id];
    [destruct (truthy v)|]; reflexivity.
Qed.

(** The entries of a configuration that [get_model_list] lists: those whose
    [is_valid] is true. *)
Lemma model_list_loop (entries : list (string * pyval)) (acc : list pyval)
    (mm : manager) :
  Forall (λ kv, isinstance_dict kv.2 = true) entries →
  for_each entries acc list_model mm
  = (Ret (acc ++ ((λ kv, model_entry kv.1) <$>
                  filter (λ kv, truthy (default (PBool false) (item "is_valid" kv.2))
                                = true) entries)), mm).
Proof.
  intros Hd. revert acc. induction Hd as [|[k v] entries Hv Hd IH]; intros acc.
  - cbn [for_each ret]. by rewrite filter_nil, fmap_nil, app_nil_r.
  - destruct v as [| | | | | |d]; try done.
    cbn [for_each]. rewrite bind_run, list_model_dict, IH, filter_cons. cbn [snd item].
    destruct (truthy _) eqn:Ht.
    + rewrite decide_True by done. by rewrite fmap_cons, <- app_assoc.
    + by rewrite decide_False.
Qed.

Lemma model_list_loop_raises (entries : list (string * pyval)) (acc : list pyval)
    (mm : manager) :
  Exists (λ kv, isinstance_dict kv.2 = false) entries →
  for_each entries acc list_model mm
  = (Raise (AttributeError "object has no attribute 'get'"), mm).
Proof.
  intros He. revert acc. induction entries as [|[k v] entries IH]; intros acc.
  - by apply Exists_nil in He.
  - cbn [for_each]. rewrite bind_run.
    destruct (isinstance_dict v) eqn:Hv.
    + destruct v as [| | | | | |d]; try done. rewrite list_model_dict.
      apply Exists_cons in He as [He|He]; [cbn [snd] in He; congruence|].
      by rewrite IH.
    + by destruct v.
Qed.

(** X20. [get_model_list] lists the configuration and nothing else: when
    [config["composite_models"]] is a dictionary whose values are
    dictionaries, the result has one entry for each key whose record has a
    true [is_valid], in the order of the dictionary, with that key as [id]
    and ["modelperm-" + key] as the [id] of its permission; a record
    without [is_valid] is left out.  When the configuration has no key
    ["composite_models"] the list is empty, and when one of the records is
    not a dictionary the call raises [AttributeError].  The manager is
    unchanged in every case. *)
Theorem model_list_lists_valid_entries (mm : manager) (settings entries : list (string * pyval)) :
  config mm = PDict settings →
  (assoc "composite_models" settings = None → get_model_list mm = (Ret [], mm)) ∧
  (assoc "composite_models" settings = Some (PDict entries) →
     (Forall (λ kv, isinstance_dict kv.2 = true) entries →
        get_model_list mm =
        (Ret ((λ kv, model_entry kv.1) <$>
              filter (λ kv, truthy (default (PBool false) (item "is_valid" kv.2)) = true)
                     entries), mm)) ∧
     (Exists (λ kv, isinstance_dict kv.2 = false) entries →
        get_model_list mm
        = (Raise (AttributeError "object has no attribute 'get'"), mm))).
Proof.
  intros Hc. unfold get_model_list. rewrite Hc. cbn [dict_get].
  split; [|intros Hs; split].
  - intros ->. reflexivity.
  - intros Hd. rewrite bind_run. cbn [ret]. rewrite Hs, bind_run. cbn [dict_items ret].
    by rewrite model_list_loop.
  - intros He. rewrite bind_run. cbn [ret]. rewrite Hs, bind_run. cbn [dict_items ret].
    by rewrite model_list_loop_raises.
Qed.

Lemma model_list_lists_valid_entries_witness :
  get_model_list
    (Manager Examples.fresh
       (PDict [("composite_models",
                PDict [ ("a", PDict [("is_valid", PBool true)]);
                        ("b", PDict [("is_valid", PBool false)]);
                        ("c", PDict []);
                        ("d", PDict [("is_valid", PInt 1)]) ])])
       (ModelCache.new_cache 5) 0)
  = (Ret [model_entry "a"; model_entry "d"],
     Manager Examples.fresh
       (PDict [("composite_models",
                PDict [ ("a", PDict [("is_valid", PBool true)]);
                        ("b", PDict [("is_valid", PBool false)]);
                        ("c", PDict []);
                        ("d", PDict [("is_valid", PInt 1)]) ])])
       (ModelCache.new_cache 5) 0).
Proof.
  destruct (model_list_lists_valid_entries
              (Manager Examples.fresh
                 (PDict [("composite_models",
                          PDict [ ("a", PDict [("is_valid", PBool true)]);
                                  ("b", PDict [("is_valid", PBool false)]);
                                  ("c", PDict []);
                                  ("d", PDict [("is_valid", PInt 1)]) ])])
                 (ModelCache.new_cache 5) 0)
              _ [ ("a", PDict [("is_valid", PBool true)]);
                  ("b", PDict [("is_valid", PBool false)]);
                  ("c", PDict []);
                  ("d", PDict [("is_valid", PInt 1)]) ] eq_refl) as [_ H].
  destruct (H eq_refl) as [Hl _].
  rewrite Hl; [reflexivity|]. repeat constructor.
Defined.

(** The model list is a function of the configuration alone. *)
Lemma list_model_run (models : list pyval) (kv : string * pyval) (mm : manager) :
  list_model models kv mm =
  (match kv.2 with
   | PDict d =>
       Ret (if truthy (default (PBool false) (assoc "is_valid" d))
            then models ++ [model_entry kv.1] else models)
   | _ => Raise (AttributeError "object has no attribute 'get'")
   end, mm).
Proof.
  destruct kv as [k v]. destruct v; try reflexivity. apply list_model_dict.
Qed.

Lemma model_list_of_config (mm1 mm2 : manager) :
  config mm1 = config mm2 → (get_model_list mm1).1 = (get_model_list mm2).1.
Proof.
  intros Hc. unfold get_model_list. rewrite <- Hc.
  destruct (config mm1) as [| | | | | |d]; try reflexivity.
  cbn [dict_get]. rewrite !bind_run. cbn [ret].
  destruct (match assoc "composite_models" d with Some v => v | None => PDict [] end)
    as [| | | | | |entries]; try reflexivity.
  rewrite !bind_run. cbn [dict_items ret]. generalize (@nil pyval).
  induction entries as [|kv entries IH]; intros acc; [reflexivity|].
  cbn [for_each]. rewrite !bind_run, !list_model_run.
  destruct kv.2; try reflexivity. apply IH.
Qed.

Section ConfigFile.
Variable load_config : M manager pyval.
Variable write_json : pyval → M manager unit.

(** X21. Neither [update_config] nor [get_config] ever returns, whatever the
    loader and the file operations do.  [update_config] of an object that is
    not a dictionary raises [ValueError] and leaves the manager as it was.
    [update_config] of a dictionary replaces the configuration and empties
    the instance cache, keeping its capacity, and then raises
    [AttributeError] before anything is written, the object having no
    attribute [config_path]; the model list is from then on the one of the
    new configuration.  [get_config] raises [AttributeError], the object
    having no attribute [_load_config], and leaves the manager as it was. *)
Theorem update_config_replaces_then_raises (c : pyval) (mm : manager) :
  (isinstance_dict c = false →
     update_config write_json c mm = (Raise (ValueError "配置必须是字典"), mm)) ∧
  (isinstance_dict c = true →
     ∃ mm', update_config write_json c mm
            = (Raise (AttributeError
                        "'ModelManager' object has no attribute 'config_path'"), mm') ∧
            config mm' = c ∧ db_manager mm' = db_manager mm ∧
            constructed mm' = constructed mm ∧
            model_cache mm' = ModelCache.new_cache (ModelCache.max_size (model_cache mm)) ∧
            (get_model_list mm').1
            = (get_model_list (Manager (db_manager mm) c (model_cache mm)
                                       (constructed mm))).1) ∧
  get_config load_config mm
  = (Raise (AttributeError "'ModelManager' object has no attribute '_load_config'"), mm).
Proof.
  split; [|split].
  - intros Hc. unfold update_config. by rewrite Hc.
  - intros Hc. unfold update_config. rewrite Hc. cbn [negb].
    eexists. split; [reflexivity|]. repeat split. by apply model_list_of_config.
  - reflexivity.
Qed.

End ConfigFile.


End ManagerSpec.

Module SingleModelSpec.
Import Py SingleModel.
Local Open Scope py_scope.

Section Assembler.
Variable C : collaborators.

Lemma bind_unit {A D} (m : M unit A) (k : A → M unit D) (s : unit) :
  bind m k s = match m s with
               | (Ret a, s') => k a s'
               | (Raise e, s') => (Raise e, s')
               end.
Proof. reflexivity. Qed.

(** The response of the [except] clause has the shape of an error. *)
Lemma error_response_shape (e : exn) (model : pyval) (chat_id : string) (created : N) :
  finish_reason (error_response e model chat_id created) = Some (PStr "error") ∧
  item "error" (error_response e model chat_id created) = Some (PStr (exn_str e)) ∧
  ∃ pre, message_content (error_response e model chat_id created)
         = Some (PStr (pre +:+ exn_str e)).
Proof. repeat split. by eexists. Qed.

(** The response of the [try] block carries the two counts and their sum. *)
Lemma assemble_usage self messages model t p pp fp chat_id created r s :
  assemble C self messages model t p pp fp chat_id created tt = (Ret r, s) →
  finish_reason r = Some (PStr "stop") ∧
  ∃ prompt completion : nat,
    usage "prompt_tokens" r = Some (PInt (Z.of_nat prompt)) ∧
    usage "completion_tokens" r = Some (PInt (Z.of_nat completion)) ∧
    usage "total_tokens" r = Some (PInt (Z.of_nat prompt + Z.of_nat completion)).
Proof.
  unfold assemble. rewrite bind_unit.
  destruct (token_content messages tt) as [[text|e] []]; [|done].
  rewrite bind_unit. unfold lift at 1.
  destruct (encoding_for_model C "gpt-4o") as [[]|e]; [|done].
  rewrite bind_unit. unfold lift at 1.
  destruct (encode C (PStr text)) as [input_tokens|e]; [|done].
  rewrite bind_unit.
  destruct (call_client C self messages model t p pp fp tt) as [[content|e] []]; [|done].
  rewrite bind_unit. destruct content as [response_content|]; [|done].
  cbn [ret]. rewrite bind_unit. unfold lift at 1.
  destruct (encode C response_content) as [output_tokens|e]; [|done].
  intros [= <- _]. split; [reflexivity|].
  by exists (length input_tokens), (length output_tokens).
Qed.

(** When the prompt was tokenized and the call of the client raises, the
    [try] block raises that exception. *)
Lemma assemble_client_raises self messages model t p pp fp chat_id created
    e text tokens :
  token_content messages tt = (Ret text, tt) →
  encoding_for_model C "gpt-4o" = Ret tt →
  encode C (PStr text) = Ret tokens →
  call_client C self messages model t p pp fp tt = (Raise e, tt) →
  assemble C self messages model t p pp fp chat_id created tt = (Raise e, tt).
Proof.
  intros Ht Hm He Hc. unfold assemble.
  rewrite bind_unit, Ht, bind_unit. unfold lift at 1. rewrite Hm.
  rewrite bind_unit. unfold lift at 1. rewrite He. by rewrite bind_unit, Hc.
Qed.

(** When the tokenizer and the vendor client return, the [try] block returns
    the response built from what they gave. *)
Lemma call_client_returns self messages model t p pp fp kwargs content :
  (model_type self = "openai" ∧
     kwargs = [("temperature", t); ("top_p", p); ("presence_penalty", pp);
               ("frequency_penalty", fp)] ∨
   model_type self = "anthropic" ∧ kwargs = [("temperature", t); ("top_p", p)] ∨
   model_type self = "deepseek" ∧ kwargs = []) →
  chat_completion C (client self) messages model kwargs = Ret content →
  call_client C self messages model t p pp fp tt = (Ret (Some content), tt).
Proof.
  unfold call_client. intros [[-> ->]|[[-> ->]|[-> ->]]] Hc; cbn [String.eqb Ascii.eqb Bool.eqb];
    rewrite bind_unit; unfold lift; by rewrite Hc.
Qed.

Lemma call_client_other self messages model t p pp fp :
  model_type self ≠ "openai" → model_type self ≠ "anthropic" →
  model_type self ≠ "deepseek" →
  call_client C self messages model t p pp fp tt = (Ret None, tt).
Proof.
  intros H1 H2 H3. unfold call_client.
  by rewrite !(proj2 (String.eqb_neq _ _)).
Qed.

Lemma assemble_returns self messages model t p pp fp chat_id created
    text input_tokens content output_tokens :
  token_content messages tt = (Ret text, tt) →
  encoding_for_model C "gpt-4o" = Ret tt →
  encode C (PStr text) = Ret input_tokens →
  call_client C self messages model t p pp fp tt = (Ret (Some content), tt) →
  encode C content = Ret output_tokens →
  assemble C self messages model t p pp fp chat_id created tt =
  (Ret (response chat_id created model input_tokens output_tokens content), tt).
Proof.
  intros Ht Hm He Hc Ho. unfold assemble.
  rewrite bind_unit, Ht, bind_unit. unfold lift at 1. rewrite Hm.
  rewrite bind_unit. unfold lift at 1. rewrite He. rewrite bind_unit, Hc.
  rewrite bind_unit. cbn [ret]. rewrite bind_unit. unfold lift at 1. by rewrite Ho.
Qed.

Lemma assemble_unbound self messages model t p pp fp chat_id created
    text input_tokens :
  token_content messages tt = (Ret text, tt) →
  encoding_for_model C "gpt-4o" = Ret tt →
  encode C (PStr text) = Ret input_tokens →
  call_client C self messages model t p pp fp tt = (Ret None, tt) →
  ∃ e, assemble C self messages model t p pp fp chat_id created tt = (Raise e, tt).
Proof.
  intros Ht Hm He Hc. unfold assemble.
  rewrite bind_unit, Ht, bind_unit. unfold lift at 1. rewrite Hm.
  rewrite bind_unit. unfold lift at 1. rewrite He. rewrite bind_unit, Hc.
  rewrite bind_unit. by eexists.
Qed.


End Assembler.


(** *** The streaming generator *)

Lemma drain_frames (outs : list string) (rest : queue) :
  drain ((Some <$> outs) ++ None :: rest) = (outs, true).
Proof.
  induction outs as [|o outs IH]; [done|].
  rewrite fmap_cons. cbn [app drain]. by rewrite IH.
Qed.

Section StreamLoop.
Variable C : stream_collaborators.
Variables (chat_id : string) (created_time : N) (model : pyval).

(** The bytes put on the queue for a piece of content. *)
Let framed (content : pyval) (o : string) : Prop :=
  ∃ text, dumps C (chunk chat_id created_time model content) = Ret text ∧ o = frame text.

Lemma emit_run (content : pyval) (q : queue) :
  emit C chat_id created_time model content q =
  match dumps C (chunk chat_id created_time model content) with
  | Ret text => (Ret tt, q ++ [Some (frame text)])
  | Raise e => (Raise e, q)
  end.
Proof. unfold emit. rewrite StoreSpec.bind_run. by destruct (dumps C _). Qed.

Section Loop.
(** A loop body that relays at most one piece of content per item. *)
Variable body : pyval → M queue unit.
Variable sel : pyval → outcome (option pyval).
Hypothesis body_run : ∀ x q,
  body x q = match sel x with
             | Raise e => (Raise e, q)
             | Ret None => (Ret tt, q)
             | Ret (Some c) => emit C chat_id created_time model c q
             end.

Let relayed (x : pyval) : option pyval :=
  match sel x with Ret oc => oc | Raise _ => None end.

Let good (x : pyval) : Prop :=
  ∃ oc, sel x = Ret oc ∧
        ∀ c, oc = Some c →
             is_raise (dumps C (chunk chat_id created_time model c)) = false.

Lemma relay_loop (items : list pyval) (q : queue) :
  ∃ r k outs,
    for_each items tt (λ _ x, body x) q = (r, q ++ (Some <$> outs)) ∧
    k ≤ length items ∧
    Forall2 framed (omap relayed (take k items)) outs ∧
    (is_raise r = false → k = length items) ∧
    ((∀ x, x ∈ items → good x) → r = Ret tt).
Proof.
  revert q. induction items as [|x items IH]; intros q.
  - exists (Ret tt), 0, []. cbn [for_each ret fmap list_fmap]. rewrite app_nil_r.
    split; [done|]. split; [done|]. split; [constructor|done].
  - cbn [for_each]. rewrite StoreSpec.bind_run, body_run.
    destruct (sel x) as [[c|]|e] eqn:Hsel.
    + rewrite emit_run.
      destruct (dumps C (chunk chat_id created_time model c)) as [text|e] eqn:Hd.
      * destruct (IH (q ++ [Some (frame text)])) as (r & k & outs & Hrun & Hk & Hf & Hr & Hg).
        exists r, (S k), (frame text :: outs). rewrite Hrun.
        split; [by rewrite <- app_assoc|]. split; [simpl; lia|]. split; [|split].
        -- cbn [take omap list_omap]. unfold relayed at 1. rewrite Hsel.
           constructor; [by exists text|done].
        -- intros Hok. simpl. by rewrite (Hr Hok).
        -- intros Hall. apply Hg. intros y Hy. apply Hall. by right.
      * exists (Raise e), 0, []. cbn [fmap list_fmap]. rewrite app_nil_r.
        split; [done|]. split; [simpl; lia|]. split; [constructor|]. split; [done|].
        intros Hall. destruct (Hall x) as (oc & Hoc & Hc); [left|].
        rewrite Hsel in Hoc. injection Hoc as <-. specialize (Hc c eq_refl).
        by rewrite Hd in Hc.
    + destruct (IH q) as (r & k & outs & Hrun & Hk & Hf & Hr & Hg).
      exists r, (S k), outs. rewrite Hrun.
      split; [done|]. split; [simpl; lia|]. split; [|split].
      -- cbn [take omap list_omap]. unfold relayed at 1. by rewrite Hsel.
      -- intros Hok. simpl. by rewrite (Hr Hok).
      -- intros Hall. apply Hg. intros y Hy. apply Hall. by right.
    + exists (Raise e), 0, []. cbn [fmap list_fmap]. rewrite app_nil_r.
      split; [done|]. split; [simpl; lia|]. split; [constructor|]. split; [done|].
      intros Hall. destruct (Hall x) as (oc & Hoc & Hc); [left|]. congruence.
Qed.

(** The iteration over a stream: what was relayed before the stream or the
    body failed is on the queue, and everything is when nothing failed. *)
Lemma async_for_queue (stream : list pyval * option exn) (q : queue) :
  ∃ r k outs,
    async_for stream body q = (r, q ++ (Some <$> outs)) ∧
    k ≤ length stream.1 ∧
    Forall2 framed (omap relayed (take k stream.1)) outs ∧
    ((∀ x, x ∈ stream.1 → good x) → k = length stream.1).
Proof.
  destruct (relay_loop stream.1 q) as (r & k & outs & Hrun & Hk & Hf & Hr & Hg).
  unfold async_for. rewrite StoreSpec.bind_run, Hrun.
  destruct r as [[]|e].
  - destruct stream.2; eexists _, k, outs; (split; [reflexivity|]);
      repeat split; try done; intros _; by apply Hr.
  - exists (Raise e), k, outs. repeat split; try done.
    intros Hall. by specialize (Hg Hall).
Qed.

End Loop.

End StreamLoop.

Lemma omap_all {A} (l : list A) : omap Some l = l.
Proof. induction l as [|x l IH]; [done|]. cbn. by rewrite IH. Qed.

Section Streamer.
Variable C : stream_collaborators.

(** The generator yields what the task has put on the queue, then the
    closing item. *)
Lemma generator_run (self : single_model) (messages model_arg model : pyval)
    (now_ms now_s : N) (t p pp fp : pyval) (r : outcome unit) (outs : list string) :
  unpack4 model_arg = Ret (t, p, pp, fp) →
  relay C self messages model t p pp fp ("chatcmpl-" +:+ hex_digits now_ms) now_s []
  = (r, Some <$> outs) →
  chat_completions_with_stream C self messages model_arg model now_ms now_s
  = Finished (outs ++ [done_mark]).
Proof.
  intros Hu Hr. unfold chat_completions_with_stream. rewrite Hu.
  unfold process_stream. rewrite StoreSpec.bind_run. unfold try_except. rewrite Hr.
  assert (Hq : ∀ q : queue, q = Some <$> outs → drain (put None q).2 = (outs, true)).
  { intros q ->. unfold put. cbn [snd]. apply drain_frames. }
  destruct r as [[]|e]; cbn [ret]; by rewrite Hq.
Qed.

(** The three branches of the [try] block. *)
Lemma relay_openai self messages model t p pp fp chat_id created :
  model_type self = "openai" →
  relay C self messages model t p pp fp chat_id created =
  async_for (stream_chat C (client self) messages model
               [("temperature", t); ("top_p", p); ("presence_penalty", pp);
                ("frequency_penalty", fp)])
            (emit C chat_id created model).
Proof. intros Ht. unfold relay. by rewrite Ht. Qed.

Lemma relay_anthropic self messages model t p pp fp chat_id created :
  model_type self = "anthropic" →
  relay C self messages model t p pp fp chat_id created =
  async_for (stream_chat C (client self) messages model
               [("temperature", t); ("top_p", p)])
            (emit C chat_id created model).
Proof. intros Ht. unfold relay. by rewrite Ht. Qed.

Lemma relay_deepseek self messages model t p pp fp chat_id created :
  model_type self = "deepseek" →
  relay C self messages model t p pp fp chat_id created =
  async_for (stream_chat C (client self) messages model [("", PBool false)])
            (λ item,
               pair <- (λ q, (unpack2 item, q)) ;;
               if is_content pair.1 then emit C chat_id created model pair.2
               else ret tt).
Proof. intros Ht. unfold relay. by rewrite Ht. Qed.

Lemma relay_other self messages model t p pp fp chat_id created :
  model_type self ∉ ["openai"; "anthropic"; "deepseek"] →
  relay C self messages model t p pp fp chat_id created = ret tt.
Proof.
  intros Ht. unfold relay.
  destruct (String.eqb_spec (model_type self) "openai") as [Heq|_];
    [rewrite Heq in Ht; destruct Ht; repeat constructor|].
  destruct (String.eqb_spec (model_type self) "anthropic") as [Heq|_];
    [rewrite Heq in Ht; destruct Ht; repeat constructor|].
  destruct (String.eqb_spec (model_type self) "deepseek") as [Heq|_];
    [rewrite Heq in Ht; destruct Ht; repeat constructor|done].
Qed.

(** The queue after the iteration over an OpenAI or Anthropic stream. *)
Lemma plain_stream_queue chat_id created model (stream : list pyval * option exn)
    (q : queue) :
  ∃ r k outs,
    async_for stream (emit C chat_id created model) q = (r, q ++ (Some <$> outs)) ∧
    k ≤ length stream.1 ∧
    Forall2 (λ x o, ∃ text, dumps C (chunk chat_id created model x) = Ret text ∧
                            o = frame text) (take k stream.1) outs ∧
    ((∀ x, x ∈ stream.1 →
        is_raise (dumps C (chunk chat_id created model x)) = false) →
     k = length stream.1).
Proof.
  destruct (async_for_queue C chat_id created model (emit C chat_id created model)
              (λ x, Ret (Some x)) (λ _ _, eq_refl) stream q)
    as (r & k & outs & Hrun & Hk & Hf & Hall).
  rewrite omap_all in Hf. exists r, k, outs. repeat split; try done.
  intros Hd. apply Hall. intros x Hx. exists (Some x). split; [done|].
  intros c [= <-]. by apply Hd.
Qed.

(** The queue after the iteration over a DeepSeek stream. *)
Lemma deepseek_stream_queue chat_id created model (stream : list pyval * option exn)
    (q : queue) :
  ∃ r k outs,
    async_for stream
      (λ item,
         pair <- (λ q, (unpack2 item, q)) ;;
         if is_content pair.1 then emit C chat_id created model pair.2 else ret tt) q
    = (r, q ++ (Some <$> outs)) ∧
    k ≤ length stream.1 ∧
    Forall2 (λ x o, ∃ text, dumps C (chunk chat_id created model x) = Ret text ∧
                            o = frame text) (omap content_of (take k stream.1)) outs ∧
    ((∀ x, x ∈ stream.1 → is_raise (unpack2 x) = false) →
     (∀ x c, x ∈ stream.1 → content_of x = Some c →
        is_raise (dumps C (chunk chat_id created model c)) = false) →
     k = length stream.1).
Proof.
  destruct (async_for_queue C chat_id created model
              (λ item,
                 pair <- (λ q, (unpack2 item, q)) ;;
                 if is_content pair.1 then emit C chat_id created model pair.2
                 else ret tt)
              (λ x, match unpack2 x with
                    | Ret (content_type, content) =>
                        Ret (if is_content content_type then Some content else None)
                    | Raise e => Raise e
                    end)) with (stream := stream) (q := q)
    as (r & k & outs & Hrun & Hk & Hf & Hall).
  { intros x q0. rewrite StoreSpec.bind_run.
    destruct (unpack2 x) as [[tag c]|e]; [|done]. cbn [fst snd].
    by destruct (is_content tag). }
  assert (Hsel : ∀ x, match match unpack2 x with
                            | Ret (content_type, content) =>
                                Ret (if is_content content_type then Some content
                                     else None)
                            | Raise e => Raise e
                            end with
                      | Ret oc => oc
                      | Raise _ => None
                      end = content_of x).
  { intros x. unfold content_of. by destruct (unpack2 x) as [[tag c]|e]. }
  exists r, k, outs. split; [done|]. split; [done|]. split.
  - match type of Hf with
    | Forall2 _ (omap ?g _) _ =>
        rewrite (list_omap_ext content_of g (take k stream.1) (take k stream.1));
          [exact Hf|]
    end.
    apply Forall_Forall2_diag, Forall_forall. intros x _. symmetry. apply Hsel.
  - intros Hu Hd. apply Hall. intros x Hx. specialize (Hu x Hx). specialize (Hd x).
    unfold content_of in Hd.
    destruct (unpack2 x) as [[tag c]|e]; [|done].
    eexists. split; [reflexivity|]. intros c' Hc'. apply (Hd c' Hx).
    by rewrite Hc'.
Qed.

Lemma Forall2_framed {A} (R : A → string → Prop) (l : list A) (outs : list string) :
  Forall2 R l outs → Forall (λ o, ∃ x, R x o) outs.
Proof. induction 1; constructor; eauto. Qed.

(** X22. With a well-formed [model_arg], the streaming generator always
    finishes, and its last item is the closing [data: [DONE]]: it never
    raises and never waits for ever, whatever the vendor stream yields
    before it ends, with an exception or without, and whatever the
    serializer does.  Every item before the last is the frame of a chunk that
    was serialized.  For an OpenAI or Anthropic client the items are the
    frames, in order, of the first [k] pieces that the vendor stream yields;
    [k] is the number of all the pieces when every one of them serializes,
    also when the vendor stream then ends with an exception: a stream that
    breaks is closed like a complete one.  For any other model type than the
    three known, the closing item is the only one. *)
Theorem stream_always_ends_with_done (self : single_model)
    (messages model_arg model : pyval) (now_ms now_s : N) (t p pp fp : pyval) :
  unpack4 model_arg = Ret (t, p, pp, fp) →
  ∃ out,
    chat_completions_with_stream C self messages model_arg model now_ms now_s
    = Finished (out ++ [done_mark]) ∧
    Forall (λ o, ∃ content text,
              dumps C (chunk ("chatcmpl-" +:+ hex_digits now_ms) now_s model content)
              = Ret text ∧ o = frame text) out ∧
    (∀ kwargs,
       (model_type self = "openai" ∧
        kwargs = [("temperature", t); ("top_p", p); ("presence_penalty", pp);
                  ("frequency_penalty", fp)]) ∨
       (model_type self = "anthropic" ∧
        kwargs = [("temperature", t); ("top_p", p)]) →
       ∃ k, k ≤ length (stream_chat C (client self) messages model kwargs).1 ∧
            Forall2 (λ x o, ∃ text,
                       dumps C (chunk ("chatcmpl-" +:+ hex_digits now_ms) now_s model x)
                       = Ret text ∧ o = frame text)
                    (take k (stream_chat C (client self) messages model kwargs).1) out ∧
            ((∀ x, x ∈ (stream_chat C (client self) messages model kwargs).1 →
                is_raise (dumps C (chunk ("chatcmpl-" +:+ hex_digits now_ms) now_s
                                         model x)) = false) →
             k = length (stream_chat C (client self) messages model kwargs).1)) ∧
    (model_type self ∉ ["openai"; "anthropic"; "deepseek"] → out = []).
Proof.
  intros Hu. set (chat_id := "chatcmpl-" +:+ hex_digits now_ms).
  destruct (decide (model_type self = "openai")) as [Ho|Hno];
    [|destruct (decide (model_type self = "anthropic")) as [Ha|Hna];
      [|destruct (decide (model_type self = "deepseek")) as [Hd|Hnd]]].
  - destruct (plain_stream_queue chat_id now_s model
                (stream_chat C (client self) messages model
                   [("temperature", t); ("top_p", p); ("presence_penalty", pp);
                    ("frequency_penalty", fp)]) [])
      as (r & k & outs & Hrun & Hk & Hf & Hall).
    exists outs. split; [|split; [|split]].
    + apply (generator_run self messages model_arg model now_ms now_s t p pp fp r outs Hu).
      by rewrite relay_openai.
    + apply Forall2_framed in Hf. eapply Forall_impl; [exact Hf|].
      intros o (x & text & Hx & ->). by exists x, text.
    + intros kwargs [[_ ->]|[Ha _]]; [by exists k|congruence].
    + intros Hn. destruct Hn. rewrite Ho. repeat constructor.
  - destruct (plain_stream_queue chat_id now_s model
                (stream_chat C (client self) messages model
                   [("temperature", t); ("top_p", p)]) [])
      as (r & k & outs & Hrun & Hk & Hf & Hall).
    exists outs. split; [|split; [|split]].
    + apply (generator_run self messages model_arg model now_ms now_s t p pp fp r outs Hu).
      by rewrite relay_anthropic.
    + apply Forall2_framed in Hf. eapply Forall_impl; [exact Hf|].
      intros o (x & text & Hx & ->). by exists x, text.
    + intros kwargs [[Ho _]|[_ ->]]; [congruence|by exists k].
    + intros Hn. destruct Hn. rewrite Ha. repeat constructor.
  - destruct (deepseek_stream_queue chat_id now_s model
                (stream_chat C (client self) messages model [("", PBool false)]) [])
      as (r & k & outs & Hrun & Hk & Hf & Hall).
    exists outs. split; [|split; [|split]].
    + apply (generator_run self messages model_arg model now_ms now_s t p pp fp r outs Hu).
      by rewrite relay_deepseek.
    + apply Forall2_framed in Hf. eapply Forall_impl; [exact Hf|].
      intros o (x & text & Hx & ->). by exists x, text.
    + intros kwargs [[Ho _]|[Ha _]]; congruence.
    + intros Hn. destruct Hn. rewrite Hd. repeat constructor.
  - assert (Hother : model_type self ∉ ["openai"; "anthropic"; "deepseek"]).
    { intros Hin. repeat (apply elem_of_cons in Hin as [Hin|Hin]; [done|]).
      by apply elem_of_nil in Hin. }
    exists []. split; [|split; [|split]].
    + apply (generator_run self messages model_arg model now_ms now_s t p pp fp (Ret tt) []
               Hu).
      by rewrite relay_other.
    + constructor.
    + intros kwargs [[Ho _]|[Ha _]]; congruence.
    + done.
Qed.

(** X23. For a DeepSeek client, with a well-formed [model_arg], the items of
    the streaming generator are the frames of the content of the pieces that
    the vendor stream tags ["content"], among its first [k] pieces, followed
    by the closing item; the pieces with any other tag, the reasoning among
    them, are dropped.  [k] is the number of all the pieces when every piece
    is a pair and every tagged content serializes. *)
Theorem deepseek_stream_relays_content_only (self : single_model)
    (messages model_arg model : pyval) (now_ms now_s : N) (t p pp fp : pyval) :
  unpack4 model_arg = Ret (t, p, pp, fp) → model_type self = "deepseek" →
  ∃ k out,
    k ≤ length (stream_chat C (client self) messages model [("", PBool false)]).1 ∧
    chat_completions_with_stream C self messages model_arg model now_ms now_s
    = Finished (out ++ [done_mark]) ∧
    Forall2 (λ x o, ∃ text,
               dumps C (chunk ("chatcmpl-" +:+ hex_digits now_ms) now_s model x)
               = Ret text ∧ o = frame text)
            (omap content_of
               (take k (stream_chat C (client self) messages model
                          [("", PBool false)]).1)) out ∧
    ((∀ x, x ∈ (stream_chat C (client self) messages model [("", PBool false)]).1 →
        is_raise (unpack2 x) = false) →
     (∀ x c, x ∈ (stream_chat C (client self) messages model [("", PBool false)]).1 →
        content_of x = Some c →
        is_raise (dumps C (chunk ("chatcmpl-" +:+ hex_digits now_ms) now_s model c))
        = false) →
     k = length (stream_chat C (client self) messages model [("", PBool false)]).1).
Proof.
  intros Hu Hd.
  destruct (deepseek_stream_queue ("chatcmpl-" +:+ hex_digits now_ms) now_s model
              (stream_chat C (client self) messages model [("", PBool false)]) [])
    as (r & k & outs & Hrun & Hk & Hf & Hall).
  exists k, outs. split; [done|]. split; [|done].
  apply (generator_run self messages model_arg model now_ms now_s t p pp fp r outs Hu).
  by rewrite relay_deepseek.
Qed.

End Streamer.

Lemma stream_always_ends_with_done_witness :
  ∃ out, chat_completions_with_stream Examples.breaking_stream Examples.openai_model
           Examples.hello (PList [PNone; PNone; PNone; PNone]) (PStr "gpt-4o") 1000 1
         = Finished (out ++ [done_mark]) ∧
         length out = 2.
Proof.
  destruct (stream_always_ends_with_done Examples.breaking_stream Examples.openai_model
              Examples.hello (PList [PNone; PNone; PNone; PNone]) (PStr "gpt-4o") 1000 1
              PNone PNone PNone PNone eq_refl)
    as (out & Hrun & _ & Hplain & _).
  exists out. split; [exact Hrun|].
  destruct (Hplain _ (or_introl (conj eq_refl eq_refl))) as (k & Hk & Hf & Hall).
  rewrite <- (Forall2_length _ _ _ Hf), Hall; [reflexivity|].
  intros x Hx. cbn in Hx.
  repeat (apply elem_of_cons in Hx as [->|Hx]; [reflexivity|]).
  by apply elem_of_nil in Hx.
Defined.

Lemma deepseek_stream_relays_content_only_witness :
  ∃ out, chat_completions_with_stream Examples.reasoning_stream Examples.deepseek_model
           Examples.hello (PList [PNone; PNone; PNone; PNone]) (PStr "deepseek-r1") 1000 1
         = Finished (out ++ [done_mark]) ∧
         length out = 1.
Proof.
  destruct (deepseek_stream_relays_content_only Examples.reasoning_stream
              Examples.deepseek_model Examples.hello (PList [PNone; PNone; PNone; PNone])
              (PStr "deepseek-r1") 1000 1 PNone PNone PNone PNone eq_refl eq_refl)
    as (k & out & Hk & Hrun & Hf & Hall).
  exists out. split; [exact Hrun|].
  rewrite <- (Forall2_length _ _ _ Hf), Hall; [reflexivity|..].
  - intros x Hx. cbn in Hx.
    repeat (apply elem_of_cons in Hx as [->|Hx]; [reflexivity|]).
    by apply elem_of_nil in Hx.
  - intros x c Hx. cbn in Hx.
    repeat (apply elem_of_cons in Hx as [->|Hx];
            [cbn; intros [= <-]; reflexivity || discriminate|]);
      try by apply elem_of_nil in Hx.
Defined.

(** *** The sampling parameters *)

Lemma init_known (key url : pyval) (type : string) (prox : pyval) (self : single_model) :
  __init__ key url type prox = Ret self →
  (type = "openai" ∧ self = Single key url "openai" prox OpenAICompatibleClient) ∨
  (type = "anthropic" ∧ self = Single key url "anthropic" prox ClaudeClient) ∨
  (type = "deepseek" ∧ self = Single key url "deepseek" prox DeepSeekClient).
Proof.
  unfold __init__.
  destruct (String.eqb_spec type "openai") as [->|_]; [intros [= <-]; by left|].
  destruct (String.eqb_spec type "anthropic") as [->|_];
    [intros [= <-]; right; by left|].
  destruct (String.eqb_spec type "deepseek") as [->|_];
    [intros [= <-]; right; by right|done].
Qed.

(** X29. Which sampling parameters reach the vendor.  [SingleModel] is
    constructed for the types ["openai"], ["anthropic"] and ["deepseek"]
    only, any other type raising [ValueError].  For an object constructed
    for ["deepseek"], neither the response of
    [chat_completions_without_stream] nor the items of
    [chat_completions_with_stream] depend on the four values of
    [model_arg]; for one constructed for ["anthropic"], they do not depend on
    [presence_penalty] and [frequency_penalty]. *)
Theorem unused_sampling_parameters (C : collaborators) (S : stream_collaborators)
    (key url : pyval) (type : string) (prox : pyval) (self : single_model)
    (messages model : pyval) (now_ms now_s : N) (t p pp fp t' p' pp' fp' : pyval) :
  __init__ key url type prox = Ret self →
  type ∈ ["openai"; "anthropic"; "deepseek"] ∧ model_type self = type ∧
  (∀ other, other ∉ ["openai"; "anthropic"; "deepseek"] →
     ∃ msg, __init__ key url other prox = Raise (ValueError msg)) ∧
  (type = "deepseek" →
   chat_completions_without_stream C self messages (PList [t; p; pp; fp]) model
     now_ms now_s
   = chat_completions_without_stream C self messages (PList [t'; p'; pp'; fp']) model
       now_ms now_s ∧
   chat_completions_with_stream S self messages (PList [t; p; pp; fp]) model
     now_ms now_s
   = chat_completions_with_stream S self messages (PList [t'; p'; pp'; fp']) model
       now_ms now_s) ∧
  (type = "anthropic" →
   chat_completions_without_stream C self messages (PList [t; p; pp; fp]) model
     now_ms now_s
   = chat_completions_without_stream C self messages (PList [t; p; pp'; fp']) model
       now_ms now_s ∧
   chat_completions_with_stream S self messages (PList [t; p; pp; fp]) model
     now_ms now_s
   = chat_completions_with_stream S self messages (PList [t; p; pp'; fp']) model
       now_ms now_s).
Proof.
  intros Hinit. split; [|split; [|split; [|split]]].
  - destruct (init_known _ _ _ _ _ Hinit) as [[-> _]|[[-> _]|[-> _]]]; repeat constructor.
  - by destruct (init_known _ _ _ _ _ Hinit) as [[-> ->]|[[-> ->]|[-> ->]]].
  - intros other Hother. unfold __init__.
    destruct (String.eqb_spec other "openai") as [->|_];
      [destruct Hother; repeat constructor|].
    destruct (String.eqb_spec other "anthropic") as [->|_];
      [destruct Hother; repeat constructor|].
    destruct (String.eqb_spec other "deepseek") as [->|_];
      [destruct Hother; repeat constructor|by eexists].
  - intros ->. destruct (init_known _ _ _ _ _ Hinit) as [[? _]|[[? _]|[_ ->]]];
      [done|done|]. split; reflexivity.
  - intros ->. destruct (init_known _ _ _ _ _ Hinit) as [[? _]|[[_ ->]|[? _]]];
      [done| |done]. split; reflexivity.
Qed.

Lemma unused_sampling_parameters_witness :
  chat_completions_with_stream Examples.reasoning_stream Examples.deepseek_model
    Examples.hello (PList [PInt 0; PInt 1; PInt 0; PInt 0]) (PStr "deepseek-r1") 1000 1
  = chat_completions_with_stream Examples.reasoning_stream Examples.deepseek_model
      Examples.hello (PList [PNone; PNone; PNone; PNone]) (PStr "deepseek-r1") 1000 1.
Proof.
  destruct (unused_sampling_parameters Examples.failing_client Examples.reasoning_stream
              (PStr "sk-1") (PStr "https://api.example.com") "deepseek" PNone
              Examples.deepseek_model Examples.hello (PStr "deepseek-r1") 1000 1
              (PInt 0) (PInt 1) (PInt 0) (PInt 0) PNone PNone PNone PNone eq_refl)
    as (_ & _ & _ & Hd & _).
  exact (proj2 (Hd eq_refl)).
Defined.

End SingleModelSpec.

Module AuthSpec.
Import Auth.

Lemma starts_with_app (w l : bytes) : starts_with w l = true ↔ ∃ r, l = w ++ r.
Proof.
  revert l. induction w as [|a w IH]; intros l.
  - split; [by exists l|done].
  - destruct l as [|b l]; cbn [starts_with].
    + split; [done|]. by intros [r Hr].
    + destruct (Ascii.eqb_spec a b) as [->|Hne].
      * rewrite IH. split; intros [r Hr]; exists r; [by rewrite Hr|by injection Hr].
      * split; [done|]. intros [r Hr]. by injection Hr.
Qed.

(** **** Removing the occurrences of a substring *)

Lemma remove_skip (old p s : bytes) :
  remove_from old (length p) (p ++ s) = remove_from old 0 s.
Proof.
  induction p as [|a p IH]; [done|]. cbn [length app remove_from]. exact IH.
Qed.

(** An occurrence at the front is dropped. *)
Lemma remove_front (old s : bytes) :
  old ≠ [] → remove_from old 0 (old ++ s) = remove_from old 0 s.
Proof.
  destruct old as [|a old]; [done|]. intros _. cbn [app remove_from].
  assert (Hs : starts_with (a :: old) (a :: old ++ s) = true)
    by (apply starts_with_app; by exists s).
  rewrite Hs. replace (length (a :: old) - 1) with (length old) by (simpl; lia).
  apply remove_skip.
Qed.

(** A string in which the substring does not occur is left as it is. *)
Lemma remove_absent (old s : bytes) :
  (∀ a b, s ≠ a ++ old ++ b) → remove_from old 0 s = s.
Proof.
  induction s as [|c s IH]; [done|]. intros Hno. cbn [remove_from].
  destruct (starts_with old (c :: s)) eqn:Hs.
  - apply starts_with_app in Hs as [r Hr]. by destruct (Hno [] r).
  - rewrite IH; [done|]. intros a b Hab. apply (Hno (c :: a) b). by rewrite Hab.
Qed.

(** **** Stripping *)

Lemma after_one_Some (ws : list bytes) (s r : bytes) :
  after_one ws s = Some r → ∃ w, w ∈ ws ∧ s = w ++ r.
Proof.
  induction ws as [|w ws IH]; [done|]. cbn [after_one].
  destruct (starts_with w s) eqn:Hs.
  - intros [= <-]. apply starts_with_app in Hs as [r ->]. exists w.
    split; [left|]. by rewrite drop_app_length.
  - intros Hr. destruct (IH Hr) as (w' & Hw' & ->). exists w'. split; [by right|done].
Qed.

Lemma after_one_None (ws : list bytes) (s : bytes) :
  after_one ws s = None ↔ ∀ w, w ∈ ws → starts_with w s = false.
Proof.
  induction ws as [|w ws IH]; cbn [after_one].
  - split; [|done]. intros _ w Hw. by apply elem_of_nil in Hw.
  - destruct (starts_with w s) eqn:Hs.
    + split; [done|]. intros Hall. specialize (Hall w). rewrite Hs in Hall.
      by discriminate Hall; left.
    + rewrite IH. split.
      * intros Hall w' [->|Hw']%elem_of_cons; [done|by apply Hall].
      * intros Hall w' Hw'. apply Hall. by right.
Qed.

(** What is left has none of the characters at its front, and is the end of
    the string. *)
Lemma strip_front_done (ws : list bytes) (n : nat) (s : bytes) :
  (∀ w, w ∈ ws → w ≠ []) → length s ≤ n →
  after_one ws (strip_front ws n s) = None ∧ ∃ p, s = p ++ strip_front ws n s.
Proof.
  intros Hne. revert s. induction n as [|n IH]; intros s Hn.
  - destruct s; [|simpl in Hn; lia]. cbn [strip_front]. split; [|by exists []].
    apply after_one_None. intros w Hw. specialize (Hne w Hw). by destruct w.
  - cbn [strip_front]. destruct (after_one ws s) as [r|] eqn:Ha; [|split; [done|by exists []]].
    apply after_one_Some in Ha as (w & Hw & ->).
    specialize (Hne w Hw). rewrite length_app in Hn.
    assert (Hl : 0 < length w) by (destruct w; [done|simpl; lia]).
    destruct (IH r) as [Hd [p Hp]]; [lia|]. split; [done|].
    exists (w ++ p). by rewrite <- app_assoc, <- Hp.
Qed.

Lemma strip_front_clean (ws : list bytes) (n : nat) (s : bytes) :
  after_one ws s = None → strip_front ws n s = s.
Proof. intros Ha. destruct n; [done|]. cbn [strip_front]. by rewrite Ha. Qed.

Lemma whitespace_nonempty (w : bytes) : w ∈ whitespace → w ≠ [].
Proof.
  intros Hw ->. revert Hw. unfold whitespace. cbn [fmap list_fmap utf8].
  intros Hin. repeat (apply elem_of_cons in Hin as [Hin|Hin]; [discriminate|]).
  by apply elem_of_nil in Hin.
Qed.

Lemma reversed_whitespace_nonempty (w : bytes) : w ∈ reverse <$> whitespace → w ≠ [].
Proof.
  intros (w' & -> & Hw')%list_elem_of_fmap Hr.
  apply (whitespace_nonempty w' Hw'). apply (f_equal reverse) in Hr.
  by rewrite reverse_involutive in Hr.
Qed.

(** The result of [strip] neither begins nor ends with a whitespace
    character. *)
Lemma strip_clean (s : bytes) :
  space_before (strip s) = false ∧ space_after (strip s) = false.
Proof.
  unfold strip. set (l := lstrip s).
  destruct (strip_front_done whitespace (length s) s whitespace_nonempty) as [Hl _];
    [done|]. fold (lstrip s) in Hl. fold l in Hl.
  destruct (strip_front_done (reverse <$> whitespace) (length l) (reverse l)
              reversed_whitespace_nonempty) as [Hr [p Hp]];
    [by rewrite length_reverse|].
  split.
  - unfold space_before. destruct (after_one whitespace (rstrip l)) as [r|] eqn:Ha; [|done].
    apply after_one_Some in Ha as (w & Hw & Hwr).
    assert (Hs : starts_with w l = true).
    { apply starts_with_app. unfold rstrip in Hwr.
      apply (f_equal reverse) in Hp. rewrite reverse_involutive, reverse_app, Hwr in Hp.
      exists (r ++ reverse p). by rewrite Hp, <- app_assoc. }
    apply after_one_None with (w := w) in Hl; [congruence|done].
  - unfold space_after, rstrip. rewrite reverse_involutive. by rewrite Hr.
Qed.

(** A string that neither begins nor ends with a whitespace character is
    left as it is. *)
Lemma strip_id (s : bytes) :
  space_before s = false → space_after s = false → strip s = s.
Proof.
  unfold space_before, space_after. intros Hb Ha.
  destruct (after_one whitespace s) eqn:Hb'; [done|].
  destruct (after_one (reverse <$> whitespace) (reverse s)) eqn:Ha'; [done|].
  unfold strip, lstrip. rewrite (strip_front_clean _ _ _ Hb').
  unfold rstrip. rewrite (strip_front_clean _ _ _ Ha'). apply reverse_involutive.
Qed.

(** X28. What [verify_api_key] lets through.  Without a header it raises
    401, "Missing Authorization header".  A current key that begins or ends
    with a whitespace character is matched by no header: every request is
    refused with 401, "Invalid API key".  A current key that does neither
    and in which ["Bearer "] does not occur is matched by the header
    ["Bearer " + key] and by the key alone. *)
Theorem api_key_check (key : string) :
  verify_api_key key None = Unauthorized "Missing Authorization header" ∧
  (space_before (list_ascii_of_string key) || space_after (list_ascii_of_string key)
   = true →
   ∀ header, verify_api_key key (Some header) = Unauthorized "Invalid API key") ∧
  (space_before (list_ascii_of_string key) = false →
   space_after (list_ascii_of_string key) = false →
   (∀ a b, list_ascii_of_string key ≠ a ++ bearer ++ b) →
   verify_api_key key (Some ("Bearer " +:+ key)) = Accepted ∧
   verify_api_key key (Some key) = Accepted).
Proof.
  split; [done|]. split.
  - intros Hsp header. unfold verify_api_key. cbv zeta.
    rewrite bool_decide_eq_true_2; [done|]. intros Heq.
    destruct (strip_clean (remove_from bearer 0 (list_ascii_of_string header)))
      as [Hb Ha].
    rewrite Heq in Hb, Ha. by rewrite Hb, Ha in Hsp.
  - intros Hb Ha Hno. unfold verify_api_key. cbv zeta. split.
    + assert (Hh : list_ascii_of_string ("Bearer " +:+ key)
                   = bearer ++ list_ascii_of_string key) by reflexivity.
      rewrite Hh, remove_front, (remove_absent _ _ Hno), (strip_id _ Hb Ha) by done.
      by rewrite bool_decide_eq_false_2 by (intros H; by apply H).
    + rewrite (remove_absent _ _ Hno), (strip_id _ Hb Ha).
      by rewrite bool_decide_eq_false_2 by (intros H; by apply H).
Qed.

(** The default key is matched by its bearer header; a key stored with a
    trailing newline is matched by nothing. *)
Lemma api_key_check_witness :
  verify_api_key "123456" (Some "Bearer 123456") = Accepted ∧
  verify_api_key ("123456" +:+ SingleModel.newline) (Some "Bearer 123456")
  = Unauthorized "Invalid API key".
Proof.
  split.
  - destruct (api_key_check "123456") as (_ & _ & Hok).
    destruct Hok as [H _]; [reflexivity|reflexivity| |exact H].
    intros a b Hab. apply (f_equal length) in Hab.
    rewrite !length_app in Hab. simpl in Hab. lia.
  - destruct (api_key_check ("123456" +:+ SingleModel.newline)) as (_ & Hbad & _).
    apply Hbad. reflexivity.
Defined.

End AuthSpec.
